(** * Somatic instability index: the notebook's three functions

    Shallow embedding of [extract_files], [exp_peak_subset] and
    [calc_instability_index] of Somatic_Instability_Analysis.ipynb.

    Numbers.  The notebook computes with the int64 and float64 values of
    pandas objects.  A value is modelled by the rational it is, and a
    rational that is no float64 (the decimal [0.35] of a table or of a
    statement) stands for the float64 nearest to it.  The operations are
    those of IEEE 754 binary64: [*], [/] and [+] round their exact result to
    the nearest float64, ties to even ([Float64.nearest], 53 significant
    bits), and [round(x, 3)] is [rint(x * 1000) / 1000] as numpy computes
    it.  Comparisons compare the values.  The exponent range is not
    modelled: there is no overflow and no gradual underflow, which need
    magnitudes beyond 1.8e308 or below 2.2e-308, and a zero has no sign.
    What pandas produces on a division by zero (nan, inf, -inf) is
    modelled, because the calculator divides by a sum that can be zero:
    derived cells have type [num].

    [Height.sum()] is the exact sum.  That is what pandas computes on a
    column of integers (int64) as long as the sum stays within int64, where
    the code wraps around, and on a column of float64 up to the rounding of
    the additions; theorems about totals are stated for heights that are
    whole numbers with a total below 2^53, where the sum is exact for either
    type of column.

    Exceptions.  A Python exception is a [Raise] carrying the name of its
    class.

    Data frames.  A frame is its list of rows, each row carrying its index
    label, together with the set of derived columns that exist.  The five
    base columns always exist and hold numbers.  The calculator writes into
    the frames it is given: a frame of the model after a loop is the state
    of the object after that loop, and the frames of a list are distinct
    objects, as they are when [exp_peak_subset] has built them. *)

From Stdlib Require Import List String ZArith QArith Qround Qabs Qpower Bool Lia.
From Stdlib Require Import Sorted Permutation Lqa.
Import ListNotations.

Local Open Scope string_scope.
Local Open Scope list_scope.
Local Open Scope Q_scope.

(** ** Python results *)

Inductive result (A : Type) : Type :=
| Ok (a : A)
| Raise (exception : string).

Arguments Ok {A} a.
Arguments Raise {A} exception.

Definition bind {A B : Type} (m : result A) (k : A -> result B) : result B :=
  match m with
  | Ok a => k a
  | Raise e => Raise e
  end.

Notation "x <- m ;; k" := (bind m (fun x => k))
  (at level 61, m at next level, right associativity).

(** [l[i]] on a Python list *)
Definition getitem {A : Type} (l : list A) (i : nat) : result A :=
  match nth_error l i with
  | Some a => Ok a
  | None => Raise "IndexError"
  end.

(** [l[i] = a]; the notebook only stores where it has just read. *)
Fixpoint setitem {A : Type} (l : list A) (i : nat) (a : A) : list A :=
  match l, i with
  | [], _ => []
  | _ :: t, O => a :: t
  | x :: t, S j => x :: setitem t j a
  end.

(** [for i in items: body], threading the state the body mutates. *)
Fixpoint for_in {I S : Type} (items : list I) (body : I -> S -> result S)
  (s : S) : result S :=
  match items with
  | [] => Ok s
  | i :: rest => s' <- body i s ;; for_in rest body s'
  end.

Definition range (n : nat) : list nat := seq 0 n.

(** ** Numbers *)

Inductive num : Type :=
| Fin (q : Q)
| PInf
| NInf
| NaN.

Definition Qltb (a b : Q) : bool := negb (Qle_bool b a).

(** Round half to even to a whole number: numpy's [rint]. *)
Definition rint (q : Q) : Z :=
  let f := Qfloor q in
  match (q - inject_Z f ?= 1 # 2)%Q with
  | Lt => f
  | Gt => (f + 1)%Z
  | Eq => if Z.even f then f else (f + 1)%Z
  end.

(** IEEE 754 binary64 arithmetic on the rationals the floats stand for. *)
Module Float64.

(** the binade of a positive rational: [2^ilog2 q <= q < 2^(ilog2 q + 1)] *)
Definition ilog2 (q : Q) : Z :=
  let L := (Z.log2 (Qnum q) - Z.log2 (Zpos (Qden q)))%Z in
  if Qle_bool (2 ^ L) q then L else (L - 1)%Z.

(** the distance between the float64 next to [x]: 53 significant bits *)
Definition quantum (x : Q) : Q := 2 ^ (ilog2 (Qabs x) - 52).

(** the float64 nearest to [x], ties to the even significand *)
Definition nearest (x : Q) : Q :=
  if Qeq_bool x 0 then 0
  else let x := Qred x in Qred (inject_Z (rint (x / quantum x)) * quantum x).

Definition mul (a b : Q) : Q := nearest (nearest a * nearest b).

Definition div (a b : Q) : Q := nearest (nearest a / nearest b).

Definition add (a b : Q) : Q := nearest (nearest a + nearest b).

End Float64.

(** [round(q, 3)] as numpy computes it: [rint(q * 1000) / 1000].  The
    thousandth [k # 1000] stands for the float64 the last division gives. *)
Definition round3 (q : Q) : Q := rint (Float64.mul q 1000) # 1000.

Module Num.

Definition of_Z (z : Z) : num := Fin (inject_Z z).

(** the infinity of a sign, nan for no sign *)
Definition inf_of_sign (c : comparison) : num :=
  match c with
  | Gt => PInf
  | Lt => NInf
  | Eq => NaN
  end.

(** float64 division of finite values: x/0 is inf, -inf or nan *)
Definition div (a b : Q) : num :=
  if Qeq_bool b 0 then inf_of_sign (a ?= 0) else Fin (Float64.div a b).

Definition mul (a b : num) : num :=
  match a, b with
  | NaN, _ | _, NaN => NaN
  | Fin x, Fin y => Fin (Float64.mul x y)
  | Fin x, PInf | PInf, Fin x => inf_of_sign (x ?= 0)
  | Fin x, NInf | NInf, Fin x => inf_of_sign (0 ?= x)
  | PInf, PInf | NInf, NInf => PInf
  | PInf, NInf | NInf, PInf => NInf
  end.

Definition add (a b : num) : num :=
  match a, b with
  | NaN, _ | _, NaN => NaN
  | Fin x, Fin y => Fin (Float64.add x y)
  | PInf, NInf | NInf, PInf => NaN
  | PInf, _ | _, PInf => PInf
  | NInf, _ | _, NInf => NInf
  end.

(** [round(x, 3)] on a float64 *)
Definition round (a : num) : num :=
  match a with
  | Fin q => Fin (round3 q)
  | other => other
  end.

Definition is_nan (a : num) : bool :=
  match a with
  | NaN => true
  | _ => false
  end.

(** [Series.sum()] of a float64 column: missing values are skipped, the
    others are added one by one from 0, in the order of the rows.  numpy
    adds the numbers of a long column in another order; where the column
    holds thousandths, as [normalized_Peak] does, the order does not show
    in the rounded sum ([round3_float_sum]). *)
Definition sum (l : list num) : num :=
  fold_left add (filter (fun a => negb (is_nan a)) l) (Fin 0).

End Num.

(** [Height.sum()]: the exact sum of the column *)
Definition Qsum (l : list Q) : Q := fold_left Qplus l 0.

(** ** Data model *)

(** One line of a sample key: path, region name, modal height, modal size
    (columns 0 to 3 of [sample_df]). *)
Record RegionDescriptor : Type := mkRegion {
  source_path : string;
  region_name : string;
  modal_height : Q;
  modal_size : Q
}.

(** One line of a GeneMapper peak table as [pd.read_csv] returns it: the
    five columns the notebook keeps and whatever else the export holds. *)
Record RawRow : Type := mkRaw {
  Sample_File_Name : string;
  raw_Size : Q;
  raw_Height : Q;
  raw_Area : Q;
  raw_Data_Point : Q;
  other_columns : list (string * string)
}.

(** What [pd.read_csv] returns at a path: a table with the five columns
    the notebook keeps, or a table that lacks one of them. *)
Inductive Table : Type :=
| peak_table (lines : list RawRow)
| other_table.

Inductive column : Type :=
| normalized_Height
| change_from_main
| normalized_Peak.

Record Row : Type := mkRow {
  label : Z;
  Sample_Name : string;
  Size : Q;
  Height : Q;
  Area : Q;
  Data_Point : Q;
  cell_normalized_Height : num;
  cell_change_from_main : num;
  cell_normalized_Peak : num
}.

Record DataFrame : Type := mkFrame {
  rows : list Row;
  has_normalized_Height : bool;
  has_change_from_main : bool;
  has_normalized_Peak : bool
}.

Module Frame.

Definition cell (c : column) (r : Row) : num :=
  match c with
  | normalized_Height => cell_normalized_Height r
  | change_from_main => cell_change_from_main r
  | normalized_Peak => cell_normalized_Peak r
  end.

Definition with_cell (c : column) (v : num) (r : Row) : Row :=
  match c with
  | normalized_Height =>
      mkRow (label r) (Sample_Name r) (Size r) (Height r) (Area r)
        (Data_Point r) v (cell_change_from_main r) (cell_normalized_Peak r)
  | change_from_main =>
      mkRow (label r) (Sample_Name r) (Size r) (Height r) (Area r)
        (Data_Point r) (cell_normalized_Height r) v (cell_normalized_Peak r)
  | normalized_Peak =>
      mkRow (label r) (Sample_Name r) (Size r) (Height r) (Area r)
        (Data_Point r) (cell_normalized_Height r) (cell_change_from_main r) v
  end.

Definition has_column (c : column) (df : DataFrame) : bool :=
  match c with
  | normalized_Height => has_normalized_Height df
  | change_from_main => has_change_from_main df
  | normalized_Peak => has_normalized_Peak df
  end.

(** the frame with rows [l] and column [c] present *)
Definition with_column (c : column) (l : list Row) (df : DataFrame)
  : DataFrame :=
  match c with
  | normalized_Height =>
      mkFrame l true (has_change_from_main df) (has_normalized_Peak df)
  | change_from_main =>
      mkFrame l (has_normalized_Height df) true (has_normalized_Peak df)
  | normalized_Peak =>
      mkFrame l (has_normalized_Height df) (has_change_from_main df) true
  end.

(** [df.index] *)
Definition index (df : DataFrame) : list Z := map label (rows df).

(** [df[c] = series], the series computed row by row from [df] itself *)
Definition assign (c : column) (f : Row -> num) (df : DataFrame)
  : DataFrame :=
  with_column c (map (fun r => with_cell c (f r) r) (rows df)) df.

(** [df.at[ii, c] = v]: a column that does not exist yet is created,
    filled with nan, and then the cell is stored. *)
Definition at_set (c : column) (ii : Z) (v : num) (df : DataFrame)
  : DataFrame :=
  let filled :=
    if has_column c df then rows df else map (with_cell c NaN) (rows df) in
  with_column c
    (map (fun r => if (label r =? ii)%Z then with_cell c v r else r) filled)
    df.

(** the row [df.loc[ii]] *)
Definition loc (ii : Z) (df : DataFrame) : result Row :=
  match find (fun r => (label r =? ii)%Z) (rows df) with
  | Some r => Ok r
  | None => Raise "KeyError"
  end.

(** [df.at[ii, c]] *)
Definition at_get (c : column) (ii : Z) (df : DataFrame) : result num :=
  if has_column c df then r <- loc ii df ;; Ok (cell c r)
  else Raise "KeyError".

(** [df.c], attribute access to a derived column *)
Definition getattr (c : column) (df : DataFrame) : result (list num) :=
  if has_column c df then Ok (map (cell c) (rows df))
  else Raise "AttributeError".

(** the row of the first largest height *)
Fixpoint first_max (best : Row) (l : list Row) : Row :=
  match l with
  | [] => best
  | r :: t => first_max (if Qltb (Height best) (Height r) then r else best) t
  end.

(** [df.Height.idxmax()] *)
Definition idxmax (df : DataFrame) : result Z :=
  match rows df with
  | [] => Raise "ValueError"
  | r :: t => Ok (label (first_max r t))
  end.

(** [df[df['Height'] == h].index.values.astype(int)[0]] *)
Definition first_index_with_height (h : Q) (df : DataFrame) : result Z :=
  match filter (fun r => Qeq_bool (Height r) h) (rows df) with
  | [] => Raise "IndexError"
  | r :: _ => Ok (label r)
  end.

End Frame.

(** ** [extract_files] *)

(** [df[['Sample File Name','Size','Height','Area','Data Point']]] with the
    columns renamed; [read_csv] numbers the lines from 0. *)
Definition project (i : nat) (raw : RawRow) : Row :=
  mkRow (Z.of_nat i) (Sample_File_Name raw) (raw_Size raw) (raw_Height raw)
    (raw_Area raw) (raw_Data_Point raw) NaN NaN NaN.

Fixpoint project_from (i : nat) (table : list RawRow) : list Row :=
  match table with
  | [] => []
  | raw :: rest => project i raw :: project_from (S i) rest
  end.

(** [df['Sample_Name'] = name] *)
Definition set_Sample_Name (name : string) (r : Row) : Row :=
  mkRow (label r) name (Size r) (Height r) (Area r) (Data_Point r)
    (cell_normalized_Height r) (cell_change_from_main r)
    (cell_normalized_Peak r).

(** [df[['Sample File Name','Size','Height','Area','Data Point']]]: a
    column that is not there is a KeyError. *)
Definition five_columns (table : Table) : result (list RawRow) :=
  match table with
  | peak_table lines => Ok lines
  | other_table => Raise "KeyError"
  end.

Section Extraction.

(** The files on disk: what [pd.read_csv(path, delimiter='\t')] returns at
    each path, or the exception it raises there (FileNotFoundError,
    EmptyDataError, ParserError, ...). *)
Variable files : string -> result Table.

Definition read_csv (path : string) : result Table := files path.

(** [file_list] and [sampleID_list] are columns 0 and 1 of the sample key.
    The frame is appended as read and then replaced, at [df_list[item]], by
    its five renamed columns; here it is appended already projected, and
    nothing is appended when the projection fails. *)
Definition extract_files (sample_df : list RegionDescriptor)
  : result (list DataFrame) :=
  let file_list := map source_path sample_df in
  let sampleID_list := map region_name sample_df in
  for_in (range (List.length file_list))
    (fun item df_list =>
       path <- getitem file_list item ;;
       table <- read_csv path ;;
       lines <- five_columns table ;;
       let df_list :=
         df_list ++ [mkFrame (project_from 0 lines) false false false] in
       df <- getitem df_list item ;;
       name <- getitem sampleID_list item ;;
       Ok (setitem df_list item
             (mkFrame (map (set_Sample_Name name) (rows df))
                (has_normalized_Height df) (has_change_from_main df)
                (has_normalized_Peak df))))
    [].

End Extraction.

(** ** [exp_peak_subset] *)

(** The boolean mask of one row:
    [(Height >= relative_threshold) & (Height <= modal_height) & (Size > modal_size)].
    The threshold is a computed float64, and the height is compared with it
    as a float64. *)
Definition is_expansion_peak (relative_threshold modal_height modal_size : Q)
  (r : Row) : bool :=
  Qle_bool relative_threshold (Float64.nearest (Height r))
  && Qle_bool (Height r) modal_height
  && Qltb modal_size (Size r).

(** [df[mask]]: the rows keep their labels and their order. *)
Definition select (mask : Row -> bool) (df : DataFrame) : DataFrame :=
  mkFrame (filter mask (rows df)) (has_normalized_Height df)
    (has_change_from_main df) (has_normalized_Peak df).

(** [modal_height] and [modal_size] are columns 2 and 3 of the sample key;
    [modal_height[item]*0.01] is a float64 product. *)
Definition exp_peak_subset (sample_df : list RegionDescriptor)
  (extracted_files : list DataFrame) : result (list DataFrame * list Q) :=
  let modal_height := map modal_height sample_df in
  let modal_size := map modal_size sample_df in
  st <- for_in (range (List.length modal_height))
    (fun item '(relative_threshold, sample_subset) =>
       mh <- getitem modal_height item ;;
       let relative_threshold := relative_threshold ++ [Float64.mul mh 0.01] in
       df <- getitem extracted_files item ;;
       thr <- getitem relative_threshold item ;;
       mh <- getitem modal_height item ;;
       ms <- getitem modal_size item ;;
       Ok (relative_threshold,
           sample_subset ++ [select (is_expansion_peak thr mh ms) df]))
    ([], []) ;;
  Ok (snd st, modal_height).

(** ** [calc_instability_index] *)

(** The frames of [peak_subset_list] are changed in place by the notebook;
    here the list is threaded through the four loops of the function, one
    definition per loop.  The frames of one list are distinct objects
    ([exp_peak_subset] builds each one). *)

(** First loop: [height_sum] and the column [normalized_Height]. *)
Definition sum_of_heights (peak_subset_list : list DataFrame)
  (modal_height : list Q) : result (list DataFrame * list Q) :=
  for_in (range (List.length peak_subset_list))
    (fun item '(peak_subset_list, height_sum) =>
       df <- getitem peak_subset_list item ;;
       mh <- getitem modal_height item ;;
       let height_sum := height_sum ++ [Qsum (map Height (rows df)) + mh] in
       df <- getitem peak_subset_list item ;;
       total <- getitem height_sum item ;;
       Ok (setitem peak_subset_list item
             (Frame.assign normalized_Height
                (fun r => Num.round (Num.div (Height r) total)) df),
           height_sum))
    (peak_subset_list, []).

(** The value stored by one pass of the second loop over the rows. *)
Definition change_from_main_value (ii : Z) (df : DataFrame) : result num :=
  maxHeightIndex <- Frame.idxmax df ;;
  row <- Frame.loc ii df ;;
  let currentHeight := Height row in
  currentIndex <- Frame.first_index_with_height currentHeight df ;;
  Ok (Num.of_Z (currentIndex - maxHeightIndex + 1)).

Definition change_from_main_step (ii : Z) (df : DataFrame)
  : result DataFrame :=
  v <- change_from_main_value ii df ;;
  Ok (Frame.at_set change_from_main ii v df).

(** Second loop: the column [change_from_main]. *)
Definition create_change_from_main (peak_subset_list : list DataFrame)
  : result (list DataFrame) :=
  for_in (range (List.length peak_subset_list))
    (fun item peak_subset_list =>
       df <- getitem peak_subset_list item ;;
       df <- for_in (Frame.index df) change_from_main_step df ;;
       Ok (setitem peak_subset_list item df))
    peak_subset_list.

(** The value stored by one pass of the third loop over the rows. *)
Definition normalized_peak_value (ii : Z) (df : DataFrame) : result num :=
  nh <- Frame.at_get normalized_Height ii df ;;
  cfm <- Frame.at_get change_from_main ii df ;;
  Ok (Num.round (Num.mul nh cfm)).

Definition normalized_peak_step (ii : Z) (df : DataFrame)
  : result DataFrame :=
  v <- normalized_peak_value ii df ;;
  Ok (Frame.at_set normalized_Peak ii v df).

(** Third loop: the column [normalized_Peak]
    (normalized peak = normalized height * change from main). *)
Definition create_normalized_peak (peak_subset_list : list DataFrame)
  : result (list DataFrame) :=
  for_in (range (List.length peak_subset_list))
    (fun item peak_subset_list =>
       df <- getitem peak_subset_list item ;;
       df <- for_in (Frame.index df) normalized_peak_step df ;;
       Ok (setitem peak_subset_list item df))
    peak_subset_list.

(** Fourth loop: one index per frame. *)
Definition instability_indices (peak_subset_list : list DataFrame)
  : result (list num) :=
  for_in (range (List.length peak_subset_list))
    (fun item instability_index =>
       df <- getitem peak_subset_list item ;;
       peaks <- Frame.getattr normalized_Peak df ;;
       let instabilityValue := Num.round (Num.sum peaks) in
       Ok (instability_index ++ [instabilityValue]))
    [].

Definition calc_instability_index (peak_subset_list : list DataFrame)
  (modal_height : list Q) : result (list DataFrame * list num) :=
  st <- sum_of_heights peak_subset_list modal_height ;;
  let peak_subset_list := fst st in
  peak_subset_list <- create_change_from_main peak_subset_list ;;
  peak_subset_list <- create_normalized_peak peak_subset_list ;;
  instability_index <- instability_indices peak_subset_list ;;
  Ok (peak_subset_list, instability_index).

(** The whole notebook cell: extract, select, calculate. *)
Definition pipeline (files : string -> result Table)
  (sample_df : list RegionDescriptor) : result (list DataFrame * list num) :=
  samples <- extract_files files sample_df ;;
  sel <- exp_peak_subset sample_df samples ;;
  calc_instability_index (fst sel) (snd sel).

(** ** Inputs used in the examples *)

(** a subset in which no peak was selected *)
Definition empty_subset : DataFrame := mkFrame [] false false false.

Definition peak (l : Z) (size height : Q) : Row :=
  mkRow l "HTT" size height 1 1 NaN NaN NaN.

(** a subset with a gap in its labels and with tied heights *)
Definition tied_subset : DataFrame :=
  mkFrame [peak 3 185 7; peak 5 190 9; peak 6 195 7; peak 8 200 9]
    false false false.

(** peaks of height zero, selected when the modal height is zero *)
Definition zero_subset : DataFrame :=
  mkFrame [peak 0 185 0; peak 1 190 0] false false false.

(** the region of the scenario: modal height 1000, modal size 180, three
    peaks *)
Definition scenario_table : list RawRow :=
  [mkRaw "run.fsa" 185 50 0 0 [];
   mkRaw "run.fsa" 190 20 0 0 [];
   mkRaw "run.fsa" 195 5 0 0 []].

Definition scenario_files (path : string) : result Table :=
  if String.eqb path "peaks.txt" then Ok (peak_table scenario_table)
  else Raise "FileNotFoundError".

(** the files of the scenario and a file that is no peak table *)
Definition mixed_files (path : string) : result Table :=
  if String.eqb path "notes.txt" then Ok other_table else scenario_files path.

Definition scenario_key : list RegionDescriptor :=
  [mkRegion "peaks.txt" "HTT" 1000 180].

(** the three peaks of the scenario, had the selector kept them all *)
Definition scenario_unselected : DataFrame :=
  mkFrame [peak 0 185 50; peak 1 190 20; peak 2 195 5] false false false.

(** what the calculator returns on [tied_subset] with modal height 100 *)
Definition tied_annotated : list DataFrame * list num :=
  Eval vm_compute in
    match calc_instability_index [tied_subset] [100] with
    | Ok returned => returned
    | Raise _ => ([], [])
    end.


(** [tied_subset] as a run with modal height 50 leaves it *)
Definition tied_stale : list DataFrame :=
  Eval vm_compute in
    match calc_instability_index [tied_subset] [50] with
    | Ok returned => fst returned
    | Raise _ => []
    end.

(** * Vocabulary of the statements and of the proofs *)

(** [f] on every element in turn, stopping at the first exception *)
Fixpoint traverse {A B : Type} (f : A -> result B) (l : list A)
  : result (list B) :=
  match l with
  | [] => Ok []
  | a :: t => b <- f a ;; r <- traverse f t ;; Ok (b :: r)
  end.

(** [r'] is [r] up to the cell of column [c] *)
Definition same_outside (c : column) (r r' : Row) : Prop :=
  r' = Frame.with_cell c (Frame.cell c r') r.

(** [S] is [df] up to column [c] *)
Definition agree (c : column) (df S : DataFrame) : Prop :=
  Forall2 (same_outside c) (rows df) (rows S)
  /\ forall c', c' <> c -> Frame.has_column c' S = Frame.has_column c' df.

Definition at_each (c : column) (w : Row -> num) (df : DataFrame) : DataFrame :=
  match rows df with
  | [] => df
  | _ :: _ => Frame.assign c w df
  end.

(** One pass of a row loop that stores [val ii df] at [df.at[ii, c]]. *)
Definition store_each (c : column) (val : Z -> DataFrame -> result num)
  (ii : Z) (S : DataFrame) : result DataFrame :=
  v <- val ii S ;; Ok (Frame.at_set c ii v S).

(** A row once the column [c] exists: a new column starts as nan. *)
Definition filled (c : column) (df : DataFrame) (r : Row) : Row :=
  if Frame.has_column c df then r else Frame.with_cell c NaN r.

(** A row once its cell of column [c] is stored. *)
Definition stored (c : column) (w : Row -> num) (r : Row) : Row :=
  Frame.with_cell c (w r) r.

(** The weight the second loop stores in the row [r] of [df]. *)
Definition weight (df : DataFrame) (r : Row) : num :=
  match change_from_main_value (label r) df with
  | Ok v => v
  | Raise _ => NaN
  end.

(** The product the third loop stores in the row [r]. *)
Definition weighted (r : Row) : num :=
  Num.round (Num.mul (cell_normalized_Height r) (cell_change_from_main r)).

Fixpoint zip_with {A B C : Type} (f : A -> B -> C) (l : list A) (l' : list B)
  : list C :=
  match l, l' with
  | a :: t, b :: t' => f a b :: zip_with f t t'
  | _, _ => []
  end.

(** What the first loop appends to [height_sum] for one frame. *)
Definition total_signal_mass (df : DataFrame) (mh : Q) : Q :=
  Qsum (map Height (rows df)) + mh.

(** One frame after the first loop. *)
Definition normalized (df : DataFrame) (mh : Q) : DataFrame :=
  Frame.assign normalized_Height
    (fun r => Num.round (Num.div (Height r) (total_signal_mass df mh))) df.

(** One frame after the third loop. *)
Definition annotate (df : DataFrame) (mh : Q) : DataFrame :=
  let df := normalized df mh in
  let df := at_each change_from_main (weight df) df in
  at_each normalized_Peak weighted df.

(** The value the fourth loop appends for one frame. *)
Definition instability_value (df : DataFrame) : result num :=
  peaks <- Frame.getattr normalized_Peak df ;;
  Ok (Num.round (Num.sum peaks)).

Definition unique_index (df : DataFrame) : Prop := NoDup (Frame.index df).

(** One row after the three row-wise steps. *)
Definition annotate_row (df : DataFrame) (mh : Q) (r : Row) : Row :=
  let nh := Num.round (Num.div (Height r) (total_signal_mass df mh)) in
  let cfm := weight df r in
  mkRow (label r) (Sample_Name r) (Size r) (Height r) (Area r) (Data_Point r)
    nh cfm (Num.round (Num.mul nh cfm)).

(** A frame on which the fourth loop finds the column it sums. *)
Definition summable (df : DataFrame) : Prop :=
  rows df <> [] \/ has_normalized_Peak df = true.

Definition index_of (df : DataFrame) : num :=
  Num.round (Num.sum (map cell_normalized_Peak (rows df))).

(** the unit roundoff of float64: half the distance from 1 to the next
    float64 *)
Definition unit_roundoff : Q := 1 # 9007199254740992.

(** the float64 written [0.01] *)
Definition one_percent : Q := 5764607523034235 # 576460752303423488.

(** [v] is a float64 sum of the numbers of [l]: the additions made in any
    order and in any grouping *)
Inductive float_sum : list Q -> Q -> Prop :=
| float_sum_one (x : Q) : float_sum [x] (Float64.nearest x)
| float_sum_add (l1 l2 : list Q) (v1 v2 : Q) :
    float_sum l1 v1 -> float_sum l2 v2 ->
    float_sum (l1 ++ l2) (Float64.add v1 v2)
| float_sum_perm (l l' : list Q) (v : Q) :
    Permutation l l' -> float_sum l v -> float_sum l' v.

(** [rmax] is the first row of [l] with the largest height. *)
Definition first_maximum (l : list Row) (rmax : Row) : Prop :=
  exists before after,
    l = before ++ rmax :: after
    /\ (forall x, In x before -> Height x < Height rmax)
    /\ (forall x, In x after -> Height x <= Height rmax).

(** [rcur] is the first row of [l] whose height equals [h]. *)
Definition first_with_height (l : list Row) (h : Q) (rcur : Row) : Prop :=
  exists before after,
    l = before ++ rcur :: after
    /\ Height rcur == h
    /\ (forall x, In x before -> ~ Height x == h).

(** What [extract_files] appends for one line of the sample key. *)
Definition extract_one (files : string -> result Table)
  (d : RegionDescriptor) : result DataFrame :=
  table <- read_csv files (source_path d) ;;
  lines <- five_columns table ;;
  Ok (mkFrame (map (set_Sample_Name (region_name d)) (project_from 0 lines))
        false false false).

(** What [exp_peak_subset] appends for one line of the sample key. *)
Definition select_one (d : RegionDescriptor) (df : DataFrame) : DataFrame :=
  select
    (is_expansion_peak (Float64.mul (modal_height d) 0.01) (modal_height d)
       (modal_size d))
    df.



(** [r'] has the label and the height of [r] *)
Definition same_peak (r r' : Row) : Prop :=
  label r' = label r /\ Height r' = Height r.

Definition nonempty (df : DataFrame) : bool :=
  match rows df with
  | [] => false
  | _ :: _ => true
  end.

(** the three derived cells of two rows are the same *)
Definition same_annotation (r r' : Row) : Prop :=
  cell_normalized_Height r' = cell_normalized_Height r
  /\ cell_change_from_main r' = cell_change_from_main r
  /\ cell_normalized_Peak r' = cell_normalized_Peak r.

(** [tied_subset] with other sizes, areas and data points, another sample
    name, and cells left by an earlier run *)
Definition tied_subset_other_fields : DataFrame :=
  mkFrame
    [mkRow 3 "DRPLA" 201 7 40 1200 (Fin 1) NaN NaN;
     mkRow 5 "DRPLA" 204 9 55 1230 (Fin 1) NaN NaN;
     mkRow 6 "DRPLA" 207 7 38 1260 (Fin 1) NaN NaN;
     mkRow 8 "DRPLA" 210 9 51 1290 (Fin 1) NaN NaN]
    true false false.

(** the labels of a frame grow from row to row *)
Definition increasing_index (df : DataFrame) : Prop :=
  StronglySorted Z.lt (Frame.index df).

(** a line of the table passes the three comparisons of the selector *)
Definition has_expansion_peak (d : RegionDescriptor) (table : list RawRow)
  : Prop :=
  exists raw,
    In raw table
    /\ Float64.mul (modal_height d) 0.01 <= Float64.nearest (raw_Height raw)
    /\ raw_Height raw <= modal_height d
    /\ modal_size d < raw_Size raw.

(** the peak table read for a line of the key, empty when there is none *)
Definition table_of (files : string -> result Table)
  (d : RegionDescriptor) : list RawRow :=
  match files (source_path d) with
  | Ok (peak_table lines) => lines
  | _ => []
  end.

(** the frame [extract_files] builds for a line of the key *)
Definition extracted_frame (files : string -> result Table)
  (d : RegionDescriptor) : DataFrame :=
  mkFrame (map (set_Sample_Name (region_name d))
             (project_from 0 (table_of files d)))
    false false false.

(** the annotated subset of a line of the key *)
Definition region_frame (files : string -> result Table)
  (d : RegionDescriptor) : DataFrame :=
  annotate (select_one d (extracted_frame files d)) (modal_height d).

(** a count of the instrument: a whole number from 0, below [bound] *)
Definition count_below (bound : Z) (q : Q) : Prop :=
  exists z : Z, q = inject_Z z /\ (0 <= z < bound)%Z.

(** a subset of at most 4096 peaks whose heights, like the modal height of
    its region, are counts below 2^40 *)
Definition counted (df : DataFrame) (m : Q) : Prop :=
  Forall (fun r => count_below (2 ^ 40) (Height r)) (rows df)
  /\ count_below (2 ^ 40) m
  /\ (List.length (rows df) <= 4096)%nat.

(** a counted subset of a region with a positive modal height, its labels
    being positions in a table of at most 4096 lines *)
Definition ordinary (df : DataFrame) (m : Q) : Prop :=
  counted df m /\ 0 < m
  /\ Forall (fun r => (0 <= label r < 4096)%Z) (rows df).

(** the peak a row holds, without its derived cells *)
Definition frozen (r : Row) : Row :=
  mkRow (label r) (Sample_Name r) (Size r) (Height r) (Area r) (Data_Point r)
    NaN NaN NaN.

(** two frames hold the same peaks; a frame without peaks is its columns *)
Definition same_input (df df' : DataFrame) : Prop :=
  map frozen (rows df') = map frozen (rows df)
  /\ (rows df = [] -> df' = df).

(** * Properties *)

(** ** Lists and loops *)

Lemma getitem_app_here {A : Type} (pre : list A) (a : A) (post : list A) :
  getitem (pre ++ a :: post) (List.length pre) = Ok a.
Proof.
  unfold getitem.
  rewrite nth_error_app2 by lia.
  now rewrite Nat.sub_diag.
Qed.

Lemma setitem_app_here {A : Type} (pre : list A) (a b : A) (post : list A) :
  setitem (pre ++ a :: post) (List.length pre) b = pre ++ b :: post.
Proof.
  induction pre as [|x pre IH]; simpl; [reflexivity|].
  now rewrite IH.
Qed.

Lemma getitem_Ok {A : Type} (l : list A) (i : nat) (a : A) :
  getitem l i = Ok a <-> nth_error l i = Some a.
Proof.
  unfold getitem.
  destruct (nth_error l i); split; intros H; inversion H; reflexivity.
Qed.

Lemma getitem_short {A : Type} (l : list A) (i : nat) :
  (List.length l <= i)%nat -> getitem l i = Raise "IndexError".
Proof.
  intros H. unfold getitem.
  now rewrite (proj2 (nth_error_None l i) H).
Qed.

Lemma app_cons_assoc {A : Type} (pre : list A) (a : A) (post : list A) :
  pre ++ a :: post = (pre ++ [a]) ++ post.
Proof. now rewrite <- app_assoc. Qed.

Lemma length_snoc {A : Type} (pre : list A) (a : A) :
  List.length (pre ++ [a]) = S (List.length pre).
Proof. rewrite length_app. simpl. lia. Qed.

Lemma getitem_app_at {A : Type} (pre : list A) (a : A) (post : list A) (i : nat) :
  List.length pre = i -> getitem (pre ++ a :: post) i = Ok a.
Proof. intros <-. apply getitem_app_here. Qed.

Lemma traverse_Ok {A B : Type} (f : A -> result B) (g : A -> B) (l : list A) :
  (forall a, In a l -> f a = Ok (g a)) -> traverse f l = Ok (map g l).
Proof.
  induction l as [|a l IH]; simpl; intros Hf; [reflexivity|].
  rewrite (Hf a (or_introl eq_refl)). simpl.
  rewrite IH; [reflexivity|]. intros b Hb. apply Hf. now right.
Qed.

Lemma traverse_Raise {A B : Type} (f : A -> result B) (l : list A) (e : string) :
  traverse f l = Raise e -> exists a, In a l /\ f a = Raise e.
Proof.
  induction l as [|a l IH]; simpl; [discriminate|].
  destruct (f a) as [b|e'] eqn:E; simpl.
  - destruct (traverse f l) as [r|e'] eqn:E'; simpl; [discriminate|].
    intros H. inversion H; subst.
    destruct (IH eq_refl) as (x & Hx & Hfx). exists x. split; [now right | assumption].
  - intros H. inversion H; subst. exists a. split; [now left | assumption].
Qed.

(** A loop that rewrites every element of the list it runs over. *)
Lemma for_in_update_each {A : Type} (f : A -> result A) (todo : list A) :
  forall done : list A,
    for_in (seq (List.length done) (List.length todo))
      (fun item s =>
         a <- getitem s item ;; a' <- f a ;; Ok (setitem s item a'))
      (done ++ todo)
    = (r <- traverse f todo ;; Ok (done ++ r)).
Proof.
  induction todo as [|a todo IH]; intros done; simpl.
  - reflexivity.
  - rewrite getitem_app_here. simpl.
    destruct (f a) as [b|e]; simpl; [|reflexivity].
    rewrite setitem_app_here.
    rewrite (app_cons_assoc done b todo).
    rewrite <- (length_snoc done b).
    rewrite IH.
    destruct (traverse f todo) as [r|e]; simpl; [|reflexivity].
    now rewrite <- app_cons_assoc.
Qed.

(** A loop that reads a fixed list and appends one value per element. *)
Lemma for_in_collect {A B : Type} (f : A -> result B) (todo : list A) :
  forall (done : list A) (acc : list B),
    for_in (seq (List.length done) (List.length todo))
      (fun item acc =>
         a <- getitem (done ++ todo) item ;; b <- f a ;; Ok (acc ++ [b]))
      acc
    = (r <- traverse f todo ;; Ok (acc ++ r)).
Proof.
  induction todo as [|a todo IH]; intros done acc; simpl.
  - now rewrite app_nil_r.
  - rewrite getitem_app_here. simpl.
    destruct (f a) as [b|e]; simpl; [|reflexivity].
    rewrite <- (length_snoc done a).
    rewrite (app_cons_assoc done a todo).
    rewrite IH.
    destruct (traverse f todo) as [r|e]; simpl; [|reflexivity].
    now rewrite <- app_cons_assoc.
Qed.

Lemma for_in_update_all {A : Type} (f : A -> result A) (l : list A) :
  for_in (range (List.length l))
    (fun item s => a <- getitem s item ;; a' <- f a ;; Ok (setitem s item a'))
    l
  = traverse f l.
Proof.
  pose proof (for_in_update_each f l []) as H. cbn [List.length app] in H.
  unfold range. rewrite H. now destruct (traverse f l).
Qed.

Lemma for_in_collect_all {A B : Type} (f : A -> result B) (l : list A) :
  for_in (range (List.length l))
    (fun item acc => a <- getitem l item ;; b <- f a ;; Ok (acc ++ [b]))
    []
  = traverse f l.
Proof.
  pose proof (for_in_collect f l [] []) as H. cbn [List.length app] in H.
  unfold range. rewrite H. now destruct (traverse f l).
Qed.

(** ** Cells and columns *)

Lemma label_with_cell c v r : label (Frame.with_cell c v r) = label r.
Proof. now destruct c. Qed.

Lemma Height_with_cell c v r : Height (Frame.with_cell c v r) = Height r.
Proof. now destruct c. Qed.

Lemma cell_with_cell c v r : Frame.cell c (Frame.with_cell c v r) = v.
Proof. now destruct c. Qed.

Lemma cell_with_cell_other c c' v r :
  c' <> c -> Frame.cell c' (Frame.with_cell c v r) = Frame.cell c' r.
Proof. destruct c, c'; intros H; try reflexivity; now elim H. Qed.

Lemma with_cell_twice c u v r :
  Frame.with_cell c v (Frame.with_cell c u r) = Frame.with_cell c v r.
Proof. now destruct c. Qed.

Lemma with_cell_same c r : Frame.with_cell c (Frame.cell c r) r = r.
Proof. now destruct c, r. Qed.

Lemma has_column_with_column c l df :
  Frame.has_column c (Frame.with_column c l df) = true.
Proof. now destruct c. Qed.

Lemma has_column_with_column_other c c' l df :
  c' <> c ->
  Frame.has_column c' (Frame.with_column c l df) = Frame.has_column c' df.
Proof. destruct c, c'; intros H; try reflexivity; now elim H. Qed.

Lemma rows_with_column c l df : rows (Frame.with_column c l df) = l.
Proof. now destruct c. Qed.

Lemma with_column_twice c l l' df :
  Frame.with_column c l (Frame.with_column c l' df) = Frame.with_column c l df.
Proof. now destruct c. Qed.

Lemma with_column_same c df :
  Frame.has_column c df = true -> Frame.with_column c (rows df) df = df.
Proof. destruct c, df; simpl; intros ->; reflexivity. Qed.

Lemma same_outside_refl c r : same_outside c r r.
Proof. unfold same_outside. now rewrite with_cell_same. Qed.

Lemma same_outside_with_cell c v r : same_outside c r (Frame.with_cell c v r).
Proof. unfold same_outside. now rewrite cell_with_cell. Qed.

Lemma same_outside_label {c r r'} : same_outside c r r' -> label r' = label r.
Proof. intros ->. apply label_with_cell. Qed.

Lemma same_outside_Height {c r r'} : same_outside c r r' -> Height r' = Height r.
Proof. intros ->. apply Height_with_cell. Qed.

Lemma same_outside_cell c c' r r' :
  c' <> c -> same_outside c r r' -> Frame.cell c' r' = Frame.cell c' r.
Proof. intros Hc ->. now apply cell_with_cell_other. Qed.

Lemma Forall2_same_outside_refl c l : Forall2 (same_outside c) l l.
Proof. induction l; constructor; auto using same_outside_refl. Qed.

Lemma agree_refl c df : agree c df df.
Proof. split; [apply Forall2_same_outside_refl | reflexivity]. Qed.

Lemma map_unless_label (F : Row -> Row) (ii : Z) (l : list Row) :
  ~ In ii (map label l) ->
  map (fun r => if (label r =? ii)%Z then F r else r) l = l.
Proof.
  induction l as [|x l IH]; simpl; intros H; [reflexivity|].
  destruct (Z.eqb_spec (label x) ii) as [E|E].
  - elim H. now left.
  - rewrite IH; [reflexivity|]. intros Hin. apply H. now right.
Qed.

(** ** The row loops: one [at] store per label *)

Section AtLoop.

Variable c : column.
Variable val : Z -> DataFrame -> result num.
Variable w : Row -> num.
Variable df : DataFrame.

Hypothesis unique_labels : NoDup (Frame.index df).
Hypothesis val_outside :
  forall S r, agree c df S -> In r (rows df) -> val (label r) S = Ok (w r).

Lemma label_fill r : label (filled c df r) = label r.
Proof. unfold filled. destruct (Frame.has_column c df); auto using label_with_cell. Qed.

Lemma same_outside_fill r : same_outside c r (filled c df r).
Proof.
  unfold filled. destruct (Frame.has_column c df);
    auto using same_outside_refl, same_outside_with_cell.
Qed.

Lemma setw_fill r : Frame.with_cell c (w r) (filled c df r) = stored c w r.
Proof.
  unfold filled, stored. destruct (Frame.has_column c df);
    auto using with_cell_twice.
Qed.

Lemma agree_partial done todo :
  rows df = done ++ todo ->
  agree c df (Frame.with_column c (map (stored c w) done ++ map (filled c df) todo) df).
Proof.
  intros E. split.
  - rewrite rows_with_column, E. apply Forall2_app.
    + clear E. induction done; simpl; constructor; auto.
      apply same_outside_with_cell.
    + clear E. induction todo; simpl; constructor; auto.
      apply same_outside_fill.
  - intros c' Hc. now apply has_column_with_column_other.
Qed.

Lemma at_loop_from todo : forall done,
  rows df = done ++ todo ->
  for_in (map label todo) (store_each c val)
    (Frame.with_column c (map (stored c w) done ++ map (filled c df) todo) df)
  = Ok (Frame.with_column c (map (stored c w) (done ++ todo)) df).
Proof.
  induction todo as [|r todo IH]; intros done E; simpl.
  - now rewrite !app_nil_r.
  - assert (Hin : In r (rows df)).
    { rewrite E. apply in_or_app. right. now left. }
    pose proof (@val_outside _ r (agree_partial done (r :: todo) E) Hin) as Hv.
    simpl in Hv. unfold store_each at 1. rewrite Hv.
    simpl. unfold Frame.at_set.
    rewrite has_column_with_column, rows_with_column, with_column_twice.
    assert (Hnd : NoDup (map label done ++ label r :: map label todo)).
    { unfold Frame.index in unique_labels.
      now rewrite E, map_app in unique_labels. }
    rewrite map_app. simpl.
    rewrite (map_unless_label _ (label r) (map (stored c w) done)).
    2:{ rewrite map_map.
        rewrite (map_ext _ label) by (intros; apply label_with_cell).
        intros Hl. apply NoDup_remove_2 in Hnd. apply Hnd.
        apply in_or_app. now left. }
    rewrite (map_unless_label _ (label r) (map (filled c df) todo)).
    2:{ rewrite map_map.
        rewrite (map_ext _ label) by (intros; apply label_fill).
        intros Hl. apply NoDup_remove_2 in Hnd. apply Hnd.
        apply in_or_app. now right. }
    rewrite label_fill, Z.eqb_refl, setw_fill.
    rewrite (app_cons_assoc done r todo).
    rewrite (app_cons_assoc (map (stored c w) done) (stored c w r) (map (filled c df) todo)).
    change (map (stored c w) done ++ [stored c w r])
      with (map (stored c w) done ++ map (stored c w) [r]).
    rewrite <- map_app.
    apply IH. now rewrite <- app_cons_assoc.
Qed.

Lemma at_set_created ii v :
  Frame.at_set c ii v df
  = Frame.at_set c ii v (Frame.with_column c (map (filled c df) (rows df)) df).
Proof.
  unfold Frame.at_set.
  rewrite has_column_with_column, rows_with_column, with_column_twice.
  f_equal. f_equal. unfold filled.
  destruct (Frame.has_column c df); [now rewrite map_id | reflexivity].
Qed.

Lemma at_loop : for_in (Frame.index df) (store_each c val) df = Ok (at_each c w df).
Proof.
  unfold at_each, Frame.index, Frame.assign.
  assert (Hcase : rows df = [] \/ exists r t, rows df = r :: t).
  { destruct (rows df) as [|r t]; [now left | right; now exists r, t]. }
  destruct Hcase as [E | (r & t & E)]; rewrite E; [reflexivity|].
  pose proof (at_loop_from (r :: t) [] E) as H.
  etransitivity; [|exact H].
  simpl. unfold store_each at 1 3.
  assert (Hin : In r (rows df)) by (rewrite E; now left).
  pose proof (@val_outside _ r (agree_partial [] (r :: t) E) Hin) as Hv.
  simpl in Hv. rewrite Hv.
  rewrite (@val_outside _ r (agree_refl c df) Hin).
  simpl. rewrite at_set_created, E. reflexivity.
Qed.

End AtLoop.

(** ** What the row loops read *)

Lemma find_label_unique (ii : Z) (l : list Row) (r : Row) :
  NoDup (map label l) -> In r l -> label r = ii ->
  find (fun x => (label x =? ii)%Z) l = Some r.
Proof.
  induction l as [|x l IH]; simpl; intros Hnd Hin Hl; [contradiction|].
  inversion Hnd as [|? ? Hx Hnd']; subst.
  destruct Hin as [-> | Hin].
  - now rewrite Z.eqb_refl.
  - destruct (Z.eqb_spec (label x) (label r)) as [E|E].
    + elim Hx. rewrite E. now apply in_map.
    + now apply IH.
Qed.

Lemma find_label_outside {c} (ii : Z) {l l' : list Row} {r : Row} :
  Forall2 (same_outside c) l l' ->
  find (fun x => (label x =? ii)%Z) l = Some r ->
  exists r', find (fun x => (label x =? ii)%Z) l' = Some r'
             /\ same_outside c r r'.
Proof.
  induction 1 as [|x x' l l' Hx Hl IH]; simpl; intros Hf; [discriminate|].
  rewrite (same_outside_label Hx).
  destruct (label x =? ii)%Z.
  - inversion Hf; subst. now exists x'.
  - now apply IH.
Qed.

Lemma first_max_outside c (l l' : list Row) :
  Forall2 (same_outside c) l l' ->
  forall b b', same_outside c b b' ->
    same_outside c (Frame.first_max b l) (Frame.first_max b' l').
Proof.
  induction 1 as [|x x' l l' Hx Hl IH]; simpl; intros b b' Hb; [assumption|].
  apply IH.
  rewrite (same_outside_Height Hb), (same_outside_Height Hx).
  now destruct (Qltb (Height b) (Height x)).
Qed.

Lemma idxmax_outside {c df S} : agree c df S -> Frame.idxmax S = Frame.idxmax df.
Proof.
  intros [H _]. unfold Frame.idxmax.
  destruct H as [|x x' l l' Hx Hl]; [reflexivity|].
  f_equal. eapply same_outside_label, first_max_outside; eassumption.
Qed.

Lemma first_index_outside {c} h {df S} :
  agree c df S ->
  Frame.first_index_with_height h S = Frame.first_index_with_height h df.
Proof.
  intros [H _]. unfold Frame.first_index_with_height.
  induction H as [|x x' l l' Hx Hl IH]; simpl; [reflexivity|].
  rewrite (same_outside_Height Hx).
  destruct (Qeq_bool (Height x) h); [|exact IH].
  now rewrite (same_outside_label Hx).
Qed.

Lemma loc_unique {df r} :
  NoDup (Frame.index df) -> In r (rows df) -> Frame.loc (label r) df = Ok r.
Proof.
  intros Hnd Hin. unfold Frame.loc.
  now rewrite (find_label_unique (label r) (rows df) r Hnd Hin eq_refl).
Qed.

Lemma loc_outside {c df S r} :
  agree c df S -> NoDup (Frame.index df) -> In r (rows df) ->
  exists r', Frame.loc (label r) S = Ok r' /\ same_outside c r r'.
Proof.
  intros [H _] Hnd Hin. unfold Frame.loc.
  destruct (find_label_outside (label r) H
              (find_label_unique (label r) (rows df) r Hnd Hin eq_refl))
    as (r' & -> & Hr').
  now exists r'.
Qed.

Lemma first_index_of_member df r :
  In r (rows df) ->
  exists first, Frame.first_index_with_height (Height r) df = Ok first.
Proof.
  intros Hin. unfold Frame.first_index_with_height.
  destruct (filter _ (rows df)) as [|x l] eqn:E.
  - assert (Hf : In r (filter (fun x => Qeq_bool (Height x) (Height r)) (rows df))).
    { apply filter_In. split; [assumption|]. apply Qeq_bool_iff. reflexivity. }
    rewrite E in Hf. contradiction.
  - now exists (label x).
Qed.

Lemma idxmax_of_nonempty df r :
  In r (rows df) -> exists m, Frame.idxmax df = Ok m.
Proof.
  unfold Frame.idxmax. destruct (rows df) as [|x l]; [contradiction|].
  intros _. now eexists.
Qed.

Lemma change_from_main_value_member {df r} :
  NoDup (Frame.index df) -> In r (rows df) ->
  exists m first,
    Frame.idxmax df = Ok m
    /\ Frame.first_index_with_height (Height r) df = Ok first
    /\ change_from_main_value (label r) df = Ok (Num.of_Z (first - m + 1)).
Proof.
  intros Hnd Hin.
  destruct (idxmax_of_nonempty df r Hin) as (m & Hm).
  destruct (first_index_of_member df r Hin) as (first & Hf).
  exists m, first. repeat split; try assumption.
  unfold change_from_main_value.
  rewrite Hm, (loc_unique Hnd Hin). simpl. now rewrite Hf.
Qed.

Lemma change_from_main_value_outside {c df S r} :
  agree c df S -> NoDup (Frame.index df) -> In r (rows df) ->
  change_from_main_value (label r) S = Ok (weight df r).
Proof.
  intros Ha Hnd Hin. unfold weight.
  destruct (change_from_main_value_member Hnd Hin) as (m & first & Hm & Hf & ->).
  destruct (loc_outside Ha Hnd Hin) as (r' & Hloc & Hr').
  unfold change_from_main_value.
  rewrite (idxmax_outside Ha), Hm, Hloc. simpl.
  rewrite (same_outside_Height Hr'), (first_index_outside _ Ha), Hf.
  reflexivity.
Qed.

Lemma normalized_peak_value_outside df S r :
  has_normalized_Height df = true -> has_change_from_main df = true ->
  agree normalized_Peak df S -> NoDup (Frame.index df) -> In r (rows df) ->
  normalized_peak_value (label r) S = Ok (weighted r).
Proof.
  intros Hnh Hcfm Ha Hnd Hin.
  destruct (loc_outside Ha Hnd Hin) as (r' & Hloc & Hr').
  destruct Ha as [_ Hcols].
  unfold normalized_peak_value, Frame.at_get.
  rewrite (Hcols normalized_Height), (Hcols change_from_main) by discriminate.
  simpl. rewrite Hnh, Hcfm, Hloc. simpl.
  unfold weighted.
  change (cell_normalized_Height r') with (Frame.cell normalized_Height r').
  change (cell_change_from_main r') with (Frame.cell change_from_main r').
  rewrite (@same_outside_cell normalized_Peak normalized_Height r r'),
    (@same_outside_cell normalized_Peak change_from_main r r');
    try assumption; try discriminate.
  reflexivity.
Qed.

(** The second and the third loop on one frame. *)
Lemma change_from_main_loop df :
  NoDup (Frame.index df) ->
  for_in (Frame.index df) change_from_main_step df
  = Ok (at_each change_from_main (weight df) df).
Proof.
  intros Hnd.
  apply (at_loop change_from_main change_from_main_value (weight df) df Hnd).
  intros S r Ha Hin. now apply (change_from_main_value_outside Ha).
Qed.

Lemma normalized_peak_loop df :
  NoDup (Frame.index df) ->
  (rows df <> [] ->
   has_normalized_Height df = true /\ has_change_from_main df = true) ->
  for_in (Frame.index df) normalized_peak_step df
  = Ok (at_each normalized_Peak weighted df).
Proof.
  intros Hnd Hcols.
  apply (at_loop normalized_Peak normalized_peak_value weighted df Hnd).
  intros S r Ha Hin.
  destruct Hcols as [Hnh Hcfm].
  { intros E. rewrite E in Hin. contradiction. }
  now apply (normalized_peak_value_outside df).
Qed.

(** ** The four loops on a list of frames *)

Lemma in_zip_with {A B C : Type} (f : A -> B -> C) l l' c :
  In c (zip_with f l l') -> exists a b, In a l /\ In b l' /\ c = f a b.
Proof.
  revert l'. induction l as [|a l IH]; intros [|b l']; simpl; try contradiction.
  intros [<- | H].
  - exists a, b. auto.
  - destruct (IH l' H) as (x & y & Hx & Hy & ->). exists x, y. auto.
Qed.

Lemma length_zip_with {A B C : Type} (f : A -> B -> C) l l' :
  (List.length l <= List.length l')%nat ->
  List.length (zip_with f l l') = List.length l.
Proof.
  revert l'. induction l as [|a l IH]; intros [|b l']; simpl; intros H;
    try reflexivity; try lia.
  rewrite IH; [reflexivity | lia].
Qed.

Lemma nth_error_zip_with {A B C : Type} (f : A -> B -> C) l l' i a b :
  nth_error l i = Some a -> nth_error l' i = Some b ->
  nth_error (zip_with f l l') i = Some (f a b).
Proof.
  revert l' i. induction l as [|x l IH]; intros [|y l'] [|i]; simpl;
    try discriminate.
  - now intros [= ->] [= ->].
  - apply IH.
Qed.

Lemma sum_of_heights_from (todo : list DataFrame) :
  forall (mh_todo : list Q) (done : list DataFrame) (mh_done hs : list Q),
    List.length mh_done = List.length done ->
    List.length hs = List.length done ->
    (List.length todo <= List.length mh_todo)%nat ->
    for_in (seq (List.length done) (List.length todo))
      (fun item '(peak_subset_list, height_sum) =>
         df <- getitem peak_subset_list item ;;
         mh <- getitem (mh_done ++ mh_todo) item ;;
         let height_sum := height_sum ++ [Qsum (map Height (rows df)) + mh] in
         df <- getitem peak_subset_list item ;;
         total <- getitem height_sum item ;;
         Ok (setitem peak_subset_list item
               (Frame.assign normalized_Height
                  (fun r => Num.round (Num.div (Height r) total)) df),
             height_sum))
      (done ++ todo, hs)
    = Ok (done ++ zip_with normalized todo mh_todo,
          hs ++ zip_with total_signal_mass todo mh_todo).
Proof.
  induction todo as [|df todo IH]; intros mh_todo done mh_done hs Hm Hh Hlen.
  - simpl. now rewrite !app_nil_r.
  - destruct mh_todo as [|m mh_todo]; [simpl in Hlen; lia|].
    cbn [List.length seq for_in zip_with]. cbv beta iota.
    rewrite (getitem_app_here done df todo). cbn [bind].
    rewrite (getitem_app_at mh_done m mh_todo _ Hm). cbn [bind].
    rewrite (getitem_app_at hs _ [] _ Hh). cbn [bind].
    rewrite setitem_app_here.
    fold (total_signal_mass df m). fold (normalized df m).
    rewrite (app_cons_assoc done (normalized df m) todo).
    rewrite (app_cons_assoc mh_done m mh_todo).
    rewrite <- (length_snoc done (normalized df m)).
    rewrite IH.
    + now rewrite <- !app_cons_assoc.
    + rewrite !length_snoc. now f_equal.
    + rewrite !length_snoc. now f_equal.
    + simpl in Hlen. lia.
Qed.

Lemma sum_of_heights_Ok (fs : list DataFrame) (mh : list Q) :
  (List.length fs <= List.length mh)%nat ->
  sum_of_heights fs mh
  = Ok (zip_with normalized fs mh, zip_with total_signal_mass fs mh).
Proof.
  intros Hlen.
  apply (sum_of_heights_from fs mh [] [] [] eq_refl eq_refl Hlen).
Qed.

Lemma for_in_ext {I S : Type} (body body' : I -> S -> result S) (items : list I) :
  (forall i s, body i s = body' i s) ->
  forall s, for_in items body s = for_in items body' s.
Proof.
  intros H. induction items as [|i items IH]; intros s; simpl; [reflexivity|].
  rewrite H. destruct (body' i s); simpl; auto.
Qed.

Lemma map_zip_with {A B C D : Type} (g : C -> D) (f : A -> B -> C) l l' :
  map g (zip_with f l l') = zip_with (fun a b => g (f a b)) l l'.
Proof.
  revert l'. induction l as [|a l IH]; intros [|b l']; simpl; try reflexivity.
  now rewrite IH.
Qed.

Lemma rows_assign c w df :
  rows (Frame.assign c w df) = map (fun r => Frame.with_cell c (w r) r) (rows df).
Proof. apply rows_with_column. Qed.

Lemma rows_at_each c w df :
  rows (at_each c w df) = map (fun r => Frame.with_cell c (w r) r) (rows df).
Proof.
  unfold at_each. destruct (rows df) eqn:E; [now rewrite E|].
  now rewrite rows_assign, E.
Qed.

Lemma index_assign c w df : Frame.index (Frame.assign c w df) = Frame.index df.
Proof.
  unfold Frame.index. rewrite rows_assign, map_map.
  apply map_ext. intros r. apply label_with_cell.
Qed.

Lemma index_at_each c w df : Frame.index (at_each c w df) = Frame.index df.
Proof.
  unfold Frame.index. rewrite rows_at_each, map_map.
  apply map_ext. intros r. apply label_with_cell.
Qed.

Lemma has_column_at_each c w df :
  rows df <> [] -> Frame.has_column c (at_each c w df) = true.
Proof.
  unfold at_each. destruct (rows df); [congruence|].
  intros _. apply has_column_with_column.
Qed.

Lemma has_column_at_each_other c c' w df :
  c' <> c -> Frame.has_column c' (at_each c w df) = Frame.has_column c' df.
Proof.
  intros Hc. unfold at_each. destruct (rows df); [reflexivity|].
  now apply has_column_with_column_other.
Qed.

Lemma at_each_empty c w df : rows df = [] -> at_each c w df = df.
Proof. unfold at_each. now intros ->. Qed.

Lemma create_change_from_main_Ok (l : list DataFrame) :
  Forall unique_index l ->
  create_change_from_main l
  = Ok (map (fun df => at_each change_from_main (weight df) df) l).
Proof.
  intros Hl. unfold create_change_from_main.
  rewrite (for_in_update_all
             (fun df => for_in (Frame.index df) change_from_main_step df) l).
  rewrite (traverse_Ok _ (fun df => at_each change_from_main (weight df) df));
    [reflexivity|].
  intros df Hdf. apply change_from_main_loop.
  rewrite Forall_forall in Hl. now apply Hl.
Qed.

Lemma create_normalized_peak_Ok (l : list DataFrame) :
  Forall unique_index l ->
  Forall (fun df => rows df <> [] ->
            has_normalized_Height df = true /\ has_change_from_main df = true) l ->
  create_normalized_peak l = Ok (map (at_each normalized_Peak weighted) l).
Proof.
  intros Hl Hc. unfold create_normalized_peak.
  rewrite (for_in_update_all
             (fun df => for_in (Frame.index df) normalized_peak_step df) l).
  rewrite (traverse_Ok _ (at_each normalized_Peak weighted)); [reflexivity|].
  intros df Hdf. rewrite Forall_forall in Hl, Hc.
  apply normalized_peak_loop; [now apply Hl | now apply Hc].
Qed.

Lemma instability_indices_eq (l : list DataFrame) :
  instability_indices l = traverse instability_value l.
Proof.
  unfold instability_indices.
  rewrite (for_in_ext _
             (fun item acc =>
                a <- getitem l item ;;
                b <- instability_value a ;; Ok (acc ++ [b]))).
  - apply for_in_collect_all.
  - intros i acc. destruct (getitem l i) as [df|e]; simpl; [|reflexivity].
    unfold instability_value.
    now destruct (Frame.getattr normalized_Peak df).
Qed.

(** The calculator, on frames with unique labels and with a modal height
    for every frame: the three row-wise loops succeed, and only the last
    loop can raise. *)
Theorem calc_instability_index_eq (fs : list DataFrame) (mh : list Q) :
  (List.length fs <= List.length mh)%nat ->
  Forall unique_index fs ->
  calc_instability_index fs mh
  = (instability_index <- traverse instability_value (zip_with annotate fs mh) ;;
     Ok (zip_with annotate fs mh, instability_index)).
Proof.
  intros Hlen Hfs. unfold calc_instability_index.
  rewrite (sum_of_heights_Ok fs mh Hlen). cbn [bind fst].
  rewrite create_change_from_main_Ok.
  2:{ apply Forall_forall. intros d Hd.
      apply in_zip_with in Hd. destruct Hd as (df & m & Hdf & _ & ->).
      unfold unique_index, normalized. rewrite index_assign.
      rewrite Forall_forall in Hfs. now apply Hfs. }
  cbn [bind]. rewrite map_zip_with.
  rewrite create_normalized_peak_Ok.
  - cbn [bind]. rewrite map_zip_with, instability_indices_eq. reflexivity.
  - apply Forall_forall. intros d Hd.
    apply in_zip_with in Hd. destruct Hd as (df & m & Hdf & _ & ->).
    unfold unique_index. rewrite index_at_each. unfold normalized.
    rewrite index_assign. rewrite Forall_forall in Hfs. now apply Hfs.
  - apply Forall_forall. intros d Hd.
    apply in_zip_with in Hd. destruct Hd as (df & m & Hdf & _ & ->).
    rewrite rows_at_each. intros Hne. split.
    + change (Frame.has_column normalized_Height
                (at_each change_from_main (weight (normalized df m)) (normalized df m))
              = true).
      rewrite has_column_at_each_other by discriminate.
      apply has_column_with_column.
    + apply (has_column_at_each change_from_main).
      intros E. apply Hne. now rewrite E.
Qed.

(** ** The annotated rows *)

Lemma agree_normalized df mh : agree normalized_Height df (normalized df mh).
Proof.
  split.
  - unfold normalized. rewrite rows_assign.
    generalize (total_signal_mass df mh). intros T.
    induction (rows df); cbn [map]; constructor; auto.
    apply (same_outside_with_cell normalized_Height).
  - intros c' Hc. unfold normalized, Frame.assign.
    now apply has_column_with_column_other.
Qed.

Lemma weight_normalized df mh r v :
  unique_index df -> In r (rows df) ->
  weight (normalized df mh) (Frame.with_cell normalized_Height v r) = weight df r.
Proof.
  intros Hnd Hin. unfold weight at 1. rewrite label_with_cell.
  now rewrite (change_from_main_value_outside (agree_normalized df mh) Hnd Hin).
Qed.

Lemma rows_annotate df mh :
  unique_index df ->
  rows (annotate df mh) = map (annotate_row df mh) (rows df).
Proof.
  intros Hnd. unfold annotate.
  rewrite !rows_at_each. unfold normalized at 2. rewrite rows_assign, !map_map.
  apply map_ext_in. intros r Hin.
  rewrite (weight_normalized df mh r _ Hnd Hin).
  now destruct r.
Qed.

Lemma has_normalized_Peak_annotate df mh :
  summable df -> has_normalized_Peak (annotate df mh) = true.
Proof.
  intros [Hne | Hcol]; unfold annotate.
  - apply (has_column_at_each normalized_Peak).
    rewrite rows_at_each. unfold normalized. rewrite rows_assign.
    intros E. apply Hne.
    destruct (rows df); [reflexivity | discriminate].
  - destruct (rows df) as [|r l] eqn:E.
    + assert (E1 : rows (normalized df mh) = []).
      { unfold normalized. now rewrite rows_assign, E. }
      rewrite (at_each_empty change_from_main _ _ E1).
      rewrite (at_each_empty normalized_Peak _ _ E1).
      exact Hcol.
    + apply (has_column_at_each normalized_Peak).
      rewrite rows_at_each. unfold normalized. rewrite rows_assign, E.
      discriminate.
Qed.

Lemma instability_value_annotate df mh :
  summable df ->
  instability_value (annotate df mh) = Ok (index_of (annotate df mh)).
Proof.
  intros H. unfold instability_value, Frame.getattr. simpl.
  now rewrite (has_normalized_Peak_annotate df mh H).
Qed.

Lemma in_zip_with_l {A B C : Type} (f : A -> B -> C) l l' c :
  In c (zip_with f l l') -> exists a b, In a l /\ c = f a b.
Proof.
  intros H. destruct (in_zip_with f l l' c H) as (a & b & Ha & _ & E).
  now exists a, b.
Qed.

(** The calculator on a list of frames that can all be summed. *)
Theorem calc_instability_index_Ok (fs : list DataFrame) (mh : list Q) :
  (List.length fs <= List.length mh)%nat ->
  Forall unique_index fs ->
  Forall summable fs ->
  calc_instability_index fs mh
  = Ok (zip_with annotate fs mh,
        zip_with (fun df m => index_of (annotate df m)) fs mh).
Proof.
  intros Hlen Hnd Hs.
  rewrite (calc_instability_index_eq fs mh Hlen Hnd).
  rewrite (traverse_Ok _ index_of).
  - cbn [bind]. now rewrite map_zip_with.
  - intros d Hd. apply in_zip_with_l in Hd. destruct Hd as (df & m & Hdf & ->).
    apply instability_value_annotate.
    rewrite Forall_forall in Hs. now apply Hs.
Qed.

(** ** The first maximum and the first equal height *)

Lemma Qltb_lt (a b : Q) : Qltb a b = true <-> a < b.
Proof.
  unfold Qltb. rewrite negb_true_iff. split; intros H.
  - apply Qnot_le_lt. intros Hle. apply Qle_bool_iff in Hle. congruence.
  - destruct (Qle_bool b a) eqn:E; [|reflexivity].
    apply Qle_bool_iff in E. elim (Qlt_not_le _ _ H E).
Qed.

Lemma Qltb_ge (a b : Q) : Qltb a b = false <-> b <= a.
Proof.
  unfold Qltb. rewrite negb_false_iff. apply Qle_bool_iff.
Qed.

Lemma first_max_spec (l : list Row) :
  forall (before : list Row) (b : Row) (mid : list Row),
    (forall x, In x before -> Height x < Height b) ->
    (forall x, In x mid -> Height x <= Height b) ->
    exists before' after',
      before ++ b :: mid ++ l = before' ++ Frame.first_max b l :: after'
      /\ (forall x, In x before' -> Height x < Height (Frame.first_max b l))
      /\ (forall x, In x after' -> Height x <= Height (Frame.first_max b l)).
Proof.
  induction l as [|x l IH]; intros before b mid Hb Hm; simpl.
  - exists before, mid. now rewrite app_nil_r.
  - destruct (Qltb (Height b) (Height x)) eqn:E.
    + apply Qltb_lt in E.
      destruct (IH (before ++ b :: mid) x []) as (p & q & Heq & Hp & Hq).
      * intros y Hy. apply in_app_or in Hy. destruct Hy as [Hy | [<- | Hy]].
        -- eapply Qlt_trans; [now apply Hb | exact E].
        -- exact E.
        -- eapply Qle_lt_trans; [now apply Hm | exact E].
      * intros y [].
      * exists p, q. split; [|now split].
        rewrite <- Heq. simpl. now rewrite <- app_assoc.
    + apply Qltb_ge in E.
      destruct (IH before b (mid ++ [x])) as (p & q & Heq & Hp & Hq).
      * exact Hb.
      * intros y Hy. apply in_app_or in Hy. destruct Hy as [Hy | [<- | []]].
        -- now apply Hm.
        -- exact E.
      * exists p, q. split; [|now split].
        rewrite <- Heq. now rewrite <- app_assoc.
Qed.

Lemma idxmax_spec (df : DataFrame) :
  rows df <> [] ->
  exists rmax, Frame.idxmax df = Ok (label rmax) /\ first_maximum (rows df) rmax.
Proof.
  unfold Frame.idxmax. destruct (rows df) as [|b l]; [congruence|]. intros _.
  exists (Frame.first_max b l). split; [reflexivity|].
  destruct (first_max_spec l [] b []) as (p & q & Heq & Hp & Hq);
    try (intros y []).
  exists p, q. auto.
Qed.

Lemma filter_first {A : Type} (p : A -> bool) (l : list A) (x : A) (t : list A) :
  filter p l = x :: t ->
  exists before after,
    l = before ++ x :: after /\ p x = true
    /\ (forall y, In y before -> p y = false).
Proof.
  induction l as [|a l IH]; simpl; [discriminate|].
  destruct (p a) eqn:E.
  - intros [= -> <-]. exists [], l. repeat split; [assumption | intros y []].
  - intros H. destruct (IH H) as (before & after & -> & Hx & Hb).
    exists (a :: before), after. repeat split; [assumption|].
    intros y [<- | Hy]; auto.
Qed.

Lemma first_index_spec (df : DataFrame) (r : Row) :
  In r (rows df) ->
  exists rcur,
    Frame.first_index_with_height (Height r) df = Ok (label rcur)
    /\ first_with_height (rows df) (Height r) rcur.
Proof.
  intros Hin. unfold Frame.first_index_with_height.
  destruct (filter _ (rows df)) as [|x t] eqn:E.
  - assert (Hf : In r (filter (fun x => Qeq_bool (Height x) (Height r)) (rows df))).
    { apply filter_In. split; [assumption|]. apply Qeq_bool_iff. reflexivity. }
    rewrite E in Hf. contradiction.
  - exists x. split; [reflexivity|].
    destruct (filter_first _ _ _ _ E) as (before & after & Hl & Hx & Hb).
    exists before, after. repeat split; try assumption.
    + now apply Qeq_bool_iff.
    + intros y Hy Heq. apply Qeq_bool_iff in Heq.
      rewrite (Hb y Hy) in Heq. discriminate.
Qed.

Lemma weight_spec (df : DataFrame) (r : Row) :
  unique_index df -> In r (rows df) ->
  exists rmax rcur,
    first_maximum (rows df) rmax
    /\ first_with_height (rows df) (Height r) rcur
    /\ Frame.idxmax df = Ok (label rmax)
    /\ Frame.first_index_with_height (Height r) df = Ok (label rcur)
    /\ weight df r = Num.of_Z (label rcur - label rmax + 1).
Proof.
  intros Hnd Hin.
  destruct (idxmax_spec df) as (rmax & Hm & Hmax).
  { intros E. rewrite E in Hin. contradiction. }
  destruct (first_index_spec df r Hin) as (rcur & Hf & Hcur).
  exists rmax, rcur. repeat split; try assumption.
  unfold weight.
  destruct (change_from_main_value_member Hnd Hin) as (m & first & Hm' & Hf' & ->).
  rewrite Hm in Hm'. rewrite Hf in Hf'.
  inversion Hm'. inversion Hf'. reflexivity.
Qed.

Lemma Forall2_map_r {A B : Type} (P : A -> B -> Prop) (f : A -> B) (l : list A) :
  (forall a, In a l -> P a (f a)) -> Forall2 P l (map f l).
Proof.
  induction l as [|a l IH]; simpl; intros H; constructor.
  - apply H. now left.
  - apply IH. intros b Hb. apply H. now right.
Qed.

Lemma nth_error_modal {A : Type} (fs : list A) (mh : list Q) (i : nat) (a : A) :
  (List.length fs <= List.length mh)%nat ->
  nth_error fs i = Some a -> exists m, nth_error mh i = Some m.
Proof.
  intros Hlen Ha.
  assert (Hi : (i < List.length fs)%nat) by (apply nth_error_Some; congruence).
  destruct (nth_error mh i) as [m|] eqn:E; [now exists m|].
  apply nth_error_None in E. lia.
Qed.

Lemma nth_error_annotate (fs : list DataFrame) (mh : list Q) (i : nat)
  (df : DataFrame) :
  (List.length fs <= List.length mh)%nat ->
  nth_error fs i = Some df ->
  exists m,
    nth_error mh i = Some m
    /\ nth_error (zip_with annotate fs mh) i = Some (annotate df m)
    /\ nth_error (zip_with (fun df m => index_of (annotate df m)) fs mh) i
       = Some (index_of (annotate df m)).
Proof.
  intros Hlen Hdf.
  destruct (nth_error_modal fs mh i df Hlen Hdf) as (m & Hm).
  exists m. repeat split; try assumption.
  - now apply nth_error_zip_with.
  - now apply (nth_error_zip_with (fun df m => index_of (annotate df m))).
Qed.

Lemma unique_index_nth (fs : list DataFrame) (i : nat) (df : DataFrame) :
  Forall unique_index fs -> nth_error fs i = Some df -> unique_index df.
Proof.
  intros H Hdf. rewrite Forall_forall in H. apply H.
  eapply nth_error_In; eassumption.
Qed.

(** ** Rounding to a whole number *)

Lemma rint_comp (q q' : Q) : q == q' -> rint q = rint q'.
Proof.
  intros H. unfold rint.
  rewrite (Qfloor_comp q q' H).
  assert (E : q - inject_Z (Qfloor q') == q' - inject_Z (Qfloor q'))
    by now rewrite H.
  now rewrite (Qcompare_comp _ _ E (1 # 2) (1 # 2) (Qeq_refl _)).
Qed.

Lemma rint_near (q : Q) :
  inject_Z (rint q) - q <= 1 # 2 /\ q - inject_Z (rint q) <= 1 # 2.
Proof.
  pose proof (Qfloor_le q) as Hlo. pose proof (Qlt_floor q) as Hhi.
  rewrite inject_Z_plus in Hhi. change (inject_Z 1) with 1 in Hhi.
  unfold rint.
  destruct (q - inject_Z (Qfloor q) ?= 1 # 2) eqn:E.
  - apply Qeq_alt in E.
    destruct (Z.even (Qfloor q)).
    + split; lra.
    + rewrite inject_Z_plus. change (inject_Z 1) with 1. split; lra.
  - apply Qlt_alt in E. split; lra.
  - apply Qgt_alt in E. rewrite inject_Z_plus. change (inject_Z 1) with 1.
    split; lra.
Qed.

Lemma rint_unique (q : Q) (k : Z) :
  inject_Z k - (1 # 2) < q -> q < inject_Z k + (1 # 2) -> rint q = k.
Proof.
  intros Hlo Hhi. destruct (rint_near q) as [H1 H2].
  assert (A : (rint q < k + 1)%Z).
  { rewrite Zlt_Qlt, inject_Z_plus. change (inject_Z 1) with 1. lra. }
  assert (B : (k < rint q + 1)%Z).
  { rewrite Zlt_Qlt, inject_Z_plus. change (inject_Z 1) with 1. lra. }
  lia.
Qed.

Lemma rint_inject_Z (k : Z) : rint (inject_Z k) = k.
Proof. apply rint_unique; lra. Qed.





(** ** Rounding to the nearest float64 *)

Lemma div_lt_div (n d A B : Q) : 0 < d -> 0 < B -> n * B < A * d -> n / d < A / B.
Proof.
  intros Hd HB H.
  apply Qlt_shift_div_r; [assumption|].
  setoid_replace (A / B * d) with (A * d / B) by (field; lra).
  apply Qlt_shift_div_l; assumption.
Qed.

Lemma div_le_div (n d A B : Q) : 0 < d -> 0 < B -> A * d <= n * B -> A / B <= n / d.
Proof.
  intros Hd HB H.
  apply Qle_shift_div_l; [assumption|].
  setoid_replace (A / B * d) with (A * d / B) by (field; lra).
  apply Qle_shift_div_r; assumption.
Qed.

Lemma pow2_pos (e : Z) : 0 < 2 ^ e.
Proof. apply Qpower_0_lt. reflexivity. Qed.

Lemma pow2_plus (a b : Z) : 2 ^ (a + b) == 2 ^ a * 2 ^ b.
Proof. apply Qpower_plus. discriminate. Qed.

Lemma pow2_succ (e : Z) : 2 ^ (e + 1) == 2 * 2 ^ e.
Proof. rewrite pow2_plus. change (2 ^ 1) with 2. ring. Qed.

Lemma pow2_Z (a : Z) : (0 <= a)%Z -> inject_Z (2 ^ a) == 2 ^ a.
Proof. intros H. now rewrite Zpower_Qpower. Qed.

Lemma pow2_le (a b : Z) : (a <= b)%Z -> 2 ^ a <= 2 ^ b.
Proof. intros H. apply Qpower_le_compat_l; [assumption | discriminate]. Qed.

Lemma pow2_lt_inv (a b : Z) : 2 ^ a < 2 ^ b -> (a < b)%Z.
Proof. intros H. apply (Qpower_lt_compat_l_inv 2); [assumption | reflexivity]. Qed.

(** a positive rational lies in exactly one binade *)

Lemma binade_unique (x : Q) (a b : Z) :
  2 ^ a <= x -> x < 2 ^ (a + 1) -> 2 ^ b <= x -> x < 2 ^ (b + 1) -> a = b.
Proof.
  intros Ha Ha' Hb Hb'.
  assert (H1 : (a < b + 1)%Z) by (apply pow2_lt_inv; lra).
  assert (H2 : (b < a + 1)%Z) by (apply pow2_lt_inv; lra).
  lia.
Qed.

Lemma ilog2_spec (q : Q) :
  0 < q -> 2 ^ Float64.ilog2 q <= q /\ q < 2 ^ (Float64.ilog2 q + 1).
Proof.
  intros Hq. unfold Float64.ilog2.
  destruct q as [n d]. cbn [Qnum Qden].
  assert (Hn : (0 < n)%Z) by (unfold Qlt in Hq; simpl in Hq; lia).
  set (a := Z.log2 n). set (b := Z.log2 (Z.pos d)).
  assert (Ha0 : (0 <= a)%Z) by apply Z.log2_nonneg.
  assert (Hb0 : (0 <= b)%Z) by apply Z.log2_nonneg.
  destruct (Z.log2_spec n Hn) as [Ha Ha'].
  destruct (Z.log2_spec (Z.pos d) (Pos2Z.is_pos d)) as [Hb Hb'].
  fold a in Ha, Ha'. fold b in Hb, Hb'.
  rewrite Zle_Qle in Ha, Hb. rewrite Zlt_Qlt in Ha', Hb'.
  rewrite pow2_Z in Ha, Hb by assumption.
  rewrite pow2_Z in Ha', Hb' by lia.
  unfold Z.succ in Ha', Hb'.
  pose proof (pow2_pos a) as Pa. pose proof (pow2_pos b) as Pb.
  pose proof (pow2_pos (a + 1)) as Pa'. pose proof (pow2_pos (b + 1)) as Pb'.
  assert (Hd : 0 < inject_Z (Z.pos d)) by reflexivity.
  assert (Eq : n # d == inject_Z n / inject_Z (Z.pos d)) by apply Qmake_Qdiv.
  assert (Hup : n # d < 2 ^ (a - b + 1)).
  { rewrite Eq. replace (a - b + 1)%Z with (a + 1 - b)%Z by lia.
    rewrite Qpower_minus by discriminate.
    apply div_lt_div; try assumption. nra. }
  assert (Hlo : 2 ^ (a - b - 1) <= n # d).
  { rewrite Eq. replace (a - b - 1)%Z with (a - (b + 1))%Z by lia.
    rewrite Qpower_minus by discriminate.
    apply div_le_div; try assumption. nra. }
  destruct (Qle_bool (2 ^ (a - b)) (n # d)) eqn:E.
  - apply Qle_bool_iff in E. split; assumption.
  - replace (a - b - 1 + 1)%Z with (a - b)%Z by lia. split; [assumption|].
    apply Qnot_le_lt. intros H. apply Qle_bool_iff in H. congruence.
Qed.

(** an integer closer than one half is the rounded value *)

Lemma unit_roundoff_eq : unit_roundoff == / 2 ^ 53.
Proof. reflexivity. Qed.

Lemma nearest_spec (x : Q) :
  ~ x == 0 ->
  exists e : Z,
    2 ^ (e + 52) <= Qabs x /\ Qabs x < 2 ^ (e + 53)
    /\ Float64.nearest x == inject_Z (rint (x / 2 ^ e)) * 2 ^ e.
Proof.
  intros Hx. unfold Float64.nearest.
  destruct (Qeq_bool x 0) eqn:E; [apply Qeq_bool_iff in E; contradiction|].
  cbv zeta. unfold Float64.quantum.
  set (L := Float64.ilog2 (Qabs (Qred x))).
  exists (L - 52)%Z.
  assert (Hpos : 0 < Qabs (Qred x)).
  { rewrite (Qred_correct x). apply Qabs_case; intros H.
    - apply Qle_lteq in H. destruct H as [H | H]; [assumption|].
      elim Hx. now symmetry.
    - apply Qle_lteq in H. destruct H as [H | H]; [lra|]. contradiction. }
  destruct (ilog2_spec _ Hpos) as [Hlo Hhi]. fold L in Hlo, Hhi.
  rewrite (Qred_correct x) in Hlo, Hhi.
  replace (L - 52 + 52)%Z with L by lia.
  replace (L - 52 + 53)%Z with (L + 1)%Z by lia.
  split; [assumption|]. split; [assumption|].
  rewrite Qred_correct.
  rewrite (rint_comp (Qred x / 2 ^ (L - 52)) (x / 2 ^ (L - 52)));
    [reflexivity|].
  now rewrite Qred_correct.
Qed.

Lemma nearest_comp (x y : Q) : x == y -> Float64.nearest x = Float64.nearest y.
Proof.
  intros H. unfold Float64.nearest.
  assert (E : Qeq_bool x 0 = Qeq_bool y 0).
  { destruct (Qeq_bool x 0) eqn:Ex, (Qeq_bool y 0) eqn:Ey; try reflexivity.
    - apply Qeq_bool_iff in Ex. rewrite H in Ex. apply Qeq_bool_iff in Ex. congruence.
    - apply Qeq_bool_iff in Ey. rewrite <- H in Ey. apply Qeq_bool_iff in Ey. congruence. }
  rewrite E. now rewrite (Qred_complete x y H).
Qed.

Lemma nearest_0 : Float64.nearest 0 = 0.
Proof. reflexivity. Qed.

(** rounding to nearest moves a number by at most its unit roundoff *)

Lemma nearest_error (x : Q) :
  Qabs (Float64.nearest x - x) <= Qabs x * unit_roundoff.
Proof.
  destruct (Qeq_dec x 0) as [Hx | Hx].
  - rewrite (nearest_comp x 0 Hx), nearest_0, Hx. discriminate.
  - destruct (nearest_spec x Hx) as (e & Hlo & _ & ->).
    pose proof (pow2_pos e) as Pe.
    set (s := x / 2 ^ e).
    assert (Es : x == s * 2 ^ e) by (unfold s; field; lra).
    destruct (rint_near s) as [H1 H2].
    assert (E52 : 2 ^ (e + 52) == 2 ^ e * 2 ^ 52) by apply pow2_plus.
    rewrite E52 in Hlo.
    apply Qabs_Qle_condition.
    change (2 ^ 52) with 4503599627370496 in Hlo.
    unfold unit_roundoff.
    split; nra.
Qed.

Lemma nearest_bounds (x B : Q) :
  Qabs x <= B ->
  x - B * unit_roundoff <= Float64.nearest x
  /\ Float64.nearest x <= x + B * unit_roundoff.
Proof.
  intros HB. pose proof (nearest_error x) as H.
  apply Qabs_Qle_condition in H. unfold unit_roundoff in *.
  split; nra.
Qed.

Lemma nearest_nonneg (x : Q) : 0 <= x -> 0 <= Float64.nearest x.
Proof.
  intros H. pose proof (nearest_error x) as E.
  rewrite (Qabs_pos x H) in E. apply Qabs_Qle_condition in E.
  unfold unit_roundoff in E. nra.
Qed.

Lemma nearest_nonpos (x : Q) : x <= 0 -> Float64.nearest x <= 0.
Proof.
  intros H. pose proof (nearest_error x) as E.
  rewrite (Qabs_neg x H) in E. apply Qabs_Qle_condition in E.
  unfold unit_roundoff in E. nra.
Qed.

Lemma nearest_pos (x : Q) : 0 < x -> 0 < Float64.nearest x.
Proof.
  intros H. pose proof (nearest_error x) as E.
  rewrite (Qabs_pos x) in E by lra. apply Qabs_Qle_condition in E.
  unfold unit_roundoff in E. nra.
Qed.

Lemma nearest_neg (x : Q) : x < 0 -> Float64.nearest x < 0.
Proof.
  intros H. pose proof (nearest_error x) as E.
  rewrite (Qabs_neg x) in E by lra. apply Qabs_Qle_condition in E.
  unfold unit_roundoff in E. nra.
Qed.

Lemma pow2_neg (p : Z) : (0 <= p)%Z -> 2 ^ (- p) == / inject_Z (2 ^ p).
Proof. intros H. rewrite Qpower_opp, pow2_Z by assumption. reflexivity. Qed.

(** an integer of fewer than 54 bits is a float64 *)

Lemma nearest_integer (z : Z) :
  (Z.abs z < 2 ^ 53)%Z -> Float64.nearest (inject_Z z) == inject_Z z.
Proof.
  intros Hz. destruct (Z.eq_dec z 0) as [-> | Hnz]; [reflexivity|].
  assert (Hx : ~ inject_Z z == 0).
  { intros H. apply Hnz. unfold Qeq in H. simpl in H. lia. }
  destruct (nearest_spec _ Hx) as (e & Hlo & _ & ->).
  assert (Habs : Qabs (inject_Z z) == inject_Z (Z.abs z)) by reflexivity.
  rewrite Habs in Hlo.
  assert (He : (e <= 0)%Z).
  { assert (H : 2 ^ (e + 52) < 2 ^ 53).
    { apply Qle_lt_trans with (inject_Z (Z.abs z)); [assumption|].
      rewrite <- pow2_Z by lia. now rewrite <- Zlt_Qlt. }
    apply pow2_lt_inv in H. lia. }
  set (p := (- e)%Z).
  assert (Ee : 2 ^ e == / inject_Z (2 ^ p)).
  { replace e with (- p)%Z by (unfold p; lia). apply pow2_neg. unfold p. lia. }
  assert (Pp : 0 < inject_Z (2 ^ p)).
  { rewrite pow2_Z by (unfold p; lia). apply pow2_pos. }
  rewrite (rint_comp (inject_Z z / 2 ^ e) (inject_Z (z * 2 ^ p))).
  - rewrite rint_inject_Z, inject_Z_mult, Ee. field. lra.
  - rewrite inject_Z_mult, Ee. field. lra.
Qed.

(** half-way between two integers the even one is taken *)


(** a number just above an integer of fewer than 54 bits rounds to it *)


Lemma pow2_lt (a b : Z) : (a < b)%Z -> 2 ^ a < 2 ^ b.
Proof. intros H. apply Qpower_lt_compat_l; [assumption | reflexivity]. Qed.

(** a float64 is the float64 nearest to itself *)
Lemma nearest_idempotent (x : Q) :
  Float64.nearest (Float64.nearest x) = Float64.nearest x.
Proof.
  destruct (Qeq_dec x 0) as [Hx | Hx].
  - now rewrite (nearest_comp x 0 Hx), nearest_0.
  - destruct (nearest_spec x Hx) as (e & Hlo & Hhi & Hy).
    pose proof (pow2_pos e) as Pe.
    set (s := x / 2 ^ e) in *.
    set (m := rint s) in *.
    assert (Es : x == s * 2 ^ e) by (unfold s; field; lra).
    assert (E52 : 2 ^ (e + 52) == 2 ^ e * 4503599627370496) by apply pow2_plus.
    assert (E53 : 2 ^ (e + 53) == 2 ^ e * 9007199254740992) by apply pow2_plus.
    rewrite E52 in Hlo. rewrite E53 in Hhi.
    assert (Habs : Qabs x == Qabs s * 2 ^ e).
    { rewrite Es, Qabs_Qmult, (Qabs_pos (2 ^ e)) by lra. reflexivity. }
    rewrite Habs in Hlo, Hhi.
    assert (Hs : 4503599627370496 <= Qabs s /\ Qabs s < 9007199254740992).
    { split; nra. }
    destruct Hs as [Hs1 Hs2].
    destruct (rint_near s) as [R1 R2]. fold m in R1, R2.
    (* the significand has 53 bits, or is 2^53 *)
    assert (Hm : (4503599627370496 <= Z.abs m <= 9007199254740992)%Z).
    { assert (H1 : inject_Z 4503599627370496 - 1 < inject_Z (Z.abs m)
                   /\ inject_Z (Z.abs m) < inject_Z 9007199254740992 + 1).
      { change (inject_Z (Z.abs m)) with (Qabs (inject_Z m)).
        change (inject_Z 4503599627370496) with 4503599627370496.
        change (inject_Z 9007199254740992) with 9007199254740992.
        revert Hs1 Hs2. apply (Qabs_case s); intros Ps Hs1 Hs2;
          apply (Qabs_case (inject_Z m)); intros Pm; split; lra. }
      destruct H1 as [H1 H2].
      change 1 with (inject_Z 1) in H1, H2. unfold Qminus in H1.
      rewrite <- inject_Z_opp, <- inject_Z_plus, <- Zlt_Qlt in H1.
      rewrite <- inject_Z_plus, <- Zlt_Qlt in H2. lia. }
    assert (Hy0 : ~ Float64.nearest x == 0).
    { rewrite Hy. intros H.
      assert (Hm0 : inject_Z m == 0) by nra.
      unfold Qeq in Hm0. simpl in Hm0. lia. }
    destruct (nearest_spec _ Hy0) as (e' & Hlo' & Hhi' & Hy').
    assert (Ered : forall q, Float64.nearest q = Qred (Float64.nearest q)).
    { intros q. unfold Float64.nearest. destruct (Qeq_bool q 0); [reflexivity|].
      cbv zeta. symmetry. apply Qred_complete, Qred_correct. }
    transitivity (Qred (Float64.nearest (Float64.nearest x))); [apply Ered|].
    transitivity (Qred (Float64.nearest x)); [|symmetry; apply Ered].
    apply Qred_complete. rewrite Hy'.
    rewrite (rint_comp (Float64.nearest x / 2 ^ e') (inject_Z m * 2 ^ e / 2 ^ e'))
      by now rewrite Hy.
    rewrite Hy.
    assert (Habsy : Qabs (Float64.nearest x) == inject_Z (Z.abs m) * 2 ^ e).
    { rewrite Hy, Qabs_Qmult, (Qabs_pos (2 ^ e)) by lra. reflexivity. }
    rewrite Habsy in Hlo', Hhi'.
    assert (Bm : inject_Z 4503599627370496 <= inject_Z (Z.abs m)
                 /\ inject_Z (Z.abs m) <= inject_Z 9007199254740992)
      by (rewrite <- !Zle_Qle; lia).
    change (inject_Z 4503599627370496) with 4503599627370496 in Bm.
    change (inject_Z 9007199254740992) with 9007199254740992 in Bm.
    destruct Bm as [Bm1 Bm2].
    destruct (Z.eq_dec (Z.abs m) 9007199254740992) as [Etop | Ntop].
    + (* the significand was rounded up to 2^53 *)
      assert (Ee : (e' + 52 = e + 53)%Z).
      { apply (binade_unique (inject_Z (Z.abs m) * 2 ^ e)); try assumption.
        - now replace (e' + 52 + 1)%Z with (e' + 53)%Z by lia.
        - rewrite E53, Etop. change (inject_Z 9007199254740992) with 9007199254740992.
          lra.
        - replace (e + 53 + 1)%Z with (e + 54)%Z by lia.
          assert (E54 : 2 ^ (e + 54) == 2 ^ e * 18014398509481984) by apply pow2_plus.
          rewrite E54, Etop. change (inject_Z 9007199254740992) with 9007199254740992.
          nra. }
      replace e' with (e + 1)%Z by lia.
      assert (E1 : 2 ^ (e + 1) == 2 * 2 ^ e) by apply pow2_succ.
      pose proof (pow2_pos (e + 1)) as Pe1.
      assert (Em2 : exists m2 : Z, m = (2 * m2)%Z).
      { assert (E : (m = 9007199254740992 \/ m = -9007199254740992)%Z) by lia.
        destruct E as [E | E];
          [exists 4503599627370496%Z | exists (-4503599627370496)%Z]; lia. }
      destruct Em2 as [m2 Em2].
      rewrite (rint_comp (inject_Z m * 2 ^ e / 2 ^ (e + 1)) (inject_Z m2)).
      * rewrite rint_inject_Z, Em2, inject_Z_mult, E1.
        change (inject_Z 2) with 2. ring.
      * rewrite Em2, inject_Z_mult, E1. change (inject_Z 2) with 2. field. lra.
    + assert (Ee : (e' + 52 = e + 52)%Z).
      { apply (binade_unique (inject_Z (Z.abs m) * 2 ^ e)); try assumption.
        - now replace (e' + 52 + 1)%Z with (e' + 53)%Z by lia.
        - rewrite E52. nra.
        - replace (e + 52 + 1)%Z with (e + 53)%Z by lia. rewrite E53.
          assert (Hlt : inject_Z (Z.abs m) < inject_Z 9007199254740992)
            by (rewrite <- Zlt_Qlt; lia).
          change (inject_Z 9007199254740992) with 9007199254740992 in Hlt.
          nra. }
      replace e' with e by lia.
      rewrite (rint_comp (inject_Z m * 2 ^ e / 2 ^ e) (inject_Z m))
        by (field; lra).
      now rewrite rint_inject_Z.
Qed.

(** ** Thousandths *)

(** the quotient of two counts, taken to thousandths *)
Lemma round3_div_counts (h T : Z) :
  (0 <= h < 2 ^ 40)%Z -> (0 < T < 2 ^ 53)%Z -> (h <= T)%Z ->
  exists k : Z,
    round3 (Float64.div (inject_Z h) (inject_Z T)) = k # 1000
    /\ (0 <= k <= 1000)%Z
    /\ (2000 * h - T <= 2 * k * T <= 2000 * h + T)%Z.
Proof.
  intros [Hh0 Hh] [HT0 HT] HhT.
  set (q := inject_Z h / inject_Z T).
  assert (PT : 0 < inject_Z T) by (change 0 with (inject_Z 0); now rewrite <- Zlt_Qlt).
  assert (Ph : 0 <= inject_Z h) by (change 0 with (inject_Z 0); now rewrite <- Zle_Qle).
  assert (Bh : inject_Z h < inject_Z (2 ^ 40)) by now rewrite <- Zlt_Qlt.
  change (inject_Z (2 ^ 40)) with 1099511627776 in Bh.
  assert (HhT' : inject_Z h <= inject_Z T) by now rewrite <- Zle_Qle.
  assert (Hq0 : 0 <= q).
  { unfold q. apply Qle_shift_div_l; [assumption | lra]. }
  assert (Hq1 : q <= 1).
  { unfold q. apply Qle_shift_div_r; [assumption | lra]. }
  assert (HqT : q * inject_Z T == inject_Z h) by (unfold q; field; lra).
  unfold round3, Float64.mul, Float64.div.
  set (a := Float64.nearest (Float64.nearest (inject_Z h) / Float64.nearest (inject_Z T))).
  assert (Ea : a = Float64.nearest q).
  { unfold a. apply nearest_comp.
    rewrite !nearest_integer by lia. reflexivity. }
  set (b := Float64.nearest a).
  set (y := Float64.nearest (b * Float64.nearest 1000)).
  assert (Ey : y = Float64.nearest (b * 1000)).
  { unfold y. apply nearest_comp. reflexivity. }
  destruct (nearest_bounds q q) as [A1 A2]; [rewrite Qabs_pos; lra|].
  rewrite <- Ea in A1, A2.
  assert (Ha0 : 0 <= a) by (rewrite Ea; now apply nearest_nonneg).
  destruct (nearest_bounds a a) as [B1 B2]; [rewrite Qabs_pos; lra|].
  fold b in B1, B2.
  assert (Hb0 : 0 <= b) by now apply nearest_nonneg.
  destruct (nearest_bounds (b * 1000) (b * 1000)) as [Y1 Y2];
    [rewrite Qabs_pos; lra|].
  rewrite <- Ey in Y1, Y2.
  assert (Hy0 : 0 <= y) by (rewrite Ey; apply nearest_nonneg; lra).
  unfold unit_roundoff in *.
  assert (Yhi : y <= 1000 * q + (4000 # 9007199254740992) * q) by lra.
  assert (Ylo : 1000 * q - (4000 # 9007199254740992) * q <= y) by lra.
  exists (rint y). split; [reflexivity|].
  destruct (rint_near y) as [R1 R2].
  set (k := rint y) in *.
  assert (YThi : y * inject_Z T <= 1000 * inject_Z h + (4000 # 9007199254740992) * inject_Z h).
  { rewrite <- HqT. nra. }
  assert (YTlo : 1000 * inject_Z h - (4000 # 9007199254740992) * inject_Z h <= y * inject_Z T).
  { rewrite <- HqT. nra. }
  split; [|split].
  - split.
    + assert (H : -1 < inject_Z k) by lra.
      change (-1) with (inject_Z (-1)) in H. rewrite <- Zlt_Qlt in H. lia.
    + assert (H : inject_Z k < 1001) by lra.
      change 1001 with (inject_Z 1001) in H. rewrite <- Zlt_Qlt in H. lia.
  - assert (H : inject_Z (2000 * h - T) - 1 < inject_Z (2 * k * T)).
    { unfold Zminus. rewrite inject_Z_plus, inject_Z_opp, !inject_Z_mult.
      change (inject_Z 2000) with 2000. change (inject_Z 2) with 2. nra. }
    change 1 with (inject_Z 1) in H. unfold Qminus in H.
    rewrite <- inject_Z_opp, <- inject_Z_plus, <- Zlt_Qlt in H. lia.
  - assert (H : inject_Z (2 * k * T) < inject_Z (2000 * h + T) + 1).
    { rewrite inject_Z_plus, !inject_Z_mult.
      change (inject_Z 2000) with 2000. change (inject_Z 2) with 2. nra. }
    change 1 with (inject_Z 1) in H.
    rewrite <- inject_Z_plus, <- Zlt_Qlt in H. lia.
Qed.

(** a thousandth times a whole number, taken to thousandths, is their product *)
Lemma round3_mul_thousandth (k c : Z) :
  (Z.abs (k * c) <= 2 ^ 40)%Z -> (Z.abs c < 2 ^ 53)%Z ->
  round3 (Float64.mul (k # 1000) (inject_Z c)) = (k * c) # 1000.
Proof.
  intros Hn Hc.
  set (t := inject_Z (k * c) / 1000).
  assert (Bt : Qabs t <= 2147483648).
  { unfold t. unfold Qdiv. rewrite Qabs_Qmult.
    change (Qabs (/ 1000)) with (1 # 1000).
    change (Qabs (inject_Z (k * c))) with (inject_Z (Z.abs (k * c))).
    rewrite Zle_Qle in Hn. change (inject_Z (2 ^ 40)) with 1099511627776 in Hn.
    pose proof (Qabs_nonneg (inject_Z (k * c))) as P.
    change (Qabs (inject_Z (k * c))) with (inject_Z (Z.abs (k * c))) in P.
    lra. }
  unfold round3. f_equal.
  unfold Float64.mul at 2.
  set (x1 := Float64.nearest (k # 1000)).
  set (w := x1 * inject_Z c).
  assert (Ep : Float64.nearest (x1 * Float64.nearest (inject_Z c)) = Float64.nearest w).
  { apply nearest_comp. now rewrite nearest_integer. }
  rewrite Ep. set (p := Float64.nearest w).
  unfold Float64.mul.
  set (p' := Float64.nearest p).
  assert (Ey : Float64.nearest (p' * Float64.nearest 1000) = Float64.nearest (p' * 1000)).
  { apply nearest_comp. reflexivity. }
  rewrite Ey. set (y := Float64.nearest (p' * 1000)).
  assert (Hw : Qabs (w - t) <= Qabs t * unit_roundoff).
  { assert (E : w - t == (x1 - (k # 1000)) * inject_Z c).
    { unfold w, t. rewrite inject_Z_mult, (Qmake_Qdiv k 1000).
      change (inject_Z (Z.pos 1000)) with 1000. field. }
    assert (Et : t == (k # 1000) * inject_Z c).
    { unfold t. rewrite inject_Z_mult, (Qmake_Qdiv k 1000).
      change (inject_Z (Z.pos 1000)) with 1000. field. }
    rewrite E, Et, !Qabs_Qmult.
    rewrite (Qmult_comm (Qabs (k # 1000)) (Qabs (inject_Z c))).
    rewrite <- Qmult_assoc, (Qmult_comm (Qabs (inject_Z c))).
    apply Qmult_le_compat_r; [|apply Qabs_nonneg].
    rewrite Qmult_comm. unfold x1.
    rewrite (Qmult_comm unit_roundoff). apply nearest_error. }
  apply Qabs_Qle_condition in Hw. apply Qabs_Qle_condition in Bt.
  unfold unit_roundoff in Hw.
  pose proof (Qabs_nonneg t) as Pt.
  assert (Bt' : Qabs t <= 2147483648) by (apply Qabs_Qle_condition; exact Bt).
  destruct (nearest_bounds w 4294967296) as [P1 P2];
    [apply Qabs_Qle_condition; split; nra|].
  fold p in P1, P2.
  destruct (nearest_bounds p 4294967296) as [Q1 Q2];
    [apply Qabs_Qle_condition; unfold unit_roundoff in *; split; nra|].
  fold p' in Q1, Q2.
  destruct (nearest_bounds (p' * 1000) 8796093022208) as [Y1 Y2];
    [apply Qabs_Qle_condition; unfold unit_roundoff in *; split; nra|].
  fold y in Y1, Y2.
  assert (E1000 : inject_Z (k * c) == 1000 * t) by (unfold t; field).
  unfold unit_roundoff in *.
  apply rint_unique; rewrite E1000; nra.
Qed.

Lemma filter_not_nan_Fin (l : list Q) :
  filter (fun a => negb (Num.is_nan a)) (map Fin l) = map Fin l.
Proof. induction l as [|q l IH]; simpl; [reflexivity | now rewrite IH]. Qed.

(** the float64 sum of thousandths, added one by one, stays close to their
    exact sum *)
Lemma fold_add_thousandths (l : list Z) :
  forall (acc : Q) (s j : Z),
    (forall n, In n l -> (Z.abs n <= 2 ^ 22)%Z) ->
    (0 <= j)%Z -> (j + Z.of_nat (List.length l) <= 4096)%Z ->
    (Z.abs s <= j * 2 ^ 22)%Z ->
    Qabs (acc - inject_Z s / 1000) <= inject_Z j * (1 # 67108864) ->
    exists S,
      fold_left Num.add (map (fun n => Fin (n # 1000)) l) (Fin acc) = Fin S
      /\ Qabs (S - inject_Z (s + fold_right Z.add 0%Z l) / 1000)
         <= inject_Z (j + Z.of_nat (List.length l)) * (1 # 67108864).
Proof.
  induction l as [|n l IH]; intros acc s j Hl Hj Hlen Hs Hacc.
  - exists acc. split; [reflexivity|]. simpl.
    now rewrite !Z.add_0_r.
  - cbn [map fold_left Num.add].
    assert (Hn : (Z.abs n <= 2 ^ 22)%Z) by (apply Hl; now left).
    cbn [List.length] in Hlen. rewrite Nat2Z.inj_succ in Hlen.
    destruct (IH (Float64.add acc (n # 1000)) (s + n)%Z (j + 1)%Z) as (S & HS & HE).
    + intros x Hx. apply Hl. now right.
    + lia.
    + lia.
    + lia.
    + apply Qabs_Qle_condition in Hacc. destruct Hacc as [Hacc1 Hacc2].
      assert (Bj : inject_Z j <= 4096).
      { change 4096 with (inject_Z 4096). rewrite <- Zle_Qle. lia. }
      assert (Pj : 0 <= inject_Z j).
      { change 0 with (inject_Z 0). rewrite <- Zle_Qle. lia. }
      assert (Bs : - (inject_Z j * 4194304) <= inject_Z s
                   /\ inject_Z s <= inject_Z j * 4194304).
      { change 4194304 with (inject_Z (2 ^ 22)). rewrite <- inject_Z_mult.
        rewrite <- inject_Z_opp, <- !Zle_Qle. lia. }
      assert (Bn : -4194304 <= inject_Z n /\ inject_Z n <= 4194304).
      { change 4194304 with (inject_Z (2 ^ 22)).
        change (-4194304) with (inject_Z (- 2 ^ 22)).
        rewrite <- !Zle_Qle. lia. }
      destruct Bs as [Bs1 Bs2]. destruct Bn as [Bn1 Bn2].
      assert (Ex : 1000 * (n # 1000) == inject_Z n).
      { rewrite (Qmake_Qdiv n 1000). change (inject_Z (Z.pos 1000)) with 1000. field. }
      assert (Es : 1000 * (inject_Z s / 1000) == inject_Z s) by field.
      assert (Esn : 1000 * (inject_Z (s + n) / 1000) == inject_Z s + inject_Z n).
      { rewrite inject_Z_plus. field. }
      set (x := n # 1000) in *. set (ts := inject_Z s / 1000) in *.
      set (tsn := inject_Z (s + n) / 1000) in *.
      unfold Float64.add.
      destruct (nearest_bounds acc 33554432) as [A1 A2];
        [apply Qabs_Qle_condition; split; lra|].
      destruct (nearest_bounds x 8192) as [X1 X2];
        [apply Qabs_Qle_condition; split; lra|].
      destruct (nearest_bounds (Float64.nearest acc + Float64.nearest x) 67108864)
        as [W1 W2];
        [apply Qabs_Qle_condition; unfold unit_roundoff in *; split; lra|].
      apply Qabs_Qle_condition.
      rewrite !inject_Z_plus. change (inject_Z 1) with 1.
      unfold unit_roundoff in *. split; lra.
    + exists S. split; [exact HS|].
      cbn [fold_right List.length]. rewrite Nat2Z.inj_succ.
      replace (s + (n + fold_right Z.add 0%Z l))%Z
        with (s + n + fold_right Z.add 0%Z l)%Z by lia.
      replace (j + Z.succ (Z.of_nat (List.length l)))%Z
        with (j + 1 + Z.of_nat (List.length l))%Z by lia.
      exact HE.
Qed.

Lemma fold_right_add_bound (l : list Z) (b : Z) :
  (forall n, In n l -> (Z.abs n <= b)%Z) ->
  (Z.abs (fold_right Z.add 0%Z l) <= Z.of_nat (List.length l) * b)%Z.
Proof.
  induction l as [|n l IH]; intros H; [simpl; lia|].
  cbn [fold_right List.length]. rewrite Nat2Z.inj_succ.
  assert (Hn : (Z.abs n <= b)%Z) by (apply H; now left).
  assert (Hl : (Z.abs (fold_right Z.add 0%Z l) <= Z.of_nat (List.length l) * b)%Z)
    by (apply IH; intros x Hx; apply H; now right).
  lia.
Qed.

(** a float64 close to a thousandth, taken to thousandths, is that
    thousandth *)
Lemma round3_near_thousandth (S : Q) (K : Z) :
  (Z.abs K <= 17179869184)%Z ->
  Qabs (S - inject_Z K / 1000) <= 1 # 8192 ->
  round3 S = K # 1000.
Proof.
  intros BK HS. unfold round3. f_equal.
  assert (BK' : inject_Z (-17179869184) <= inject_Z K
                /\ inject_Z K <= inject_Z 17179869184)
    by (rewrite <- !Zle_Qle; lia).
  change (inject_Z (-17179869184)) with (-17179869184 # 1) in BK'.
  change (inject_Z 17179869184) with 17179869184 in BK'.
  apply Qabs_Qle_condition in HS. destruct HS as [HS1 HS2].
  destruct BK' as [BK1 BK2].
  assert (EK : 1000 * (inject_Z K / 1000) == inject_Z K) by field.
  set (tK := inject_Z K / 1000) in *.
  unfold Float64.mul.
  destruct (nearest_bounds S 33554432) as [A1 A2];
    [apply Qabs_Qle_condition; split; lra|].
  assert (Ey : Float64.nearest (Float64.nearest S * Float64.nearest 1000)
               = Float64.nearest (Float64.nearest S * 1000)).
  { apply nearest_comp. reflexivity. }
  rewrite Ey.
  destruct (nearest_bounds (Float64.nearest S * 1000) 68719476736) as [Y1 Y2];
    [apply Qabs_Qle_condition; unfold unit_roundoff in *; split; lra|].
  unfold unit_roundoff in *.
  apply rint_unique; lra.
Qed.

(** the sum of at most 4096 thousandths, taken to thousandths, is their
    exact sum *)
Lemma round_sum_thousandths (l : list Z) :
  (forall n, In n l -> (Z.abs n <= 2 ^ 22)%Z) ->
  (List.length l <= 4096)%nat ->
  Num.round (Num.sum (map (fun n => Fin (n # 1000)) l))
  = Fin (fold_right Z.add 0%Z l # 1000).
Proof.
  intros Hl Hlen. unfold Num.sum.
  rewrite <- (map_map (fun n => n # 1000) Fin), filter_not_nan_Fin, map_map.
  destruct (fold_add_thousandths l 0 0%Z 0%Z Hl) as (S & -> & HS); try lia.
  { discriminate. }
  cbn [Num.round]. f_equal.
  rewrite !Z.add_0_l in HS.
  pose proof (fold_right_add_bound l (2 ^ 22) Hl) as BK.
  change (2 ^ 22)%Z with 4194304%Z in BK.
  apply round3_near_thousandth; [lia|].
  eapply Qle_trans; [exact HS|].
  assert (B : inject_Z (Z.of_nat (List.length l)) <= inject_Z 4096)
    by (rewrite <- Zle_Qle; lia).
  change (inject_Z 4096) with 4096 in B.
  set (t := inject_Z (Z.of_nat (List.length l))) in *. lra.
Qed.

(** *** The order of the additions *)

Lemma float_add_0_l (x : Q) : Float64.add 0 x = Float64.nearest x.
Proof.
  unfold Float64.add. rewrite nearest_0.
  rewrite (nearest_comp (0 + Float64.nearest x) (Float64.nearest x))
    by apply Qplus_0_l.
  apply nearest_idempotent.
Qed.

Lemma add_nearest_r (v x : Q) :
  Float64.add v (Float64.nearest x) = Float64.add v x.
Proof. unfold Float64.add. now rewrite nearest_idempotent. Qed.

Lemma add_nearest_l (x v : Q) :
  Float64.add (Float64.nearest x) v = Float64.add x v.
Proof. unfold Float64.add. now rewrite nearest_idempotent. Qed.

Lemma float_sum_two (a b : Q) : float_sum [a; b] (Float64.add a b).
Proof.
  rewrite <- add_nearest_l, <- add_nearest_r.
  apply (float_sum_add [a] [b]); constructor.
Qed.

Lemma float_sum_fold_left (l p : list Q) (v : Q) :
  float_sum p v -> float_sum (p ++ l) (fold_left Float64.add l v).
Proof.
  revert p v. induction l as [|x l IH]; intros p v H; simpl.
  - now rewrite app_nil_r.
  - replace (p ++ x :: l) with ((p ++ [x]) ++ l)
      by (now rewrite <- app_assoc).
    apply IH. rewrite <- add_nearest_r.
    apply float_sum_add; [exact H | constructor].
Qed.

(** adding the numbers one by one from 0, as the model does, is one of the
    orders *)
Lemma float_sum_in_order (x : Q) (l : list Q) :
  float_sum (x :: l) (fold_left Float64.add (x :: l) 0).
Proof.
  cbn [fold_left]. rewrite float_add_0_l.
  apply (float_sum_fold_left l [x]). constructor.
Qed.

Lemma fold_right_add_app (l1 l2 : list Z) :
  fold_right Z.add 0%Z (l1 ++ l2)
  = (fold_right Z.add 0%Z l1 + fold_right Z.add 0%Z l2)%Z.
Proof. induction l1 as [|n l1 IH]; simpl; lia. Qed.

Lemma fold_right_add_perm (l l' : list Z) :
  Permutation l l' -> fold_right Z.add 0%Z l = fold_right Z.add 0%Z l'.
Proof. induction 1; simpl; lia. Qed.

(** a float64 sum of at most 4096 thousandths, in any order, stays close to
    their exact sum *)
Lemma float_sum_thousandths (l : list Q) (v : Q) :
  float_sum l v ->
  forall ns : list Z,
    l = map (fun n => n # 1000) ns ->
    (forall n, In n ns -> (Z.abs n <= 2 ^ 22)%Z) ->
    (List.length ns <= 4096)%nat ->
    Qabs (v - inject_Z (fold_right Z.add 0%Z ns) / 1000)
    <= inject_Z (2 * Z.of_nat (List.length ns) - 1) * (1 # 67108864).
Proof.
  induction 1 as [x | l1 l2 v1 v2 H1 IH1 H2 IH2 | l l' v Hperm H IH];
    intros ns E Hns Hlen.
  - destruct ns as [|n [|n' ns]]; try discriminate.
    injection E as ->. cbn [fold_right List.length].
    rewrite Z.add_0_r. change (inject_Z (2 * Z.of_nat 1 - 1)) with 1.
    assert (Hn : (Z.abs n <= 2 ^ 22)%Z) by (apply Hns; now left).
    assert (Bn : -4194304 <= inject_Z n /\ inject_Z n <= 4194304).
    { change 4194304 with (inject_Z (2 ^ 22)).
      change (-4194304) with (inject_Z (- 2 ^ 22)).
      rewrite <- !Zle_Qle. lia. }
    destruct Bn as [Bn1 Bn2].
    assert (Ex : 1000 * (n # 1000) == inject_Z n).
    { rewrite (Qmake_Qdiv n 1000). change (inject_Z (Z.pos 1000)) with 1000. field. }
    assert (En : 1000 * (inject_Z n / 1000) == inject_Z n) by field.
    set (x := n # 1000) in *. set (t := inject_Z n / 1000) in *.
    destruct (nearest_bounds x 8192) as [X1 X2];
      [apply Qabs_Qle_condition; split; lra|].
    apply Qabs_Qle_condition. unfold unit_roundoff in *. split; lra.
  - symmetry in E. apply map_eq_app in E.
    destruct E as (ns1 & ns2 & -> & E1 & E2).
    rewrite length_app in Hlen.
    assert (Hns1 : forall n, In n ns1 -> (Z.abs n <= 2 ^ 22)%Z)
      by (intros n Hn; apply Hns, in_or_app; now left).
    assert (Hns2 : forall n, In n ns2 -> (Z.abs n <= 2 ^ 22)%Z)
      by (intros n Hn; apply Hns, in_or_app; now right).
    specialize (IH1 ns1 (eq_sym E1) Hns1 ltac:(lia)).
    specialize (IH2 ns2 (eq_sym E2) Hns2 ltac:(lia)).
    pose proof (fold_right_add_bound ns1 (2 ^ 22) Hns1) as B1.
    pose proof (fold_right_add_bound ns2 (2 ^ 22) Hns2) as B2.
    rewrite fold_right_add_app, length_app, Nat2Z.inj_add.
    set (S1 := fold_right Z.add 0%Z ns1) in *.
    set (S2 := fold_right Z.add 0%Z ns2) in *.
    set (t1 := Z.of_nat (List.length ns1)) in *.
    set (t2 := Z.of_nat (List.length ns2)) in *.
    assert (Ht : (0 <= t1 /\ 0 <= t2 /\ t1 + t2 <= 4096)%Z) by (unfold t1, t2; lia).
    destruct Ht as (Ht1 & Ht2 & Ht).
    change (2 ^ 22)%Z with 4194304%Z in B1, B2.
    assert (BS1 : inject_Z (- (t1 * 4194304)) <= inject_Z S1
                  /\ inject_Z S1 <= inject_Z (t1 * 4194304))
      by (rewrite <- !Zle_Qle; lia).
    assert (BS2 : inject_Z (- (t2 * 4194304)) <= inject_Z S2
                  /\ inject_Z S2 <= inject_Z (t2 * 4194304))
      by (rewrite <- !Zle_Qle; lia).
    rewrite inject_Z_opp, inject_Z_mult in BS1, BS2.
    change (inject_Z 4194304) with 4194304 in BS1, BS2.
    destruct BS1 as [BS1a BS1b]. destruct BS2 as [BS2a BS2b].
    assert (Q1 : 0 <= inject_Z t1) by (change 0 with (inject_Z 0); now rewrite <- Zle_Qle).
    assert (Q2 : 0 <= inject_Z t2) by (change 0 with (inject_Z 0); now rewrite <- Zle_Qle).
    assert (Q12 : inject_Z t1 + inject_Z t2 <= 4096).
    { rewrite <- inject_Z_plus. change 4096 with (inject_Z 4096).
      now rewrite <- Zle_Qle. }
    unfold Zminus in *.
    rewrite !inject_Z_plus, !inject_Z_mult in *.
    rewrite !inject_Z_plus.
    change (inject_Z 2) with 2 in *.
    change (inject_Z (- (1))) with (-1 # 1) in *.
    apply Qabs_Qle_condition in IH1. apply Qabs_Qle_condition in IH2.
    destruct IH1 as [I1a I1b]. destruct IH2 as [I2a I2b].
    assert (Es1 : 1000 * (inject_Z S1 / 1000) == inject_Z S1) by field.
    assert (Es2 : 1000 * (inject_Z S2 / 1000) == inject_Z S2) by field.
    assert (Es : 1000 * ((inject_Z S1 + inject_Z S2) / 1000)
                 == inject_Z S1 + inject_Z S2) by field.
    set (s1 := inject_Z S1 / 1000) in *. set (s2 := inject_Z S2 / 1000) in *.
    set (s := (inject_Z S1 + inject_Z S2) / 1000) in *.
    set (T1 := inject_Z t1) in *. set (T2 := inject_Z t2) in *.
    unfold Float64.add.
    destruct (nearest_bounds v1 33554432) as [A1 A2];
      [apply Qabs_Qle_condition; split; lra|].
    destruct (nearest_bounds v2 33554432) as [C1 C2];
      [apply Qabs_Qle_condition; split; lra|].
    destruct (nearest_bounds (Float64.nearest v1 + Float64.nearest v2) 33554432)
      as [W1 W2];
      [apply Qabs_Qle_condition; unfold unit_roundoff in *; split; lra|].
    apply Qabs_Qle_condition. unfold unit_roundoff in *. split; lra.
  - subst l'. apply Permutation_map_inv in Hperm.
    destruct Hperm as (ns0 & -> & Hp).
    rewrite (fold_right_add_perm ns ns0 Hp), (Permutation_length Hp).
    apply IH; [reflexivity | |].
    + intros n Hn. apply Hns. apply Permutation_sym in Hp.
      now apply (Permutation_in n Hp).
    + now rewrite <- (Permutation_length Hp).
Qed.

(** a float64 sum of at most 4096 thousandths, in any order, taken to
    thousandths, is their exact sum *)
Lemma round3_float_sum (ns : list Z) (v : Q) :
  (forall n, In n ns -> (Z.abs n <= 2 ^ 22)%Z) ->
  (List.length ns <= 4096)%nat ->
  float_sum (map (fun n => n # 1000) ns) v ->
  round3 v = fold_right Z.add 0%Z ns # 1000.
Proof.
  intros Hns Hlen Hv.
  pose proof (float_sum_thousandths _ _ Hv ns eq_refl Hns Hlen) as HE.
  pose proof (fold_right_add_bound ns (2 ^ 22) Hns) as BK.
  change (2 ^ 22)%Z with 4194304%Z in BK.
  apply round3_near_thousandth; [lia|].
  eapply Qle_trans; [exact HE|].
  assert (B : inject_Z (2 * Z.of_nat (List.length ns) - 1) <= inject_Z 8191)
    by (rewrite <- Zle_Qle; lia).
  change (inject_Z 8191) with 8191 in B.
  set (t := inject_Z (2 * Z.of_nat (List.length ns) - 1)) in *. lra.
Qed.

Lemma map_Fin_inj (a b : list Q) : map Fin a = map Fin b -> a = b.
Proof.
  revert b. induction a as [|x a IH]; intros [|y b] H; try discriminate;
    [reflexivity|].
  simpl in H. injection H as -> H. f_equal. now apply IH.
Qed.

(** ** The threshold of the selector *)

Lemma nearest_one_percent : Float64.nearest 0.01 = one_percent.
Proof. vm_compute. reflexivity. Qed.



Lemma Qfloor_nonneg (q : Q) : 0 <= q -> (0 <= Qfloor q)%Z.
Proof.
  intros H. change 0%Z with (Qfloor (inject_Z 0)).
  rewrite <- (Qfloor_Z 0). now apply Qfloor_resp_le.
Qed.

Lemma rint_nonneg (q : Q) : 0 <= q -> (0 <= rint q)%Z.
Proof.
  intros H. pose proof (Qfloor_nonneg q H) as Hf. unfold rint.
  destruct (q - inject_Z (Qfloor q) ?= 1 # 2); try lia.
  destruct (Z.even (Qfloor q)); lia.
Qed.

Lemma mul_nonneg (a b : Q) : 0 <= a -> 0 <= b -> 0 <= Float64.mul a b.
Proof.
  intros Ha Hb. unfold Float64.mul. apply nearest_nonneg.
  apply Qmult_le_0_compat; now apply nearest_nonneg.
Qed.

Lemma add_nonneg (a b : Q) : 0 <= a -> 0 <= b -> 0 <= Float64.add a b.
Proof.
  intros Ha Hb. unfold Float64.add. apply nearest_nonneg.
  pose proof (nearest_nonneg a Ha). pose proof (nearest_nonneg b Hb). lra.
Qed.

Lemma round3_nonneg (q : Q) : 0 <= q -> 0 <= round3 q.
Proof.
  intros H. unfold round3, Qle. simpl.
  assert (H0 : 0 <= Float64.mul q 1000) by (apply mul_nonneg; [assumption | discriminate]).
  pose proof (rint_nonneg _ H0). lia.
Qed.

Lemma fold_Qplus_nonneg (l : list Q) :
  (forall h, In h l -> 0 <= h) -> forall acc, 0 <= acc -> 0 <= fold_left Qplus l acc.
Proof.
  induction l as [|h l IH]; simpl; intros Hl acc Hacc; [assumption|].
  apply IH; [intros x Hx; apply Hl; now right|].
  change (0 + 0 <= acc + h). apply Qplus_le_compat; [assumption|].
  apply Hl. now left.
Qed.

Lemma total_signal_mass_pos (df : DataFrame) (mh : Q) :
  (forall x, In x (rows df) -> 0 <= Height x) -> 0 < mh ->
  0 < total_signal_mass df mh.
Proof.
  intros Hh Hm. unfold total_signal_mass, Qsum.
  apply Qlt_le_trans with (y := 0 + mh); [now rewrite Qplus_0_l|].
  apply Qplus_le_compat; [|apply Qle_refl].
  apply fold_Qplus_nonneg; [|apply Qle_refl].
  intros h Hin. apply in_map_iff in Hin. destruct Hin as (x & <- & Hx). now apply Hh.
Qed.

Lemma div_nonneg (h t : Q) :
  0 <= h -> 0 < t -> exists q, Num.div h t = Fin q /\ 0 <= q.
Proof.
  intros Hh Ht. unfold Num.div.
  destruct (Qeq_bool t 0) eqn:E.
  - apply Qeq_bool_iff in E. rewrite E in Ht. discriminate.
  - exists (Float64.div h t). split; [reflexivity|].
    unfold Float64.div. apply nearest_nonneg.
    apply Qle_shift_div_l; [now apply nearest_pos|].
    rewrite Qmult_0_l. now apply nearest_nonneg.
Qed.

(** ** Rows tied with the maximum *)

Lemma app_cons_eq_cases {A : Type} (a a' : list A) (x x' : A) (b b' : list A) :
  a ++ x :: b = a' ++ x' :: b' ->
  (a = a' /\ x = x') \/ In x a' \/ In x' a.
Proof.
  revert a'. induction a as [|y a IH]; intros [|y' a']; simpl; intros H.
  - inversion H. now left.
  - inversion H. right. left. now left.
  - inversion H. right. right. now left.
  - inversion H as [[Hy Ht]]. destruct (IH a' Ht) as [[-> ->] | [Hin | Hin]].
    + now left.
    + right. left. now right.
    + right. right. now right.
Qed.

Lemma first_maximum_is_first_with_height (l : list Row) (r rmax rcur : Row) :
  In r l ->
  (forall x, In x l -> Height x <= Height r) ->
  first_maximum l rmax ->
  first_with_height l (Height r) rcur ->
  rcur = rmax.
Proof.
  intros Hin Hr (bm & am & Em & Hbm & Ham) (bc & ac & Ec & Hc & Hbc).
  assert (Hmax : Height rmax == Height r).
  { apply Qle_antisym.
    - apply Hr. rewrite Em. apply in_or_app. right. now left.
    - rewrite Em in Hin. apply in_app_or in Hin.
      destruct Hin as [Hin | [<- | Hin]].
      + apply Qlt_le_weak. now apply Hbm.
      + apply Qle_refl.
      + now apply Ham. }
  rewrite Em in Ec.
  destruct (app_cons_eq_cases _ _ _ _ _ _ Ec) as [[_ E] | [Hi | Hi]].
  - now symmetry.
  - elim (Hbc rmax Hi Hmax).
  - pose proof (Hbm rcur Hi) as Hlt. rewrite Hc, <- Hmax in Hlt.
    elim (Qlt_irrefl _ Hlt).
Qed.

(** ** The extractor and the selector as maps over the sample key *)

Lemma setitem_app_at {A : Type} (pre : list A) (a b : A) (post : list A) (i : nat) :
  List.length pre = i -> setitem (pre ++ a :: post) i b = pre ++ b :: post.
Proof. intros <-. apply setitem_app_here. Qed.

Lemma getitem_map_app_at {A B : Type} (f : A -> B) (pre : list A) (a : A)
  (post : list A) (i : nat) :
  List.length pre = i -> getitem (map f (pre ++ a :: post)) i = Ok (f a).
Proof.
  intros H. rewrite map_app. cbn [map].
  apply getitem_app_at. now rewrite length_map.
Qed.

Lemma extract_files_from files (todo : list RegionDescriptor) :
  forall (done : list RegionDescriptor) (acc : list DataFrame),
    List.length acc = List.length done ->
    for_in (seq (List.length done) (List.length todo))
      (fun item df_list =>
         path <- getitem (map source_path (done ++ todo)) item ;;
         table <- read_csv files path ;;
         lines <- five_columns table ;;
         let df_list :=
           df_list ++ [mkFrame (project_from 0 lines) false false false] in
         df <- getitem df_list item ;;
         name <- getitem (map region_name (done ++ todo)) item ;;
         Ok (setitem df_list item
               (mkFrame (map (set_Sample_Name name) (rows df))
                  (has_normalized_Height df) (has_change_from_main df)
                  (has_normalized_Peak df))))
      acc
    = (r <- traverse (extract_one files) todo ;; Ok (acc ++ r)).
Proof.
  induction todo as [|d todo IH]; intros done acc Hacc.
  - simpl. now rewrite app_nil_r.
  - cbn [List.length seq for_in traverse].
    rewrite (getitem_map_app_at source_path done d todo _ eq_refl).
    cbn [bind]. unfold extract_one at 1.
    destruct (read_csv files (source_path d)) as [table|e]; cbn [bind];
      [|reflexivity].
    destruct (five_columns table) as [lines|e]; cbn [bind]; [|reflexivity].
    rewrite (getitem_app_at acc _ [] _ Hacc). cbn [bind].
    rewrite (getitem_map_app_at region_name done d todo _ eq_refl).
    cbn [bind rows has_normalized_Height has_change_from_main has_normalized_Peak].
    rewrite (setitem_app_at acc _ _ [] _ Hacc).
    rewrite (app_cons_assoc done d todo).
    rewrite <- (length_snoc done d).
    rewrite IH by (rewrite !length_snoc; now f_equal).
    destruct (traverse (extract_one files) todo) as [r|e]; cbn [bind];
      [|reflexivity].
    now rewrite <- app_cons_assoc.
Qed.

Lemma extract_files_eq files (sample_df : list RegionDescriptor) :
  extract_files files sample_df = traverse (extract_one files) sample_df.
Proof.
  unfold extract_files, range. rewrite length_map.
  pose proof (extract_files_from files sample_df [] [] eq_refl) as H.
  cbn [List.length app] in H. cbv zeta. cbv zeta in H. rewrite H.
  now destruct (traverse (extract_one files) sample_df).
Qed.

Lemma exp_peak_subset_from (todo : list RegionDescriptor) :
  forall (ex_todo : list DataFrame) (done : list RegionDescriptor)
         (ex_done : list DataFrame) (thr : list Q) (subs : list DataFrame),
    List.length ex_done = List.length done ->
    List.length thr = List.length done ->
    (List.length todo <= List.length ex_todo)%nat ->
    for_in (seq (List.length done) (List.length todo))
      (fun item '(relative_threshold, sample_subset) =>
         mh <- getitem (map modal_height (done ++ todo)) item ;;
         let relative_threshold := relative_threshold ++ [Float64.mul mh 0.01] in
         df <- getitem (ex_done ++ ex_todo) item ;;
         thr <- getitem relative_threshold item ;;
         mh <- getitem (map modal_height (done ++ todo)) item ;;
         ms <- getitem (map modal_size (done ++ todo)) item ;;
         Ok (relative_threshold,
             sample_subset ++ [select (is_expansion_peak thr mh ms) df]))
      (thr, subs)
    = Ok (thr ++ map (fun d => Float64.mul (modal_height d) 0.01) todo,
          subs ++ zip_with select_one todo ex_todo).
Proof.
  induction todo as [|d todo IH]; intros ex_todo done ex_done thr subs He Ht Hlen.
  - simpl. now rewrite !app_nil_r.
  - destruct ex_todo as [|df ex_todo]; [simpl in Hlen; lia|].
    cbn [List.length seq for_in zip_with]. cbv beta iota.
    rewrite (getitem_map_app_at modal_height done d todo _ eq_refl).
    cbn [bind].
    rewrite (getitem_app_at ex_done df ex_todo _ He). cbn [bind].
    rewrite (getitem_app_at thr _ [] _ Ht). cbn [bind].
    rewrite (getitem_map_app_at modal_size done d todo _ eq_refl).
    cbn [bind]. fold (select_one d df).
    rewrite (app_cons_assoc done d todo), (app_cons_assoc ex_done df ex_todo).
    rewrite <- (length_snoc done d).
    rewrite IH.
    + now rewrite <- !app_cons_assoc.
    + rewrite !length_snoc. now f_equal.
    + rewrite !length_snoc. now f_equal.
    + simpl in Hlen. lia.
Qed.

Lemma exp_peak_subset_Ok (sample_df : list RegionDescriptor)
  (extracted_files : list DataFrame) :
  (List.length sample_df <= List.length extracted_files)%nat ->
  exp_peak_subset sample_df extracted_files
  = Ok (zip_with select_one sample_df extracted_files,
        map modal_height sample_df).
Proof.
  intros Hlen. unfold exp_peak_subset, range. rewrite length_map.
  pose proof (exp_peak_subset_from sample_df extracted_files [] [] [] []
                eq_refl eq_refl Hlen) as H.
  cbn [List.length app] in H. cbv zeta. cbv zeta in H. now rewrite H.
Qed.

(** ** The frames the selector hands to the calculator *)

Lemma project_from_labels (table : list RawRow) :
  forall k, map label (project_from k table)
            = map Z.of_nat (seq k (List.length table)).
Proof.
  induction table as [|raw table IH]; intros k; simpl; [reflexivity|].
  now rewrite IH.
Qed.

Lemma project_from_nth (table : list RawRow) (r : Row) :
  forall k,
    In r (project_from k table) ->
    exists j raw,
      nth_error table j = Some raw /\ label r = Z.of_nat (k + j)
      /\ Size r = raw_Size raw /\ Height r = raw_Height raw.
Proof.
  induction table as [|raw table IH]; intros k; simpl; [contradiction|].
  intros [<- | Hin].
  - exists 0%nat, raw. simpl. rewrite Nat.add_0_r. auto.
  - destruct (IH (S k) Hin) as (j & raw' & Hj & Hl & Hs & Hh).
    exists (S j), raw'. simpl. rewrite Nat.add_succ_r. auto.
Qed.

Lemma NoDup_filter {A : Type} (p : A -> bool) (f : A -> Z) (l : list A) :
  NoDup (map f l) -> NoDup (map f (filter p l)).
Proof.
  induction l as [|a l IH]; simpl; intros H; [constructor|].
  inversion H as [|? ? Hnot Hrest]; subst.
  destruct (p a); simpl; [|now apply IH].
  constructor; [|now apply IH].
  intros Hin. apply Hnot. apply in_map_iff in Hin.
  destruct Hin as (x & Hx & Hf). apply filter_In in Hf.
  apply in_map_iff. exists x. tauto.
Qed.

Lemma NoDup_map_of_nat (l : list nat) : NoDup l -> NoDup (map Z.of_nat l).
Proof.
  induction 1 as [|a l Hnot _ IH]; simpl; constructor; [|exact IH].
  intros Hin. apply Hnot. apply in_map_iff in Hin.
  destruct Hin as (b & Hb & Hin). apply Nat2Z.inj in Hb. now subst.
Qed.

Lemma unique_index_extract_one files (d : RegionDescriptor) (df : DataFrame) :
  extract_one files d = Ok df -> unique_index df.
Proof.
  unfold extract_one. destruct (read_csv files (source_path d)) as [table|e];
    simpl; [|discriminate].
  destruct (five_columns table) as [lines|e]; simpl; [|discriminate].
  intros [= <-]. unfold unique_index, Frame.index. cbn [rows].
  rewrite map_map. cbn [set_Sample_Name label].
  change (fun x : Row => label x) with label.
  rewrite project_from_labels.
  apply NoDup_map_of_nat, seq_NoDup.
Qed.

Lemma traverse_Forall {A B : Type} (f : A -> result B) (P : B -> Prop)
  (l : list A) (r : list B) :
  (forall a b, f a = Ok b -> P b) -> traverse f l = Ok r -> Forall P r.
Proof.
  intros Hf. revert r. induction l as [|a l IH]; simpl; intros r H.
  - inversion H. constructor.
  - destruct (f a) as [b|e] eqn:E; simpl in H; [|discriminate].
    destruct (traverse f l) as [r'|e] eqn:E'; simpl in H; [|discriminate].
    inversion H; subst. constructor; [now apply (Hf a) | now apply IH].
Qed.

(** The subsets the notebook passes to the calculator have unique labels. *)
Lemma unique_index_selected files (sample_df : list RegionDescriptor)
  (samples sample_subset : list DataFrame) (modal : list Q) :
  extract_files files sample_df = Ok samples ->
  exp_peak_subset sample_df samples = Ok (sample_subset, modal) ->
  Forall unique_index sample_subset
  /\ List.length sample_subset = List.length modal.
Proof.
  intros He Hs. rewrite extract_files_eq in He.
  assert (Hu : Forall unique_index samples).
  { eapply traverse_Forall; [|exact He].
    intros d df. apply unique_index_extract_one. }
  assert (Hlen : List.length samples = List.length sample_df).
  { clear Hs Hu. revert samples He.
    induction sample_df as [|d l IH]; simpl; intros samples H.
    - now inversion H.
    - destruct (extract_one files d); simpl in H; [|discriminate].
      destruct (traverse (extract_one files) l) as [r|e]; simpl in H;
        [|discriminate].
      inversion H; subst. simpl. f_equal. now apply IH. }
  rewrite exp_peak_subset_Ok in Hs by lia.
  inversion Hs; subst. split.
  - apply Forall_forall. intros sub Hin.
    apply in_zip_with in Hin. destruct Hin as (d & df & _ & Hdf & ->).
    rewrite Forall_forall in Hu. specialize (Hu df Hdf).
    unfold unique_index, Frame.index, select_one, select in *. cbn [rows].
    now apply NoDup_filter.
  - rewrite length_zip_with, length_map by lia. reflexivity.
Qed.

(** The label of a selected peak is its row position in the peak table. *)
Lemma selected_label_is_table_position files (d : RegionDescriptor)
  (table : list RawRow) (df : DataFrame) (r : Row) :
  files (source_path d) = Ok (peak_table table) ->
  extract_one files d = Ok df ->
  In r (rows (select_one d df)) ->
  exists j raw,
    nth_error table j = Some raw /\ label r = Z.of_nat j
    /\ Size r = raw_Size raw /\ Height r = raw_Height raw.
Proof.
  intros Hf He Hin. unfold extract_one, read_csv in He. rewrite Hf in He.
  simpl in He. inversion He; subst df. clear He.
  unfold select_one, select in Hin. cbn [rows] in Hin.
  apply filter_In in Hin. destruct Hin as [Hin _].
  apply in_map_iff in Hin. destruct Hin as (r0 & <- & Hr0).
  destruct (project_from_nth table r0 0 Hr0) as (j & raw & Hj & Hl & Hs & Hh).
  exists j, raw. auto.
Qed.

(** A selected peak is not lower than the threshold, so its height is not
    negative when the modal height is not. *)
Lemma selected_height_nonneg (d : RegionDescriptor) (df : DataFrame) (r : Row) :
  0 <= modal_height d -> In r (rows (select_one d df)) -> 0 <= Height r.
Proof.
  intros Hm Hin. unfold select_one, select in Hin. cbn [rows] in Hin.
  apply filter_In in Hin. destruct Hin as [_ Hp].
  unfold is_expansion_peak in Hp. rewrite !andb_true_iff, !Qle_bool_iff in Hp.
  destruct Hp as [[Hthr _] _].
  assert (H0 : 0 <= Float64.mul (modal_height d) 0.01)
    by (apply mul_nonneg; [assumption | discriminate]).
  destruct (Qlt_le_dec (Height r) 0) as [Hneg | Hpos]; [|assumption].
  pose proof (nearest_neg _ Hneg). lra.
Qed.

(** ** The exceptions the calculator can raise *)













Lemma annotate_empty (df : DataFrame) (m : Q) :
  rows df = [] -> annotate df m = normalized df m.
Proof.
  intros E. unfold annotate.
  assert (E1 : rows (normalized df m) = []).
  { unfold normalized. now rewrite rows_assign, E. }
  rewrite (at_each_empty change_from_main _ _ E1).
  now rewrite (at_each_empty normalized_Peak _ _ E1).
Qed.

(** ** Running the calculator on its own output *)

Lemma first_max_same_peak (l l' : list Row) :
  Forall2 same_peak l l' ->
  forall b b', same_peak b b' ->
    same_peak (Frame.first_max b l) (Frame.first_max b' l').
Proof.
  induction 1 as [|x x' l l' [Hl Hh] _ IH]; simpl; intros b b' [Hbl Hbh].
  - now split.
  - apply IH. rewrite Hbh, Hh.
    destruct (Qltb (Height b) (Height x)); now split.
Qed.

Lemma change_from_main_value_same_peak (ii : Z) (df S : DataFrame) :
  Forall2 same_peak (rows df) (rows S) ->
  change_from_main_value ii S = change_from_main_value ii df.
Proof.
  intros H. unfold change_from_main_value.
  assert (Hmax : Frame.idxmax S = Frame.idxmax df).
  { unfold Frame.idxmax. destruct H as [|x x' l l' Hx Hl]; [reflexivity|].
    f_equal. now apply first_max_same_peak. }
  assert (Hfirst : forall h, Frame.first_index_with_height h S
                             = Frame.first_index_with_height h df).
  { intros h. unfold Frame.first_index_with_height.
    induction H as [|x x' l l' [Hl Hh] _ IH]; simpl; [reflexivity|].
    rewrite Hh. destruct (Qeq_bool (Height x) h); [now rewrite Hl | exact IH]. }
  rewrite Hmax. destruct (Frame.idxmax df) as [m|e]; simpl; [|reflexivity].
  unfold Frame.loc.
  induction H as [|x x' l l' [Hl Hh] Hrest IH]; simpl; [reflexivity|].
  rewrite Hl. destruct (label x =? ii)%Z.
  - simpl. rewrite Hh. apply f_equal2; [|reflexivity].
    apply (Hfirst (Height x)).
  - apply IH.
Qed.

Lemma weight_same_peak (df S : DataFrame) (r r' : Row) :
  Forall2 same_peak (rows df) (rows S) -> label r' = label r ->
  weight S r' = weight df r.
Proof.
  intros H Hl. unfold weight.
  now rewrite Hl, (change_from_main_value_same_peak (label r) df S H).
Qed.

Lemma frame_ext (a b : DataFrame) :
  rows a = rows b ->
  (forall c, Frame.has_column c a = Frame.has_column c b) ->
  a = b.
Proof.
  destruct a, b. simpl. intros -> H.
  pose proof (H normalized_Height) as H1.
  pose proof (H change_from_main) as H2.
  pose proof (H normalized_Peak) as H3.
  simpl in H1, H2, H3. now subst.
Qed.

Lemma rows_normalized_nonempty (df : DataFrame) (m : Q) :
  rows df <> [] -> rows (normalized df m) <> [].
Proof.
  unfold normalized. rewrite rows_assign.
  destruct (rows df); [congruence | discriminate].
Qed.

Lemma annotate_eq (df : DataFrame) (m : Q) :
  unique_index df ->
  annotate df m
  = mkFrame (map (annotate_row df m) (rows df)) true
      (nonempty df || has_change_from_main df)
      (nonempty df || has_normalized_Peak df).
Proof.
  intros Hu. apply frame_ext; [now apply rows_annotate|].
  unfold nonempty. destruct (rows df) as [|r l] eqn:E.
  - rewrite (annotate_empty df m E). now intros [].
  - assert (Hne : rows df <> []) by (rewrite E; discriminate).
    pose proof (rows_normalized_nonempty df m Hne) as Hne1.
    unfold annotate. intros []; cbn [Frame.has_column orb
      has_normalized_Height has_change_from_main has_normalized_Peak].
    + change (Frame.has_column normalized_Height
                (at_each normalized_Peak weighted
                   (at_each change_from_main (weight (normalized df m))
                      (normalized df m))) = true).
      now rewrite !has_column_at_each_other by discriminate.
    + change (Frame.has_column change_from_main
                (at_each normalized_Peak weighted
                   (at_each change_from_main (weight (normalized df m))
                      (normalized df m))) = true).
      rewrite has_column_at_each_other by discriminate.
      now apply has_column_at_each.
    + apply (has_column_at_each normalized_Peak).
      rewrite rows_at_each. intros H. apply Hne1.
      destruct (rows (normalized df m)); [reflexivity | discriminate].
Qed.

Lemma annotate_row_same_peak (df : DataFrame) (m : Q) (r : Row) :
  same_peak r (annotate_row df m r).
Proof. now split. Qed.

Lemma unique_index_annotate (df : DataFrame) (m : Q) :
  unique_index df -> unique_index (annotate df m).
Proof.
  intros Hu. unfold unique_index, annotate.
  rewrite !index_at_each. unfold normalized. now rewrite index_assign.
Qed.

Lemma annotate_twice (df : DataFrame) (m : Q) :
  unique_index df -> annotate (annotate df m) m = annotate df m.
Proof.
  intros Hu.
  pose proof (unique_index_annotate df m Hu) as Hu'.
  assert (Hrows : rows (annotate df m) = map (annotate_row df m) (rows df))
    by now apply rows_annotate.
  assert (Hsame : Forall2 same_peak (rows df) (rows (annotate df m))).
  { rewrite Hrows. apply Forall2_map_r. intros r _. apply annotate_row_same_peak. }
  assert (Hheights : map Height (rows (annotate df m)) = map Height (rows df)).
  { rewrite Hrows, map_map. reflexivity. }
  apply frame_ext.
  - rewrite (rows_annotate (annotate df m) m Hu'), Hrows, map_map.
    apply map_ext. intros r.
    unfold annotate_row at 1.
    unfold total_signal_mass. rewrite Hheights.
    rewrite (weight_same_peak df (annotate df m) r (annotate_row df m r) Hsame eq_refl).
    reflexivity.
  - intros c. rewrite (annotate_eq (annotate df m) m Hu').
    assert (Hne : nonempty (annotate df m) = nonempty df).
    { unfold nonempty. rewrite Hrows. now destruct (rows df). }
    rewrite Hne, (annotate_eq df m Hu).
    destruct c; simpl; now destruct (nonempty df).
Qed.

Lemma zip_with_annotate_twice (fs : list DataFrame) (mh : list Q) :
  Forall unique_index fs ->
  zip_with annotate (zip_with annotate fs mh) mh = zip_with annotate fs mh.
Proof.
  intros H. revert mh. induction H as [|df fs Hu _ IH]; intros [|m mh]; simpl;
    try reflexivity.
  now rewrite (annotate_twice df m Hu), IH.
Qed.

Lemma unique_index_zip_with_annotate (fs : list DataFrame) (mh : list Q) :
  Forall unique_index fs -> Forall unique_index (zip_with annotate fs mh).
Proof.
  intros H. apply Forall_forall. intros d Hd.
  apply in_zip_with_l in Hd. destruct Hd as (df & m & Hdf & ->).
  apply unique_index_annotate. rewrite Forall_forall in H. now apply H.
Qed.

(** ** Counted subsets *)

Lemma Forall2_exists {A B : Type} (P : A -> B -> Prop) (l : list A) :
  (forall a, In a l -> exists b, P a b) -> exists l', Forall2 P l l'.
Proof.
  induction l as [|a l IH]; intros H.
  - exists []. constructor.
  - destruct (H a (or_introl eq_refl)) as (b & Hb).
    destruct IH as (l' & Hl'); [intros x Hx; apply H; now right|].
    exists (b :: l'). now constructor.
Qed.

Lemma fold_Qplus_shift (l : list Q) :
  forall a b, fold_left Qplus l (a + b) == fold_left Qplus l a + b.
Proof.
  induction l as [|h l IH]; intros a b; simpl; [reflexivity|].
  rewrite <- IH. clear IH.
  assert (E : a + b + h == a + h + b) by ring.
  revert E. generalize (a + b + h) (a + h + b). clear.
  induction l as [|x l IH]; intros u v E; simpl; [exact E|].
  apply IH. now rewrite E.
Qed.

(** the sum the first loop takes is the sum of the heights and of the modal
    height, in whatever order they are added *)
Lemma Qsum_fold_right (l : list Q) (m : Q) :
  Qsum l + m == fold_right Qplus m l.
Proof.
  unfold Qsum. induction l as [|h l IH]; simpl; [ring|].
  rewrite <- IH.
  assert (E : fold_left Qplus l (0 + h) == fold_left Qplus l 0 + h)
    by apply fold_Qplus_shift.
  rewrite E. ring.
Qed.

Lemma fold_Qplus_counts (bound : Z) (l : list Q) :
  Forall (count_below bound) l ->
  forall a : Z,
    exists S : Z,
      fold_left Qplus l (inject_Z a) = inject_Z (a + S)
      /\ (0 <= S <= Z.of_nat (List.length l) * (bound - 1))%Z
      /\ forall z, In (inject_Z z) l -> (z <= S)%Z.
Proof.
  induction 1 as [|q l (z & -> & Hz) _ IH]; intros a.
  - exists 0%Z. simpl. rewrite Z.add_0_r.
    split; [reflexivity|]. split; [lia|]. intros z [].
  - destruct (IH (a + z)%Z) as (S & HS & HB & Hmem).
    exists (z + S)%Z. cbn [fold_left List.length]. rewrite Nat2Z.inj_succ.
    rewrite <- inject_Z_plus, HS. split; [f_equal; lia|]. split; [nia|].
    intros z' [E | Hin].
    + assert (z' = z) by (unfold inject_Z in E; congruence). lia.
    + specialize (Hmem z' Hin). lia.
Qed.

(** the total signal mass of a counted subset is a whole number below 2^53,
    not smaller than any height of the subset *)
Lemma total_counted (df : DataFrame) (m : Q) :
  counted df m ->
  exists T zm : Z,
    total_signal_mass df m = inject_Z T
    /\ m = inject_Z zm
    /\ (0 <= zm <= T)%Z /\ (T < 2 ^ 53)%Z
    /\ forall r, In r (rows df) ->
         exists h, Height r = inject_Z h /\ (0 <= h < 2 ^ 40)%Z /\ (h + zm <= T)%Z.
Proof.
  intros (Hh & (zm & -> & Hzm) & Hlen).
  assert (Hl : Forall (count_below (2 ^ 40)) (map Height (rows df))).
  { apply Forall_forall. intros q Hq. apply in_map_iff in Hq.
    destruct Hq as (r & <- & Hr). rewrite Forall_forall in Hh. now apply Hh. }
  destruct (fold_Qplus_counts _ _ Hl 0%Z) as (S & HS & HB & Hmem).
  rewrite length_map in HB. rewrite Z.add_0_l in HS.
  exists (S + zm)%Z, zm. unfold total_signal_mass, Qsum.
  change 0 with (inject_Z 0). rewrite HS, <- inject_Z_plus.
  split; [reflexivity|]. split; [reflexivity|].
  change (2 ^ 40)%Z with 1099511627776%Z in *.
  change (2 ^ 53)%Z with 9007199254740992%Z.
  split; [lia|]. split; [lia|].
  intros r Hr. rewrite Forall_forall in Hh.
  destruct (Hh r Hr) as (h & Eh & Hh').
  exists h. split; [exact Eh|]. split; [exact Hh'|].
  assert (h <= S)%Z; [|lia].
  apply Hmem. rewrite <- Eh. now apply in_map.
Qed.

Lemma Qmake_thousandth (k : Z) : k # 1000 == inject_Z k / 1000.
Proof. rewrite (Qmake_Qdiv k 1000). reflexivity. Qed.

(** a thousandth within half a thousandth of a quotient of whole numbers *)
Lemma near_thousandth (k h T : Z) :
  (0 < T)%Z -> (2000 * h - T <= 2 * k * T <= 2000 * h + T)%Z ->
  Qabs ((k # 1000) - inject_Z h / inject_Z T) <= 1 # 2000.
Proof.
  intros HT [H1 H2].
  assert (PT : 0 < inject_Z T) by (change 0 with (inject_Z 0); now rewrite <- Zlt_Qlt).
  rewrite Zle_Qle in H1, H2.
  unfold Zminus in H1.
  rewrite inject_Z_plus, inject_Z_opp, !inject_Z_mult in H1.
  rewrite inject_Z_plus, !inject_Z_mult in H2.
  change (inject_Z 2000) with 2000 in H1, H2.
  change (inject_Z 2) with 2 in H1, H2.
  rewrite Qmake_thousandth.
  set (q := inject_Z h / inject_Z T).
  assert (Eq : q * inject_Z T == inject_Z h) by (unfold q; field; lra).
  set (d := inject_Z k / 1000 - q).
  assert (Ed : 2000 * inject_Z T * d
               == 2 * inject_Z k * inject_Z T - 2000 * inject_Z h).
  { unfold d. rewrite <- Eq. field. }
  fold d. clearbody d. clearbody q.
  apply Qabs_Qle_condition. split.
  - destruct (Qlt_le_dec d (- (1 # 2000))) as [Hlt | Hle]; [|exact Hle].
    exfalso. nra.
  - destruct (Qlt_le_dec (1 # 2000) d) as [Hlt | Hle]; [|exact Hle].
    exfalso. nra.
Qed.

(** the normalized height of a peak of a counted subset: the thousandth
    nearest to the quotient of the height by the total *)
Lemma normalized_height_counted (df : DataFrame) (m : Q) (T : Z) (r : Row) :
  counted df m -> 0 < m -> In r (rows df) ->
  total_signal_mass df m = inject_Z T ->
  exists h k : Z,
    Height r = inject_Z h
    /\ Num.round (Num.div (Height r) (total_signal_mass df m)) = Fin (k # 1000)
    /\ (0 <= h)%Z /\ (0 < T)%Z
    /\ (0 <= k <= 1000)%Z
    /\ (2000 * h - T <= 2 * k * T <= 2000 * h + T)%Z
    /\ (m <= inject_Z T - inject_Z h).
Proof.
  intros Hc Hm Hr HT.
  destruct (total_counted df m Hc) as (T' & zm & HT' & Ezm & Hzm & HB & Hrows).
  assert (ET : T' = T).
  { rewrite HT in HT'. unfold inject_Z in HT'. congruence. }
  subst T'.
  destruct (Hrows r Hr) as (h & Eh & Hh & HhT).
  assert (Pz : (0 < zm)%Z).
  { rewrite Ezm in Hm. change 0 with (inject_Z 0) in Hm.
    now rewrite <- Zlt_Qlt in Hm. }
  destruct (round3_div_counts h T) as (k & Hk & Hk1 & Hk2); try lia.
  exists h, k. rewrite HT, Eh. unfold Num.div.
  assert (E0 : Qeq_bool (inject_Z T) 0 = false).
  { destruct (Qeq_bool (inject_Z T) 0) eqn:E; [|reflexivity].
    apply Qeq_bool_iff in E. unfold Qeq in E. simpl in E. lia. }
  rewrite E0. cbn [Num.round]. rewrite Hk.
  repeat split; try lia.
  rewrite Ezm. unfold Qminus. rewrite <- inject_Z_opp, <- inject_Z_plus, <- Zle_Qle.
  lia.
Qed.

Lemma first_maximum_In (l : list Row) (rmax : Row) :
  first_maximum l rmax -> In rmax l.
Proof.
  intros (b & a & -> & _). apply in_or_app. right. now left.
Qed.

Lemma first_with_height_In (l : list Row) (h : Q) (rcur : Row) :
  first_with_height l h rcur -> In rcur l.
Proof.
  intros (b & a & -> & _). apply in_or_app. right. now left.
Qed.

(** the annotation of a peak of an ordinary subset, in thousandths *)
Lemma annotate_row_ordinary (df : DataFrame) (m : Q) (T : Z) (r : Row) :
  unique_index df -> ordinary df m -> In r (rows df) ->
  total_signal_mass df m = inject_Z T ->
  exists h k c : Z,
    Height r = inject_Z h
    /\ cell_normalized_Height (annotate_row df m r) = Fin (k # 1000)
    /\ cell_change_from_main (annotate_row df m r) = Num.of_Z c
    /\ cell_normalized_Peak (annotate_row df m r) = Fin ((k * c) # 1000)
    /\ (0 <= h)%Z /\ (0 < T)%Z
    /\ (0 <= k <= 1000)%Z
    /\ (2000 * h - T <= 2 * k * T <= 2000 * h + T)%Z
    /\ (Z.abs c <= 4096)%Z.
Proof.
  intros Hu (Hc & Hm & Hlab) Hr HT.
  destruct (normalized_height_counted df m T r Hc Hm Hr HT)
    as (h & k & Eh & Hnh & Hh & HT0 & Hk1 & Hk2 & _).
  destruct (weight_spec df r Hu Hr) as (rmax & rcur & Hfm & Hfc & _ & _ & Hw).
  rewrite Forall_forall in Hlab.
  pose proof (Hlab rmax (first_maximum_In _ _ Hfm)) as Lmax.
  pose proof (Hlab rcur (first_with_height_In _ _ _ Hfc)) as Lcur.
  set (c := (label rcur - label rmax + 1)%Z) in *.
  exists h, k, c. unfold annotate_row.
  cbn [cell_normalized_Height cell_change_from_main cell_normalized_Peak].
  rewrite Hnh, Hw. unfold Num.of_Z. cbn [Num.mul Num.round].
  rewrite round3_mul_thousandth.
  - repeat split; try assumption; try lia.
  - change (2 ^ 40)%Z with 1099511627776%Z. nia.
  - change (2 ^ 53)%Z with 9007199254740992%Z. lia.
Qed.

Lemma cells_thousandths (l : list Row) (kc : list (Z * Z)) :
  Forall2 (fun r' p => cell_normalized_Peak r' = Fin ((fst p * snd p) # 1000)) l kc ->
  map cell_normalized_Peak l
  = map (fun n => Fin (n # 1000)) (map (fun p => (fst p * snd p)%Z) kc).
Proof.
  induction 1 as [|r' p l kc Hp _ IH]; simpl; [reflexivity|].
  now rewrite Hp, IH.
Qed.

(** the index of an ordinary subset is the exact sum of its products *)
Lemma index_of_thousandths (l : list Row) (kc : list (Z * Z)) :
  Forall2 (fun r' p => cell_normalized_Peak r' = Fin ((fst p * snd p) # 1000)) l kc ->
  Forall (fun p => (Z.abs (fst p * snd p) <= 2 ^ 22)%Z) kc ->
  (List.length l <= 4096)%nat ->
  Num.round (Num.sum (map cell_normalized_Peak l))
  = Fin (fold_right Z.add 0%Z (map (fun p => (fst p * snd p)%Z) kc) # 1000).
Proof.
  intros Hcells Hb Hlen.
  rewrite (cells_thousandths l kc Hcells).
  apply round_sum_thousandths.
  - intros n Hn. apply in_map_iff in Hn. destruct Hn as (p & <- & Hp).
    rewrite Forall_forall in Hb. now apply Hb.
  - rewrite length_map, <- (Forall2_length Hcells). exact Hlen.
Qed.

(** the annotated rows and the index of an ordinary subset *)
Lemma annotate_ordinary (df : DataFrame) (m : Q) :
  unique_index df -> ordinary df m ->
  exists (T : Z) (kc : list (Z * Z)),
    total_signal_mass df m = inject_Z T /\ (0 < T)%Z
    /\ Forall2
         (fun r p =>
            exists h,
              Height r = inject_Z h /\ (0 <= h)%Z
              /\ cell_normalized_Height (annotate_row df m r) = Fin (fst p # 1000)
              /\ cell_change_from_main (annotate_row df m r) = Num.of_Z (snd p)
              /\ cell_normalized_Peak (annotate_row df m r)
                 = Fin ((fst p * snd p) # 1000)
              /\ (0 <= fst p <= 1000)%Z
              /\ (2000 * h - T <= 2 * fst p * T <= 2000 * h + T)%Z)
         (rows df) kc
    /\ index_of (annotate df m)
       = Fin (fold_right Z.add 0%Z (map (fun p => (fst p * snd p)%Z) kc) # 1000).
Proof.
  intros Hu Ho.
  destruct (total_counted df m (proj1 Ho)) as (T & zm & HT & Ezm & Hzm & HB & _).
  assert (HT0 : (0 < T)%Z).
  { destruct Ho as (_ & Hm & _). rewrite Ezm in Hm.
    change 0 with (inject_Z 0) in Hm. rewrite <- Zlt_Qlt in Hm. lia. }
  destruct (Forall2_exists
              (fun r p =>
                 (exists h,
                    Height r = inject_Z h /\ (0 <= h)%Z
                    /\ cell_normalized_Height (annotate_row df m r) = Fin (fst p # 1000)
                    /\ cell_change_from_main (annotate_row df m r) = Num.of_Z (snd p)
                    /\ cell_normalized_Peak (annotate_row df m r)
                       = Fin ((fst p * snd p) # 1000)
                    /\ (0 <= fst p <= 1000)%Z
                    /\ (2000 * h - T <= 2 * fst p * T <= 2000 * h + T)%Z)
                 /\ (Z.abs (fst p * snd p) <= 2 ^ 22)%Z)
              (rows df)) as (kc & Hkc).
  { intros r Hr.
    destruct (annotate_row_ordinary df m T r Hu Ho Hr HT)
      as (h & k & c & Eh & H1 & H2 & H3 & Hh & _ & Hk1 & Hk2 & Hc).
    exists (k, c). cbn [fst snd]. split.
    - exists h. repeat split; try assumption; lia.
    - change (2 ^ 22)%Z with 4194304%Z. nia. }
  exists T, kc. split; [exact HT|]. split; [exact HT0|]. split.
  - eapply Forall2_impl; [|exact Hkc]. intros r p [H _]. exact H.
  - unfold index_of. rewrite (rows_annotate df m Hu).
    apply index_of_thousandths.
    + clear - Hkc. induction Hkc as [|r p l kc [(h & _ & _ & _ & _ & Hp & _) _] _ IH];
        simpl; constructor; assumption.
    + clear - Hkc. induction Hkc as [|r p l kc [_ Hb] _ IH]; constructor; assumption.
    + rewrite length_map. destruct Ho as ((_ & _ & Hlen) & _). exact Hlen.
Qed.

(** the normalized peaks of an ordinary subset are thousandths *)
Lemma normalized_peaks_ordinary (df : DataFrame) (m : Q) :
  unique_index df -> ordinary df m ->
  exists ns : list Z,
    map cell_normalized_Peak (rows (annotate df m))
    = map Fin (map (fun n => n # 1000) ns)
    /\ (forall n, In n ns -> (Z.abs n <= 2 ^ 22)%Z)
    /\ (List.length ns <= 4096)%nat
    /\ index_of (annotate df m) = Fin (fold_right Z.add 0%Z ns # 1000).
Proof.
  intros Hu Ho.
  destruct (total_counted df m (proj1 Ho)) as (T & zm & HT & _).
  destruct (Forall2_exists
              (fun r n =>
                 cell_normalized_Peak (annotate_row df m r) = Fin (n # 1000)
                 /\ (Z.abs n <= 2 ^ 22)%Z)
              (rows df)) as (ns & Hns).
  { intros r Hr.
    destruct (annotate_row_ordinary df m T r Hu Ho Hr HT)
      as (h & k & c & _ & _ & _ & H3 & _ & _ & Hk1 & _ & Hc).
    exists (k * c)%Z. split; [exact H3|].
    change (2 ^ 22)%Z with 4194304%Z. nia. }
  assert (Hcells : map cell_normalized_Peak (rows (annotate df m))
                   = map Fin (map (fun n => n # 1000) ns)).
  { rewrite (rows_annotate df m Hu). clear - Hns.
    induction Hns as [|r n l ns [Hn _] _ IH]; cbn [map]; [reflexivity|].
    now rewrite Hn, IH. }
  assert (Hb : forall n, In n ns -> (Z.abs n <= 2 ^ 22)%Z).
  { clear - Hns. induction Hns as [|r n l ns [_ Hn] _ IH]; intros x [].
    - now subst.
    - now apply IH. }
  assert (Hlen : (List.length ns <= 4096)%nat).
  { rewrite <- (Forall2_length Hns). destruct Ho as ((_ & _ & Hlen) & _).
    exact Hlen. }
  exists ns. repeat split; try assumption.
  unfold index_of. rewrite Hcells, map_map.
  now apply round_sum_thousandths.
Qed.

(** ** Frames holding the same peaks *)

Lemma same_input_same_peak (l l' : list Row) :
  map frozen l' = map frozen l -> Forall2 same_peak l l'.
Proof.
  revert l'. induction l as [|r l IH]; intros [|r' l'] H; try discriminate.
  - constructor.
  - simpl in H. inversion H as [[Hl Hn Hs Hh Ha Hd Hrest]].
    constructor; [now split | now apply IH].
Qed.

Lemma row_ext (r r' : Row) :
  frozen r' = frozen r -> same_annotation r r' -> r' = r.
Proof.
  destruct r, r'. unfold frozen, same_annotation. simpl.
  intros [= -> -> -> -> -> ->] (-> & -> & ->). reflexivity.
Qed.

Lemma frozen_annotate_row (df : DataFrame) (m : Q) (r : Row) :
  frozen (annotate_row df m r) = frozen r.
Proof. reflexivity. Qed.

Lemma same_peak_heights (l l' : list Row) :
  Forall2 same_peak l l' -> map Height l' = map Height l.
Proof.
  induction 1 as [|r r' l l' [_ Hh] _ IH]; simpl; [reflexivity|].
  now rewrite Hh, IH.
Qed.

Lemma same_peak_labels (l l' : list Row) :
  Forall2 same_peak l l' -> map label l' = map label l.
Proof.
  induction 1 as [|r r' l l' [Hl _] _ IH]; simpl; [reflexivity|].
  now rewrite Hl, IH.
Qed.

Lemma annotate_row_same_annotation (df df' : DataFrame) (m : Q) (r r' : Row) :
  total_signal_mass df' m = total_signal_mass df m ->
  weight df' r' = weight df r ->
  Height r' = Height r ->
  same_annotation (annotate_row df m r) (annotate_row df' m r').
Proof.
  intros HT Hw Hh. unfold same_annotation, annotate_row. simpl.
  rewrite HT, Hw, Hh. repeat split.
Qed.

Lemma Forall2_map_both {A B C D : Type} (P : A -> B -> Prop) (Q : C -> D -> Prop)
  (f : A -> C) (g : B -> D) (l : list A) (l' : list B) :
  (forall a b, P a b -> Q (f a) (g b)) ->
  Forall2 P l l' -> Forall2 Q (map f l) (map g l').
Proof.
  intros H. induction 1; simpl; constructor; auto.
Qed.

Lemma annotate_same_peak (df df' : DataFrame) (m : Q) :
  unique_index df ->
  Forall2 same_peak (rows df) (rows df') ->
  unique_index df'
  /\ Forall2 same_annotation (rows (annotate df m)) (rows (annotate df' m)).
Proof.
  intros Hu Hsame.
  assert (Hu' : unique_index df').
  { unfold unique_index, Frame.index in *.
    now rewrite (same_peak_labels _ _ Hsame). }
  split; [exact Hu'|].
  rewrite (rows_annotate df m Hu), (rows_annotate df' m Hu').
  apply (Forall2_map_both same_peak); [|exact Hsame].
  intros r r' [Hl Hh]. apply annotate_row_same_annotation.
  - unfold total_signal_mass. now rewrite (same_peak_heights _ _ Hsame).
  - now apply weight_same_peak.
  - exact Hh.
Qed.

Lemma same_annotation_peaks (l l' : list Row) :
  Forall2 same_annotation l l' ->
  map cell_normalized_Peak l' = map cell_normalized_Peak l.
Proof.
  induction 1 as [|r r' l l' (_ & _ & Hp) _ IH]; simpl; [reflexivity|].
  now rewrite Hp, IH.
Qed.

Lemma map_annotate_row_same (f f' : Row -> Row) :
  (forall r, frozen (f r) = frozen r) -> (forall r, frozen (f' r) = frozen r) ->
  forall l l',
    map frozen l' = map frozen l ->
    Forall2 same_annotation (map f l) (map f' l') ->
    map f' l' = map f l.
Proof.
  intros Hf Hf'. induction l as [|r l IH]; intros [|r' l'] Hrows Hann;
    try discriminate; [reflexivity|].
  cbn [map] in *.
  assert (Hr : frozen r' = frozen r) by congruence.
  assert (Hrest : map frozen l' = map frozen l) by congruence.
  inversion Hann as [|? ? ? ? Ha Hrest']; subst.
  f_equal; [|now apply IH].
  apply row_ext; [|assumption]. now rewrite Hf, Hf'.
Qed.

(** the calculator reads the peaks of a frame and nothing else *)
Lemma annotate_same_input (df df' : DataFrame) (m : Q) :
  unique_index df -> same_input df df' ->
  unique_index df' /\ annotate df' m = annotate df m.
Proof.
  intros Hu [Hrows Hempty].
  destruct (rows df) as [|r0 l0] eqn:E.
  - rewrite (Hempty eq_refl). now split.
  - rewrite <- E in Hrows. clear Hempty.
    pose proof (same_input_same_peak _ _ Hrows) as Hsame.
    destruct (annotate_same_peak df df' m Hu Hsame) as [Hu' Hann].
    split; [exact Hu'|].
    rewrite (annotate_eq df m Hu), (annotate_eq df' m Hu').
    assert (Hne : nonempty df = true) by (unfold nonempty; now rewrite E).
    assert (Hne' : nonempty df' = true).
    { unfold nonempty. destruct (rows df'); [|reflexivity].
      rewrite E in Hrows. discriminate. }
    rewrite Hne, Hne'. cbn [orb]. f_equal.
    rewrite (rows_annotate df m Hu), (rows_annotate df' m Hu') in Hann.
    apply (map_annotate_row_same (annotate_row df m) (annotate_row df' m));
      try assumption; intros r; apply frozen_annotate_row.
Qed.

Lemma zip_with_annotate_same_input (fs fs' : list DataFrame) (mh : list Q) :
  Forall unique_index fs -> Forall2 same_input fs fs' ->
  Forall unique_index fs'
  /\ zip_with annotate fs' mh = zip_with annotate fs mh.
Proof.
  intros Hu H. revert mh Hu.
  induction H as [|df df' fs fs' Hd _ IH]; intros mh Hu.
  - split; [constructor | reflexivity].
  - inversion Hu as [|? ? Hu1 Hu2]; subst.
    destruct mh as [|m mh]; simpl.
    + destruct (IH [] Hu2) as [Hu' _].
      destruct (annotate_same_input df df' 0 Hu1 Hd) as [Hu1' _].
      split; [now constructor | reflexivity].
    + destruct (IH mh Hu2) as [Hu' E].
      destruct (annotate_same_input df df' m Hu1 Hd) as [Hu1' E1].
      split; [now constructor|]. now rewrite E1, E.
Qed.


(** * The claims *)


(** C5.  The total signal mass the first loop of the calculator appends to
    [height_sum] for a region is the modal height of the region plus the
    sum of the heights of the region's subset; for an empty subset it is the
    modal height.  Heights and modal height are counts (whole numbers from
    0, below 2^40, at most 4096 peaks): the total is then a whole number
    below 2^53, which pandas adds without loss in an int64 as in a float64
    column. *)
Theorem C5_total_signal_mass (fs : list DataFrame) (mh : list Q) :
  (List.length fs <= List.length mh)%nat ->
  (forall i df m,
     nth_error fs i = Some df -> nth_error mh i = Some m -> counted df m) ->
  exists fs1 height_sum,
    sum_of_heights fs mh = Ok (fs1, height_sum)
    /\ List.length height_sum = List.length fs
    /\ forall i df m,
         nth_error fs i = Some df -> nth_error mh i = Some m ->
         exists total,
           nth_error height_sum i = Some total
           /\ total == fold_right Qplus m (map Height (rows df))
           /\ (rows df = [] -> total == m)
           /\ exists T : Z, total = inject_Z T /\ (0 <= T < 2 ^ 53)%Z.
Proof.
  intros Hlen Hc.
  exists (zip_with normalized fs mh), (zip_with total_signal_mass fs mh).
  split; [now apply sum_of_heights_Ok|].
  split; [now apply length_zip_with|].
  intros i df m Hdf Hm.
  exists (total_signal_mass df m).
  split; [now apply nth_error_zip_with|].
  split; [apply Qsum_fold_right|]. split.
  - intros E. unfold total_signal_mass, Qsum. rewrite E. simpl. apply Qplus_0_l.
  - destruct (total_counted df m (Hc i df m Hdf Hm)) as (T & zm & HT & _ & Hz & HB & _).
    exists T. split; [exact HT | lia].
Qed.

Lemma round_thousandth (a : num) (q : Q) :
  Num.round a = Fin q -> exists k : Z, q = k # 1000.
Proof.
  destruct a; simpl; intros H; try discriminate.
  injection H as <-. unfold round3. eexists. reflexivity.
Qed.

(** C6.  The calculator rounds to three decimals at each step: every
    normalized height, every normalized peak and every index it stores is
    nan, an infinity or a thousandth.  For heights and modal heights that
    are counts (below 2^40, the modal height positive, labels from 0 below
    4096) the thousandths are these: the normalized height of a peak is the
    thousandth [k/1000] nearest to [Height / total], the normalized peak is
    the thousandth [k*c/1000] that the product of the rounded height with
    the weight [c] is, and the index of the region is the thousandth that
    the sum of the normalized peaks is, whatever the binary rounding of the
    quotient, of the products and of the sum. *)
Theorem C6_rounding_at_each_step (fs : list DataFrame) (mh : list Q) :
  (List.length fs <= List.length mh)%nat ->
  Forall unique_index fs ->
  Forall summable fs ->
  exists out idx,
    calc_instability_index fs mh = Ok (out, idx)
    /\ forall i df m,
         nth_error fs i = Some df -> nth_error mh i = Some m ->
         exists df' instability_index,
           nth_error out i = Some df'
           /\ nth_error idx i = Some instability_index
           /\ Forall
                (fun r' =>
                   (forall q, cell_normalized_Height r' = Fin q ->
                              exists k : Z, q = k # 1000)
                   /\ (forall q, cell_normalized_Peak r' = Fin q ->
                                 exists k : Z, q = k # 1000))
                (rows df')
           /\ (forall q, instability_index = Fin q ->
                         exists k : Z, q = k # 1000)
           /\ (ordinary df m ->
               exists thousandths,
                 Forall2
                   (fun r kc =>
                      Qabs ((fst kc # 1000)
                            - Height r
                              / fold_right Qplus m (map Height (rows df)))
                      <= 1 # 2000)
                   (rows df) thousandths
                 /\ Forall2
                      (fun r' kc =>
                         cell_normalized_Height r' = Fin (fst kc # 1000)
                         /\ cell_change_from_main r' = Num.of_Z (snd kc)
                         /\ cell_normalized_Peak r'
                            = Fin ((fst kc * snd kc) # 1000))
                      (rows df') thousandths
                 /\ instability_index
                    = Fin (fold_right Z.add 0%Z
                             (map (fun kc => (fst kc * snd kc)%Z) thousandths)
                           # 1000)).
Proof.
  intros Hlen Hnd Hs.
  eexists. eexists. split; [now apply calc_instability_index_Ok|].
  intros i df m Hdf Hm.
  destruct (nth_error_annotate fs mh i df Hlen Hdf) as (m' & Hm' & Hout & Hidx).
  rewrite Hm in Hm'. inversion Hm'; subst m'.
  pose proof (unique_index_nth fs i df Hnd Hdf) as Hu.
  exists (annotate df m), (index_of (annotate df m)).
  split; [assumption|]. split; [assumption|].
  split; [|split].
  - rewrite (rows_annotate df m Hu). apply Forall_forall.
    intros r' Hr'. apply in_map_iff in Hr'. destruct Hr' as (r & <- & _).
    unfold annotate_row. cbn [cell_normalized_Height cell_normalized_Peak].
    split; intros q Hq; apply (round_thousandth _ _ Hq).
  - intros q Hq. apply (round_thousandth _ _ Hq).
  - intros Ho.
    destruct (annotate_ordinary df m Hu Ho)
      as (T & kc & HT & HT0 & Hrows & Hindex).
    exists kc.
    assert (Etotal : fold_right Qplus m (map Height (rows df)) == inject_Z T).
    { rewrite <- HT. symmetry. apply Qsum_fold_right. }
    split; [|split].
    + eapply Forall2_impl; [|exact Hrows].
      intros r p (h & Eh & _ & _ & _ & _ & _ & Hk).
      rewrite Eh, Etotal. now apply near_thousandth.
    + rewrite (rows_annotate df m Hu).
      clear - Hrows.
      induction Hrows as [|r p l kc (h & _ & _ & H1 & H2 & H3 & _) _ IH];
        simpl; constructor; auto.
    + exact Hindex.
Qed.

Lemma Forall2_In_l {A B : Type} (P : A -> B -> Prop) (l : list A) (l' : list B) :
  Forall2 P l l' -> Forall2 (fun a b => In a l /\ P a b) l l'.
Proof.
  intros H.
  assert (G : forall l0, (forall a, In a l -> In a l0) ->
              Forall2 (fun a b => In a l0 /\ P a b) l l').
  { induction H as [|a b l l' Hab _ IH]; intros l0 Hl0; constructor.
    - split; [apply Hl0; now left | exact Hab].
    - apply IH. intros x Hx. apply Hl0. now right. }
  apply G. auto.
Qed.

(** a normalized height with the weight 1 is its own normalized peak *)
Lemma weighted_by_one (a : num) :
  (forall k : Z, Num.round a = Fin (k # 1000) -> (Z.abs k <= 2 ^ 40)%Z) ->
  Num.round (Num.mul (Num.round a) (Num.of_Z 1)) = Num.round a.
Proof.
  intros Hk. destruct a as [q| | |]; try reflexivity.
  cbn [Num.round] in *. unfold Num.of_Z. cbn [Num.mul Num.round].
  f_equal. unfold round3 at 2 3.
  set (k := rint (Float64.mul q 1000)).
  rewrite (round3_mul_thousandth k 1).
  - now rewrite Z.mul_1_r.
  - rewrite Z.mul_1_r. apply Hk. reflexivity.
  - simpl. lia.
Qed.

(** C10, as the code has it.  In every frame the calculator annotates, a
    peak whose height is the largest of its subset (the first such peak and
    any peak tied with it) has [change_from_main = 1], and its normalized
    peak is its normalized height (a normalized height beyond 2^40
    thousandths apart).  That value need not be positive.  For heights and
    modal heights that are counts (below 2^40, the modal height positive,
    labels from 0 below 4096) it is a thousandth [k/1000] that is not
    negative, that is positive when the height is more than a 2000th of
    the total and 0 when it is less; and the index of the region is the sum
    of the thousandths [k*c/1000] over the peaks, in which such a peak
    stands with its own [k]. *)
Theorem C10_maximum_peaks_weigh_one (fs : list DataFrame) (mh : list Q) :
  (List.length fs <= List.length mh)%nat ->
  Forall unique_index fs ->
  Forall summable fs ->
  exists out idx,
    calc_instability_index fs mh = Ok (out, idx)
    /\ forall i df m,
         nth_error fs i = Some df -> nth_error mh i = Some m ->
         exists df' instability_index,
           nth_error out i = Some df'
           /\ nth_error idx i = Some instability_index
           /\ Forall2
                (fun r r' =>
                   (forall x, In x (rows df) -> Height x <= Height r) ->
                   cell_change_from_main r' = Num.of_Z 1
                   /\ ((forall k : Z,
                          cell_normalized_Height r' = Fin (k # 1000) ->
                          (Z.abs k <= 2 ^ 40)%Z) ->
                       cell_normalized_Peak r' = cell_normalized_Height r'))
                (rows df) (rows df')
           /\ (ordinary df m ->
               exists thousandths,
                 Forall2
                   (fun r' kc =>
                      cell_normalized_Height r' = Fin (fst kc # 1000)
                      /\ cell_change_from_main r' = Num.of_Z (snd kc)
                      /\ cell_normalized_Peak r' = Fin ((fst kc * snd kc) # 1000)
                      /\ (0 <= fst kc <= 1000)%Z)
                   (rows df') thousandths
                 /\ Forall2
                      (fun r kc =>
                         ((forall x, In x (rows df) -> Height x <= Height r) ->
                          snd kc = 1%Z)
                         /\ (fold_right Qplus m (map Height (rows df))
                             < 2000 * Height r -> (0 < fst kc)%Z)
                         /\ (2000 * Height r
                             < fold_right Qplus m (map Height (rows df)) ->
                             fst kc = 0%Z))
                      (rows df) thousandths
                 /\ instability_index
                    = Fin (fold_right Z.add 0%Z
                             (map (fun kc => (fst kc * snd kc)%Z) thousandths)
                           # 1000)).
Proof.
  intros Hlen Hnd Hs.
  eexists. eexists. split; [now apply calc_instability_index_Ok|].
  intros i df m Hdf Hm.
  destruct (nth_error_annotate fs mh i df Hlen Hdf) as (m' & Hm' & Hout & Hidx).
  rewrite Hm in Hm'. inversion Hm'; subst m'.
  exists (annotate df m), (index_of (annotate df m)).
  split; [assumption|]. split; [assumption|].
  pose proof (unique_index_nth fs i df Hnd Hdf) as Hu.
  assert (Hone : forall r, In r (rows df) ->
             (forall x, In x (rows df) -> Height x <= Height r) ->
             weight df r = Num.of_Z 1).
  { intros r Hin Hmax.
    destruct (weight_spec df r Hu Hin) as (rmax & rcur & Hfm & Hfc & _ & _ & Hw).
    rewrite (first_maximum_is_first_with_height (rows df) r rmax rcur Hin Hmax Hfm Hfc)
      in Hw.
    now replace (label rmax - label rmax + 1)%Z with 1%Z in Hw by lia. }
  split.
  - rewrite (rows_annotate df m Hu).
    apply Forall2_map_r. intros r Hin Hmax.
    unfold annotate_row.
    cbn [cell_change_from_main cell_normalized_Height cell_normalized_Peak].
    rewrite (Hone r Hin Hmax). split; [reflexivity|].
    apply weighted_by_one.
  - intros Ho.
    destruct (annotate_ordinary df m Hu Ho) as (T & kc & HT & HT0 & Hrows & Hindex).
    assert (Etotal : fold_right Qplus m (map Height (rows df)) == inject_Z T).
    { rewrite <- HT. symmetry. apply Qsum_fold_right. }
    exists kc. split; [|split].
    + rewrite (rows_annotate df m Hu).
      clear - Hrows.
      induction Hrows as [|r p l kc (h & _ & _ & H1 & H2 & H3 & H4 & _) _ IH];
        simpl; constructor; [|assumption].
      repeat split; try assumption; lia.
    + pose proof (Forall2_In_l _ _ _ Hrows) as Hboth.
      eapply Forall2_impl; [|exact Hboth].
      intros r p [Hr (h & Eh & Hh & _ & Hc & _ & Hk1 & Hk2)]. split; [|split].
      * intros Hmax. pose proof (Hone r Hr Hmax) as Hw.
        unfold annotate_row in Hc. cbn [cell_change_from_main] in Hc.
        rewrite Hw in Hc. unfold Num.of_Z, inject_Z in Hc. congruence.
      * rewrite Etotal, Eh. intros Hlt.
        assert (Hz : (T < 2000 * h)%Z).
        { rewrite Zlt_Qlt, inject_Z_mult. exact Hlt. }
        nia.
      * rewrite Etotal, Eh. intros Hlt.
        assert (Hz : (2000 * h < T)%Z).
        { rewrite Zlt_Qlt, inject_Z_mult. exact Hlt. }
        nia.
    + exact Hindex.
Qed.

(** C10, as the claim states it, fails: with a modal height of zero the
    selector keeps peaks of height zero, the two peaks hold the largest
    height and have [change_from_main = 1], but their normalized height is
    nan and so is their normalized peak: they add nothing to the index,
    which is 0. *)
Lemma C10_counterexample :
  exp_peak_subset [mkRegion "peaks.txt" "HTT" 0 180] [zero_subset]
  = Ok ([zero_subset], [0])
  /\ exists out,
       calc_instability_index [zero_subset] [0] = Ok (out, [Fin (0 # 1000)])
       /\ map (map Height) (map rows out) = [[0; 0]]
       /\ map (map cell_change_from_main) (map rows out) = [[Fin 1; Fin 1]]
       /\ map (map cell_normalized_Height) (map rows out) = [[NaN; NaN]]
       /\ map (map cell_normalized_Peak) (map rows out) = [[NaN; NaN]]
       /\ ~ (forall cells,
               In cells (map (map cell_normalized_Peak) (map rows out)) ->
               forall v, In v cells -> exists q, v = Fin q /\ 0 < q).
Proof.
  split; [vm_compute; reflexivity|].
  eexists. split; [vm_compute; reflexivity|].
  split; [vm_compute; reflexivity|]. split; [vm_compute; reflexivity|].
  split; [vm_compute; reflexivity|]. split; [vm_compute; reflexivity|].
  intros H.
  destruct (H [NaN; NaN] (or_introl eq_refl) NaN (or_introl eq_refl))
    as (q & Hq & _).
  discriminate.
Qed.

Lemma traverse_Ok_inv {A B : Type} (f : A -> result B) (l : list A) (r : list B) :
  traverse f l = Ok r -> forall a, In a l -> exists b, f a = Ok b.
Proof.
  revert r. induction l as [|x l IH]; simpl; intros r H a Ha; [contradiction|].
  destruct (f x) as [b|e] eqn:E; simpl in H; [|discriminate].
  destruct (traverse f l) as [r'|e] eqn:E'; simpl in H; [|discriminate].
  destruct Ha as [<- | Ha]; [now exists b | now apply (IH r')].
Qed.

Lemma traverse_Raise_only {A B : Type} (f : A -> result B) (l : list A)
  (a : A) (e : string) :
  In a l -> f a = Raise e ->
  (forall b e', In b l -> f b = Raise e' -> e' = e) ->
  traverse f l = Raise e.
Proof.
  intros Ha Hfa Honly.
  destruct (traverse f l) as [r|e'] eqn:E.
  - destruct (traverse_Ok_inv f l r E a Ha) as (b & Hb). congruence.
  - destruct (traverse_Raise f l e' E) as (b & Hb & Hfb).
    now rewrite (Honly b e' Hb Hfb).
Qed.

Lemma instability_value_Raise (df : DataFrame) (e : string) :
  instability_value df = Raise e -> e = "AttributeError".
Proof.
  unfold instability_value, Frame.getattr.
  destruct (Frame.has_column normalized_Peak df); simpl; congruence.
Qed.

(** C2.  The calculator fails on a list that holds an empty subset: the
    row loops do not run for it, the column [normalized_Peak] is never
    created, and the last loop raises AttributeError on reading it; no index
    is returned for any region of the list.  The claim (the index of such a
    region is 0 and nothing fails) does not hold of the code. *)
Theorem C2_empty_subset_raises (fs : list DataFrame) (mh : list Q) (i : nat)
  (df : DataFrame) :
  (List.length fs <= List.length mh)%nat ->
  Forall unique_index fs ->
  nth_error fs i = Some df ->
  rows df = [] ->
  has_normalized_Peak df = false ->
  calc_instability_index fs mh = Raise "AttributeError".
Proof.
  intros Hlen Hnd Hdf Hrows Hcol.
  rewrite (calc_instability_index_eq fs mh Hlen Hnd).
  destruct (nth_error_annotate fs mh i df Hlen Hdf) as (m & _ & Hout & _).
  rewrite (traverse_Raise_only instability_value _ (annotate df m) "AttributeError").
  - reflexivity.
  - eapply nth_error_In. eassumption.
  - rewrite (annotate_empty df m Hrows).
    unfold instability_value, Frame.getattr, normalized. simpl.
    now rewrite Hcol.
  - intros b e' _ Hb. now apply (instability_value_Raise b).
Qed.



Lemma summable_nonempty (fs : list DataFrame) :
  Forall (fun df => rows df <> []) fs -> Forall summable fs.
Proof. apply Forall_impl. intros df H. now left. Qed.



(** C8.  Two runs of the calculator on the same input return the same
    annotated subsets and the same indices, cell by cell and value by
    value.  The calculator writes into the frames it is given, so a second
    run finds the columns an earlier run has left: what it returns depends
    on the peaks of the frames (label, sample name, size, height, area, data
    point) and on nothing an earlier run has stored.  Two lists of frames
    holding the same peaks give the same result, whether it is a value or
    an exception; and the run over the frames a first run returns gives
    those frames and those indices again. *)
Theorem C8_second_run_identical (fs fs' : list DataFrame) (mh : list Q) :
  (List.length fs <= List.length mh)%nat ->
  Forall unique_index fs ->
  Forall2 same_input fs fs' ->
  calc_instability_index fs' mh = calc_instability_index fs mh
  /\ forall out idx,
       calc_instability_index fs mh = Ok (out, idx) ->
       calc_instability_index out mh = Ok (out, idx).
Proof.
  intros Hlen Hnd Hsame.
  destruct (zip_with_annotate_same_input fs fs' mh Hnd Hsame) as [Hnd' E].
  split.
  - rewrite (calc_instability_index_eq fs mh Hlen Hnd).
    rewrite (calc_instability_index_eq fs' mh); [|
      now rewrite <- (Forall2_length Hsame) | assumption].
    now rewrite E.
  - intros out idx Hrun.
    rewrite (calc_instability_index_eq fs mh Hlen Hnd) in Hrun.
    destruct (traverse instability_value (zip_with annotate fs mh)) as [v|e] eqn:Ev;
      simpl in Hrun; [|discriminate].
    inversion Hrun; subst out idx.
    rewrite calc_instability_index_eq.
    + rewrite (zip_with_annotate_twice fs mh Hnd), Ev. reflexivity.
    + now rewrite length_zip_with.
    + now apply unique_index_zip_with_annotate.
Qed.

Lemma rows_of_extract (name : string) (table : list RawRow) :
  forall k,
    Forall2
      (fun raw r =>
         Sample_Name r = name /\ Size r = raw_Size raw
         /\ Height r = raw_Height raw /\ Area r = raw_Area raw
         /\ Data_Point r = raw_Data_Point raw)
      table (map (set_Sample_Name name) (project_from k table))
    /\ map label (map (set_Sample_Name name) (project_from k table))
       = map Z.of_nat (seq k (List.length table)).
Proof.
  induction table as [|raw table IH]; intros k; simpl.
  - split; [constructor | reflexivity].
  - destruct (IH (S k)) as [Hrows Hlabels]. split.
    + constructor; [repeat split | exact Hrows].
    + now rewrite Hlabels.
Qed.

(** C9.  When every path of the sample key can be read as a peak table,
    [extract_files] returns one frame per line of the key, at the position
    of the line.  The rows of the frame are the lines of the table in their
    order, numbered from 0, with the four numeric columns of the table, with
    the region name of the key line as sample name in every row (the table's
    own sample file name is dropped), and with no other column. *)
Theorem C9_extract_files (files : string -> result Table)
  (sample_df : list RegionDescriptor) :
  (forall d, In d sample_df ->
     exists table, files (source_path d) = Ok (peak_table table)) ->
  exists df_list,
    extract_files files sample_df = Ok df_list
    /\ List.length df_list = List.length sample_df
    /\ forall i d table,
         nth_error sample_df i = Some d ->
         files (source_path d) = Ok (peak_table table) ->
         exists df,
           nth_error df_list i = Some df
           /\ Forall2
                (fun raw r =>
                   Sample_Name r = region_name d
                   /\ Size r = raw_Size raw
                   /\ Height r = raw_Height raw
                   /\ Area r = raw_Area raw
                   /\ Data_Point r = raw_Data_Point raw)
                table (rows df)
           /\ Frame.index df = map Z.of_nat (seq 0 (List.length table))
           /\ (forall c, Frame.has_column c df = false).
Proof.
  intros Hfiles.
  exists (map (extracted_frame files) sample_df).
  split.
  { rewrite extract_files_eq. apply traverse_Ok. intros d Hd.
    unfold extract_one, read_csv, extracted_frame, table_of.
    destruct (Hfiles d Hd) as [table ->]. reflexivity. }
  split; [apply length_map|].
  intros i d table Hd Htable.
  exists (extracted_frame files d). split; [now apply map_nth_error|].
  unfold extracted_frame, table_of. rewrite Htable. cbn [rows].
  destruct (rows_of_extract (region_name d) table 0) as [Hrows Hlabels].
  repeat split; try assumption. now intros [].
Qed.

Lemma is_expansion_peak_iff (thr mh ms : Q) (r : Row) :
  is_expansion_peak thr mh ms r = true
  <-> thr <= Float64.nearest (Height r) /\ Height r <= mh /\ ms < Size r.
Proof.
  unfold is_expansion_peak. rewrite !andb_true_iff, !Qle_bool_iff, Qltb_lt.
  tauto.
Qed.





(** C3, as the code has it.  In the scenario (modal height 1000, modal
    size 180, peaks of size 185, 190, 195 and height 50, 20, 5) the selector
    keeps the first two peaks, the third being lower than the threshold 10;
    the total signal mass is 1070, the normalized heights are 0.047 and
    0.019, the weights 1 and 2, the normalized peaks 0.047 and 0.038, and
    the index is 0.085. *)
Theorem C3_scenario :
  exists samples subsets out,
    extract_files scenario_files scenario_key = Ok samples
    /\ exp_peak_subset scenario_key samples = Ok (subsets, [1000])
    /\ map (map (fun r => (Size r, Height r))) (map rows subsets)
       = [[(185, 50); (190, 20)]]
    /\ (exists fs1, sum_of_heights subsets [1000] = Ok (fs1, [1070]))
    /\ calc_instability_index subsets [1000] = Ok (out, [Fin 0.085])
    /\ pipeline scenario_files scenario_key = Ok (out, [Fin 0.085])
    /\ map (map cell_normalized_Height) (map rows out) = [[Fin 0.047; Fin 0.019]]
    /\ map (map cell_change_from_main) (map rows out) = [[Fin 1; Fin 2]]
    /\ map (map cell_normalized_Peak) (map rows out) = [[Fin 0.047; Fin 0.038]].
Proof.
  eexists. eexists. eexists.
  split; [vm_compute; reflexivity|].
  split; [vm_compute; reflexivity|].
  split; [vm_compute; reflexivity|].
  split; [eexists; vm_compute; reflexivity|].
  split; [vm_compute; reflexivity|].
  repeat split; vm_compute; reflexivity.
Qed.

(** C3, as the claim states it, fails: the selector does not keep three
    peaks, the total is not 1075 and the index is not 0.042; and on the
    three peaks together the weights would be 1, 2, 3, not 1, 0, -1. *)
Lemma C3_counterexample :
  ~ (exists samples subsets out,
       extract_files scenario_files scenario_key = Ok samples
       /\ exp_peak_subset scenario_key samples = Ok (subsets, [1000])
       /\ map (map (fun r => (Size r, Height r))) (map rows subsets)
          = [[(185, 50); (190, 20); (195, 5)]]
       /\ (exists fs1, sum_of_heights subsets [1000] = Ok (fs1, [1075]))
       /\ calc_instability_index subsets [1000] = Ok (out, [Fin 0.042])
       /\ map (map cell_normalized_Height) (map rows out)
          = [[Fin 0.047; Fin 0.019; Fin 0.005]]
       /\ map (map cell_change_from_main) (map rows out)
          = [[Fin 1; Fin 0; Fin (-1)]]
       /\ map (map cell_normalized_Peak) (map rows out)
          = [[Fin 0.047; Fin 0.000; Fin (-0.005)]])
  /\ (exists out idx,
        calc_instability_index [scenario_unselected] [1000] = Ok (out, idx)
        /\ map (map cell_change_from_main) (map rows out)
           = [[Fin 1; Fin 2; Fin 3]]).
Proof.
  split.
  - intros (samples & subsets & out & He & Hs & Hrows & _).
    vm_compute in He. inversion He; subst samples.
    vm_compute in Hs. inversion Hs; subst subsets.
    vm_compute in Hrows. discriminate.
  - eexists. eexists. split; vm_compute; reflexivity.
Qed.

(** * The claims at concrete inputs *)

Ltac unique_index_by_computation :=
  unfold unique_index, Frame.index; simpl; repeat constructor; simpl;
  intuition discriminate.


Ltac count_by_computation :=
  eexists; split; [reflexivity | split; [discriminate | reflexivity]].

Ltac counted_by_computation :=
  unfold counted; split; [repeat constructor; count_by_computation|];
  split; [count_by_computation | simpl; lia].

Ltac ordinary_by_computation :=
  unfold ordinary; split; [counted_by_computation|];
  split; [reflexivity | repeat constructor; simpl; lia].

(** C6 at a subset with tied heights and modal height 100. *)
Lemma C6_witness :
  ordinary tied_subset 100
  /\ exists out idx,
       calc_instability_index [tied_subset] [100] = Ok (out, idx)
       /\ forall i df m,
            nth_error [tied_subset] i = Some df -> nth_error [100] i = Some m ->
            exists df' instability_index,
              nth_error out i = Some df'
              /\ nth_error idx i = Some instability_index
              /\ Forall
                   (fun r' =>
                      (forall q, cell_normalized_Height r' = Fin q ->
                                 exists k : Z, q = k # 1000)
                      /\ (forall q, cell_normalized_Peak r' = Fin q ->
                                    exists k : Z, q = k # 1000))
                   (rows df')
              /\ (forall q, instability_index = Fin q ->
                            exists k : Z, q = k # 1000)
              /\ (ordinary df m ->
                  exists thousandths,
                    Forall2
                      (fun r kc =>
                         Qabs ((fst kc # 1000)
                               - Height r
                                 / fold_right Qplus m (map Height (rows df)))
                         <= 1 # 2000)
                      (rows df) thousandths
                    /\ Forall2
                         (fun r' kc =>
                            cell_normalized_Height r' = Fin (fst kc # 1000)
                            /\ cell_change_from_main r' = Num.of_Z (snd kc)
                            /\ cell_normalized_Peak r'
                               = Fin ((fst kc * snd kc) # 1000))
                         (rows df') thousandths
                    /\ instability_index
                       = Fin (fold_right Z.add 0%Z
                                (map (fun kc => (fst kc * snd kc)%Z)
                                   thousandths)
                              # 1000)).
Proof.
  split; [ordinary_by_computation|].
  apply (C6_rounding_at_each_step [tied_subset] [100]).
  - simpl. lia.
  - constructor; [|constructor]. unique_index_by_computation.
  - constructor; [|constructor]. left. discriminate.
Defined.

(** C10 at a subset in which two peaks hold the largest height. *)
Lemma C10_witness :
  ordinary tied_subset 100
  /\ exists out idx,
       calc_instability_index [tied_subset] [100] = Ok (out, idx)
       /\ forall i df m,
            nth_error [tied_subset] i = Some df -> nth_error [100] i = Some m ->
            exists df' instability_index,
              nth_error out i = Some df'
              /\ nth_error idx i = Some instability_index
              /\ Forall2
                   (fun r r' =>
                      (forall x, In x (rows df) -> Height x <= Height r) ->
                      cell_change_from_main r' = Num.of_Z 1
                      /\ ((forall k : Z,
                             cell_normalized_Height r' = Fin (k # 1000) ->
                             (Z.abs k <= 2 ^ 40)%Z) ->
                          cell_normalized_Peak r' = cell_normalized_Height r'))
                   (rows df) (rows df')
              /\ (ordinary df m ->
                  exists thousandths,
                    Forall2
                      (fun r' kc =>
                         cell_normalized_Height r' = Fin (fst kc # 1000)
                         /\ cell_change_from_main r' = Num.of_Z (snd kc)
                         /\ cell_normalized_Peak r'
                            = Fin ((fst kc * snd kc) # 1000)
                         /\ (0 <= fst kc <= 1000)%Z)
                      (rows df') thousandths
                    /\ Forall2
                         (fun r kc =>
                            ((forall x, In x (rows df) -> Height x <= Height r) ->
                             snd kc = 1%Z)
                            /\ (fold_right Qplus m (map Height (rows df))
                                < 2000 * Height r -> (0 < fst kc)%Z)
                            /\ (2000 * Height r
                                < fold_right Qplus m (map Height (rows df)) ->
                                fst kc = 0%Z))
                         (rows df) thousandths
                    /\ instability_index
                       = Fin (fold_right Z.add 0%Z
                                (map (fun kc => (fst kc * snd kc)%Z)
                                   thousandths)
                              # 1000)).
Proof.
  split; [ordinary_by_computation|].
  apply (C10_maximum_peaks_weigh_one [tied_subset] [100]).
  - simpl. lia.
  - constructor; [|constructor]. unique_index_by_computation.
  - constructor; [|constructor]. left. discriminate.
Defined.

(** C5 at a list of two subsets, the second one empty. *)
Lemma C5_witness :
  exists fs1 height_sum,
    sum_of_heights [tied_subset; empty_subset] [100; 1000] = Ok (fs1, height_sum)
    /\ List.length height_sum = List.length [tied_subset; empty_subset]
    /\ forall i df m,
         nth_error [tied_subset; empty_subset] i = Some df ->
         nth_error [100; 1000] i = Some m ->
         exists total,
           nth_error height_sum i = Some total
           /\ total == fold_right Qplus m (map Height (rows df))
           /\ (rows df = [] -> total == m)
           /\ exists T : Z, total = inject_Z T /\ (0 <= T < 2 ^ 53)%Z.
Proof.
  apply (C5_total_signal_mass [tied_subset; empty_subset] [100; 1000]).
  - simpl. lia.
  - intros [|[|i]] df m Hdf Hm; [| |destruct i; discriminate];
      inversion Hdf; subst df; inversion Hm; subst m; counted_by_computation.
Defined.

(** C2 at a list of two subsets, the second one empty. *)
Lemma C2_witness :
  calc_instability_index [tied_subset; empty_subset] [100; 1000]
  = Raise "AttributeError".
Proof.
  apply (C2_empty_subset_raises [tied_subset; empty_subset] [100; 1000] 1
           empty_subset).
  - simpl. lia.
  - constructor; [|constructor; [|constructor]].
    + unique_index_by_computation.
    + unfold unique_index, Frame.index. simpl. constructor.
  - reflexivity.
  - reflexivity.
  - reflexivity.
Defined.


(** C9 at the sample key and the peak table of the scenario. *)
Lemma C9_witness :
  exists df_list,
    extract_files scenario_files scenario_key = Ok df_list
    /\ List.length df_list = List.length scenario_key
    /\ forall i d table,
         nth_error scenario_key i = Some d ->
         scenario_files (source_path d) = Ok (peak_table table) ->
         exists df,
           nth_error df_list i = Some df
           /\ Forall2
                (fun raw r =>
                   Sample_Name r = region_name d
                   /\ Size r = raw_Size raw
                   /\ Height r = raw_Height raw
                   /\ Area r = raw_Area raw
                   /\ Data_Point r = raw_Data_Point raw)
                table (rows df)
           /\ Frame.index df = map Z.of_nat (seq 0 (List.length table))
           /\ (forall c, Frame.has_column c df = false).
Proof.
  apply (C9_extract_files scenario_files scenario_key).
  intros d [<- | []]. eexists. vm_compute. reflexivity.
Defined.


(** C8 at a subset with tied heights: the run over the frames an earlier
    run with another modal height has annotated, and the run over the
    frames the first run returns. *)
Lemma C8_witness :
  calc_instability_index tied_stale [100]
  = calc_instability_index [tied_subset] [100]
  /\ calc_instability_index [tied_subset] [100] = Ok tied_annotated
  /\ calc_instability_index (fst tied_annotated) [100] = Ok tied_annotated.
Proof.
  assert (Hrun : calc_instability_index [tied_subset] [100]
                 = Ok (fst tied_annotated, snd tied_annotated))
    by (vm_compute; reflexivity).
  destruct (C8_second_run_identical [tied_subset] tied_stale [100])
    as [Hsame Hagain].
  - simpl. lia.
  - constructor; [|constructor]. unique_index_by_computation.
  - constructor; [|constructor].
    split; [vm_compute; reflexivity | discriminate].
  - split; [exact Hsame|]. split; [exact Hrun|].
    exact (Hagain (fst tied_annotated) (snd tied_annotated) Hrun).
Defined.

(** * Further properties of the three functions *)

(** ** Errors of the list arguments *)

Lemma traverse_first_Raise {A B : Type} (f : A -> result B)
  (before after : list A) (a : A) (e : string) :
  (forall b, In b before -> exists v, f b = Ok v) ->
  f a = Raise e ->
  traverse f (before ++ a :: after) = Raise e.
Proof.
  intros Hb Ha. induction before as [|b before IH]; simpl.
  - now rewrite Ha.
  - destruct (Hb b (or_introl eq_refl)) as [v ->]. simpl.
    rewrite IH; [reflexivity|]. intros x Hx. apply Hb. now right.
Qed.

Lemma extract_one_readable files (d : RegionDescriptor) (table : list RawRow) :
  files (source_path d) = Ok (peak_table table) ->
  extract_one files d = Ok (extracted_frame files d).
Proof.
  intros H. unfold extract_one, read_csv, extracted_frame, table_of.
  now rewrite H.
Qed.

(** the exception of a line of the key: the one [read_csv] raises, or the
    KeyError of a table without the five columns *)
Lemma extract_one_Raise files (d : RegionDescriptor) (e : string) :
  extract_one files d = Raise e
  <-> files (source_path d) = Raise e
      \/ (files (source_path d) = Ok other_table /\ e = "KeyError").
Proof.
  unfold extract_one, read_csv.
  destruct (files (source_path d)) as [[lines|]|e']; simpl; split;
    try discriminate; try (intros [H | [H _]]; discriminate).
  - intros [= <-]. right. now split.
  - intros [H | [_ ->]]; [discriminate | reflexivity].
  - intros [= <-]. now left.
  - intros [[= ->] | [H _]]; [reflexivity | discriminate].
Qed.

(** X1.  The first line of the sample key whose path cannot be read as a
    peak table stops [extract_files], wherever the line stands in the key,
    with the exception [pd.read_csv] raises at that path
    (FileNotFoundError for a path that does not exist) or, when the table
    read lacks one of the five columns, with KeyError: no frame is returned
    for the other lines. *)
Theorem X1_extract_files_unreadable (files : string -> result Table)
  (before after : list RegionDescriptor) (d : RegionDescriptor) (e : string) :
  (forall b, In b before ->
     exists table, files (source_path b) = Ok (peak_table table)) ->
  files (source_path d) = Raise e
  \/ (files (source_path d) = Ok other_table /\ e = "KeyError") ->
  extract_files files (before ++ d :: after) = Raise e.
Proof.
  intros Hbefore Hd. rewrite extract_files_eq.
  apply traverse_first_Raise.
  - intros b Hb. destruct (Hbefore b Hb) as [table Ht].
    eexists. now apply (extract_one_readable files b table).
  - now apply extract_one_Raise.
Qed.

(** X1 at a key with an absent path and with a path holding a table
    without the five columns, in both orders. *)
Lemma X1_witness :
  extract_files mixed_files
    ([mkRegion "peaks.txt" "HTT" 1000 180]
     ++ mkRegion "absent.txt" "DRPLA" 900 150
     :: [mkRegion "notes.txt" "SCA3" 800 200])
  = Raise "FileNotFoundError"
  /\ extract_files mixed_files
       ([mkRegion "peaks.txt" "HTT" 1000 180]
        ++ mkRegion "notes.txt" "SCA3" 800 200
        :: [mkRegion "absent.txt" "DRPLA" 900 150])
     = Raise "KeyError".
Proof.
  split; apply (X1_extract_files_unreadable mixed_files).
  - intros b [<- | []]. eexists. vm_compute. reflexivity.
  - left. reflexivity.
  - intros b [<- | []]. eexists. vm_compute. reflexivity.
  - right. split; reflexivity.
Defined.

Lemma getitem_app_short {A : Type} (pre : list A) (i : nat) :
  List.length pre = i -> getitem (pre ++ []) i = Raise "IndexError".
Proof.
  intros H. apply getitem_short. rewrite app_nil_r. lia.
Qed.

Lemma exp_peak_subset_short_from (todo : list RegionDescriptor) :
  forall (ex_todo : list DataFrame) (done : list RegionDescriptor)
         (ex_done : list DataFrame) (thr : list Q) (subs : list DataFrame),
    List.length ex_done = List.length done ->
    List.length thr = List.length done ->
    (List.length ex_todo < List.length todo)%nat ->
    for_in (seq (List.length done) (List.length todo))
      (fun item '(relative_threshold, sample_subset) =>
         mh <- getitem (map modal_height (done ++ todo)) item ;;
         let relative_threshold := relative_threshold ++ [Float64.mul mh 0.01] in
         df <- getitem (ex_done ++ ex_todo) item ;;
         thr <- getitem relative_threshold item ;;
         mh <- getitem (map modal_height (done ++ todo)) item ;;
         ms <- getitem (map modal_size (done ++ todo)) item ;;
         Ok (relative_threshold,
             sample_subset ++ [select (is_expansion_peak thr mh ms) df]))
      (thr, subs)
    = Raise "IndexError".
Proof.
  induction todo as [|d todo IH]; intros ex_todo done ex_done thr subs He Ht Hlen.
  - simpl in Hlen. lia.
  - cbn [List.length seq for_in]. cbv beta iota.
    rewrite (getitem_map_app_at modal_height done d todo _ eq_refl).
    cbn [bind].
    destruct ex_todo as [|df ex_todo].
    + now rewrite (getitem_app_short ex_done _ He).
    + rewrite (getitem_app_at ex_done df ex_todo _ He). cbn [bind].
      rewrite (getitem_app_at thr _ [] _ Ht). cbn [bind].
      rewrite (getitem_map_app_at modal_size done d todo _ eq_refl).
      cbn [bind].
      rewrite (app_cons_assoc done d todo), (app_cons_assoc ex_done df ex_todo).
      rewrite <- (length_snoc done d).
      apply IH.
      * rewrite !length_snoc. now f_equal.
      * rewrite !length_snoc. now f_equal.
      * simpl in Hlen. lia.
Qed.

Lemma exp_peak_subset_short (sample_df : list RegionDescriptor)
  (extracted_files : list DataFrame) :
  (List.length extracted_files < List.length sample_df)%nat ->
  exp_peak_subset sample_df extracted_files = Raise "IndexError".
Proof.
  intros Hlen. unfold exp_peak_subset, range. rewrite length_map.
  pose proof (exp_peak_subset_short_from sample_df extracted_files [] [] [] []
                eq_refl eq_refl Hlen) as H.
  cbn [List.length app] in H. cbv zeta. cbv zeta in H. now rewrite H.
Qed.

(** X2.  [exp_peak_subset] raises IndexError when it is given fewer
    extracted frames than the sample key has lines. *)
Theorem X2_exp_peak_subset_too_few_frames (sample_df : list RegionDescriptor)
  (extracted_files : list DataFrame) :
  (List.length extracted_files < List.length sample_df)%nat ->
  exp_peak_subset sample_df extracted_files = Raise "IndexError".
Proof. apply exp_peak_subset_short. Qed.

(** X2 at a key of two lines and one frame. *)
Lemma X2_witness :
  exp_peak_subset
    [mkRegion "peaks.txt" "HTT" 1000 180; mkRegion "more.txt" "DRPLA" 900 150]
    [scenario_unselected]
  = Raise "IndexError".
Proof.
  apply X2_exp_peak_subset_too_few_frames. simpl. lia.
Defined.

Lemma sum_of_heights_short_from (todo : list DataFrame) :
  forall (mh_todo : list Q) (done : list DataFrame) (mh_done hs : list Q),
    List.length mh_done = List.length done ->
    List.length hs = List.length done ->
    (List.length mh_todo < List.length todo)%nat ->
    for_in (seq (List.length done) (List.length todo))
      (fun item '(peak_subset_list, height_sum) =>
         df <- getitem peak_subset_list item ;;
         mh <- getitem (mh_done ++ mh_todo) item ;;
         let height_sum := height_sum ++ [Qsum (map Height (rows df)) + mh] in
         df <- getitem peak_subset_list item ;;
         total <- getitem height_sum item ;;
         Ok (setitem peak_subset_list item
               (Frame.assign normalized_Height
                  (fun r => Num.round (Num.div (Height r) total)) df),
             height_sum))
      (done ++ todo, hs)
    = Raise "IndexError".
Proof.
  induction todo as [|df todo IH]; intros mh_todo done mh_done hs Hm Hh Hlen.
  - simpl in Hlen. lia.
  - cbn [List.length seq for_in]. cbv beta iota.
    rewrite (getitem_app_here done df todo). cbn [bind].
    destruct mh_todo as [|m mh_todo].
    + now rewrite (getitem_app_short mh_done _ Hm).
    + rewrite (getitem_app_at mh_done m mh_todo _ Hm). cbn [bind].
      rewrite (getitem_app_at hs _ [] _ Hh). cbn [bind].
      rewrite setitem_app_here.
      fold (total_signal_mass df m). fold (normalized df m).
      rewrite (app_cons_assoc done (normalized df m) todo).
      rewrite (app_cons_assoc mh_done m mh_todo).
      rewrite <- (length_snoc done (normalized df m)).
      apply IH.
      * rewrite !length_snoc. now f_equal.
      * rewrite !length_snoc. now f_equal.
      * simpl in Hlen. lia.
Qed.

Lemma sum_of_heights_short (fs : list DataFrame) (mh : list Q) :
  (List.length mh < List.length fs)%nat ->
  sum_of_heights fs mh = Raise "IndexError".
Proof.
  intros Hlen.
  apply (sum_of_heights_short_from fs mh [] [] [] eq_refl eq_refl Hlen).
Qed.

(** X5.  [calc_instability_index] raises IndexError when it is given fewer
    modal heights than subsets, whatever the subsets hold. *)
Theorem X5_calc_too_few_modal_heights (fs : list DataFrame) (mh : list Q) :
  (List.length mh < List.length fs)%nat ->
  calc_instability_index fs mh = Raise "IndexError".
Proof.
  intros Hlen. unfold calc_instability_index.
  now rewrite (sum_of_heights_short fs mh Hlen).
Qed.

(** X5 at two subsets and one modal height. *)
Lemma X5_witness :
  calc_instability_index [tied_subset; zero_subset] [100] = Raise "IndexError".
Proof.
  apply X5_calc_too_few_modal_heights. simpl. lia.
Defined.

Lemma zip_with_surplus {A B C : Type} (f : A -> B -> C) (l : list A)
  (l' surplus : list B) :
  (List.length l <= List.length l')%nat ->
  zip_with f l (l' ++ surplus) = zip_with f l l'.
Proof.
  revert l'. induction l as [|a l IH]; intros [|b l'] H; simpl in *;
    try reflexivity; try lia.
  rewrite IH; [reflexivity | lia].
Qed.

(** X6.  Modal heights beyond the number of subsets are never read: the
    calculator returns the same with and without them. *)
Theorem X6_calc_ignores_surplus_modal_heights (fs : list DataFrame)
  (mh surplus : list Q) :
  (List.length fs <= List.length mh)%nat ->
  calc_instability_index fs (mh ++ surplus) = calc_instability_index fs mh.
Proof.
  intros Hlen. unfold calc_instability_index.
  rewrite (sum_of_heights_Ok fs mh Hlen).
  rewrite (sum_of_heights_Ok fs (mh ++ surplus))
    by (rewrite length_app; lia).
  now rewrite !zip_with_surplus.
Qed.

(** X6 at one subset and three modal heights. *)
Lemma X6_witness :
  calc_instability_index [tied_subset] ([100] ++ [7; 8])
  = calc_instability_index [tied_subset] [100].
Proof.
  apply X6_calc_ignores_surplus_modal_heights. simpl. lia.
Defined.

(** ** What the calculator keeps and what it reads *)

Lemma traverse_length {A B : Type} (f : A -> result B) (l : list A) (r : list B) :
  traverse f l = Ok r -> List.length r = List.length l.
Proof.
  revert r. induction l as [|a l IH]; simpl; intros r H.
  - now inversion H.
  - destruct (f a); simpl in H; [|discriminate].
    destruct (traverse f l) as [r'|e]; simpl in H; [|discriminate].
    inversion H; subst. simpl. f_equal. now apply IH.
Qed.

Lemma traverse_app {A B : Type} (f : A -> result B) (l1 l2 : list A) :
  traverse f (l1 ++ l2)
  = (r1 <- traverse f l1 ;; r2 <- traverse f l2 ;; Ok (r1 ++ r2)).
Proof.
  induction l1 as [|a l1 IH]; simpl.
  - now destruct (traverse f l2).
  - destruct (f a); simpl; [|reflexivity]. rewrite IH.
    destruct (traverse f l1); simpl; [|reflexivity].
    now destruct (traverse f l2).
Qed.

Lemma zip_with_app {A B C : Type} (f : A -> B -> C) (l1 l2 : list A)
  (l1' l2' : list B) :
  List.length l1 = List.length l1' ->
  zip_with f (l1 ++ l2) (l1' ++ l2') = zip_with f l1 l1' ++ zip_with f l2 l2'.
Proof.
  revert l1'. induction l1 as [|a l1 IH]; intros [|b l1'] H; simpl in *;
    try reflexivity; try discriminate.
  rewrite IH; [reflexivity | lia].
Qed.

(** A run that returns, read back through the frames it annotates. *)
Lemma calc_instability_index_returned (fs : list DataFrame) (mh : list Q)
  (out : list DataFrame) (idx : list num) :
  (List.length fs <= List.length mh)%nat ->
  Forall unique_index fs ->
  calc_instability_index fs mh = Ok (out, idx) ->
  out = zip_with annotate fs mh /\ traverse instability_value out = Ok idx.
Proof.
  intros Hlen Hnd H. rewrite (calc_instability_index_eq fs mh Hlen Hnd) in H.
  destruct (traverse instability_value (zip_with annotate fs mh)) as [v|e] eqn:E;
    simpl in H; [|discriminate].
  inversion H; subst. now split.
Qed.

Lemma annotate_row_base (df : DataFrame) (m : Q) (r : Row) :
  label (annotate_row df m r) = label r
  /\ Sample_Name (annotate_row df m r) = Sample_Name r
  /\ Size (annotate_row df m r) = Size r
  /\ Height (annotate_row df m r) = Height r
  /\ Area (annotate_row df m r) = Area r
  /\ Data_Point (annotate_row df m r) = Data_Point r.
Proof. repeat split. Qed.

(** X7.  A run that returns gives back as many frames and as many indices
    as it was given subsets, and in every frame the same peaks in the same
    order: label, sample name, size, height, area and data point of each
    row are unchanged.  The columns [normalized_Height] and
    [normalized_Peak] exist in every returned frame. *)
Theorem X7_calc_keeps_the_peaks (fs : list DataFrame) (mh : list Q)
  (out : list DataFrame) (idx : list num) :
  (List.length fs <= List.length mh)%nat ->
  Forall unique_index fs ->
  calc_instability_index fs mh = Ok (out, idx) ->
  List.length out = List.length fs
  /\ List.length idx = List.length fs
  /\ forall i df,
       nth_error fs i = Some df ->
       exists df',
         nth_error out i = Some df'
         /\ Forall2
              (fun r r' =>
                 label r' = label r
                 /\ Sample_Name r' = Sample_Name r
                 /\ Size r' = Size r
                 /\ Height r' = Height r
                 /\ Area r' = Area r
                 /\ Data_Point r' = Data_Point r)
              (rows df) (rows df')
         /\ has_normalized_Height df' = true
         /\ has_normalized_Peak df' = true.
Proof.
  intros Hlen Hnd Hrun.
  destruct (calc_instability_index_returned fs mh out idx Hlen Hnd Hrun)
    as [-> Hidx].
  assert (Hout : List.length (zip_with annotate fs mh) = List.length fs)
    by now apply length_zip_with.
  split; [exact Hout|].
  split; [now rewrite (traverse_length _ _ _ Hidx)|].
  intros i df Hdf.
  destruct (nth_error_annotate fs mh i df Hlen Hdf) as (m & _ & Hnth & _).
  exists (annotate df m). split; [assumption|].
  pose proof (unique_index_nth fs i df Hnd Hdf) as Hu.
  split; [|split].
  - rewrite (rows_annotate df m Hu). apply Forall2_map_r.
    intros r _. apply annotate_row_base.
  - now rewrite (annotate_eq df m Hu).
  - destruct (traverse_Ok_inv _ _ _ Hidx (annotate df m)) as (v & Hv).
    { eapply nth_error_In. eassumption. }
    unfold instability_value, Frame.getattr in Hv. simpl in Hv.
    destruct (has_normalized_Peak (annotate df m)); [reflexivity|discriminate].
Qed.

(** X7 at a subset with tied heights. *)
Lemma X7_witness :
  List.length (fst tied_annotated) = 1%nat
  /\ List.length (snd tied_annotated) = 1%nat
  /\ forall i df,
       nth_error [tied_subset] i = Some df ->
       exists df',
         nth_error (fst tied_annotated) i = Some df'
         /\ Forall2
              (fun r r' =>
                 label r' = label r
                 /\ Sample_Name r' = Sample_Name r
                 /\ Size r' = Size r
                 /\ Height r' = Height r
                 /\ Area r' = Area r
                 /\ Data_Point r' = Data_Point r)
              (rows df) (rows df')
         /\ has_normalized_Height df' = true
         /\ has_normalized_Peak df' = true.
Proof.
  apply (X7_calc_keeps_the_peaks [tied_subset] [100]
           (fst tied_annotated) (snd tied_annotated)).
  - simpl. lia.
  - constructor; [|constructor]. unique_index_by_computation.
  - vm_compute. reflexivity.
Defined.

Lemma Forall2_rows_nonempty (fs fs' : list DataFrame) :
  Forall2 (fun df df' => Forall2 same_peak (rows df) (rows df')) fs fs' ->
  Forall (fun df => rows df <> []) fs ->
  Forall (fun df => rows df <> []) fs'.
Proof.
  induction 1 as [|df df' fs fs' Hd _ IH]; intros H; [constructor|].
  inversion H as [|? ? Hne Hrest]; subst. constructor; [|now apply IH].
  intros E. rewrite E in Hd. inversion Hd; subst. now apply Hne.
Qed.

(** X9.  The annotations and the index read nothing of a peak but its label
    and its height: two lists of subsets whose rows agree on labels and
    heights (and may differ in sample name, size, area, data point or in
    derived cells held before) get the same three derived cells in every
    row and the same indices. *)
Theorem X9_calc_reads_labels_and_heights (fs fs' : list DataFrame)
  (mh : list Q) :
  (List.length fs <= List.length mh)%nat ->
  Forall unique_index fs ->
  Forall (fun df => rows df <> []) fs ->
  Forall2 (fun df df' => Forall2 same_peak (rows df) (rows df')) fs fs' ->
  exists out out' idx,
    calc_instability_index fs mh = Ok (out, idx)
    /\ calc_instability_index fs' mh = Ok (out', idx)
    /\ Forall2 (fun d d' => Forall2 same_annotation (rows d) (rows d')) out out'.
Proof.
  intros Hlen Hu Hne Hsame.
  assert (Hlen' : List.length fs' = List.length fs)
    by (symmetry; eapply Forall2_length; eassumption).
  assert (Hall : Forall unique_index fs'
                 /\ Forall2 (fun d d' => Forall2 same_annotation (rows d) (rows d'))
                      (zip_with annotate fs mh) (zip_with annotate fs' mh)).
  { clear Hne Hlen'. revert mh Hlen.
    induction Hsame as [|df df' fs fs' Hd _ IH]; intros mh Hlen.
    - split; constructor.
    - inversion Hu as [|? ? Hu1 Hu2]; subst.
      destruct mh as [|m mh]; [simpl in Hlen; lia|].
      destruct (annotate_same_peak df df' m Hu1 Hd) as [Hu1' Ha].
      destruct (IH Hu2 mh) as [Hu2' Hrest]; [simpl in Hlen; lia|].
      split; constructor; assumption. }
  destruct Hall as [Hu' Hann].
  exists (zip_with annotate fs mh), (zip_with annotate fs' mh),
    (zip_with (fun df m => index_of (annotate df m)) fs mh).
  split; [apply calc_instability_index_Ok; auto using summable_nonempty|].
  split; [|exact Hann].
  rewrite calc_instability_index_Ok; auto.
  - f_equal. f_equal.
    rewrite <- !(map_zip_with index_of annotate).
    clear - Hann. induction Hann as [|d d' l l' Hd _ IH]; simpl; [reflexivity|].
    rewrite IH. f_equal. unfold index_of.
    now rewrite (same_annotation_peaks _ _ Hd).
  - lia.
  - apply summable_nonempty. now apply (Forall2_rows_nonempty fs fs').
Qed.

(** X9 at two subsets with the labels and heights of [tied_subset]. *)
Lemma X9_witness :
  exists out out' idx,
    calc_instability_index [tied_subset] [100] = Ok (out, idx)
    /\ calc_instability_index [tied_subset_other_fields] [100] = Ok (out', idx)
    /\ Forall2 (fun d d' => Forall2 same_annotation (rows d) (rows d')) out out'.
Proof.
  apply (X9_calc_reads_labels_and_heights [tied_subset]
           [tied_subset_other_fields] [100]).
  - simpl. lia.
  - constructor; [|constructor]. unique_index_by_computation.
  - constructor; [|constructor]. discriminate.
  - constructor; [|constructor]. simpl. repeat constructor.
Defined.

(** ** Peaks of equal height *)

Lemma Qeq_bool_comp_r (x h h' : Q) : h == h' -> Qeq_bool x h = Qeq_bool x h'.
Proof.
  intros H. destruct (Qeq_bool x h) eqn:E, (Qeq_bool x h') eqn:E';
    try reflexivity.
  - apply Qeq_bool_iff in E. rewrite H in E. apply Qeq_bool_iff in E. congruence.
  - apply Qeq_bool_iff in E'. rewrite <- H in E'. apply Qeq_bool_iff in E'.
    congruence.
Qed.

Lemma first_index_comp (h h' : Q) (df : DataFrame) :
  h == h' ->
  Frame.first_index_with_height h df = Frame.first_index_with_height h' df.
Proof.
  intros H. unfold Frame.first_index_with_height.
  rewrite (filter_ext _ (fun r => Qeq_bool (Height r) h')); [reflexivity|].
  intros r. now apply Qeq_bool_comp_r.
Qed.

Lemma weight_comp (df : DataFrame) (r1 r2 : Row) :
  unique_index df -> In r1 (rows df) -> In r2 (rows df) ->
  Height r1 == Height r2 -> weight df r1 = weight df r2.
Proof.
  intros Hu H1 H2 Hh. unfold weight.
  destruct (change_from_main_value_member Hu H1) as (m1 & f1 & Hm1 & Hf1 & ->).
  destruct (change_from_main_value_member Hu H2) as (m2 & f2 & Hm2 & Hf2 & ->).
  rewrite (first_index_comp _ _ df Hh), Hf2 in Hf1.
  rewrite Hm2 in Hm1. inversion Hm1. inversion Hf1. reflexivity.
Qed.

Lemma round_div_comp (h h' T : Q) :
  h == h' -> Num.round (Num.div h T) = Num.round (Num.div h' T).
Proof.
  intros H. unfold Num.div. destruct (Qeq_bool T 0).
  - now rewrite (Qcompare_comp _ _ H 0 0 (Qeq_refl 0)).
  - unfold Float64.div. now rewrite (nearest_comp h h' H).
Qed.

(** X10.  Peaks of one subset that have the same height get the same
    annotation, wherever they stand: the same normalized height, the
    [change_from_main] of the first of them, and the same normalized peak. *)
Theorem X10_tied_peaks_share_annotations (fs : list DataFrame) (mh : list Q) :
  (List.length fs <= List.length mh)%nat ->
  Forall unique_index fs ->
  Forall summable fs ->
  exists out idx,
    calc_instability_index fs mh = Ok (out, idx)
    /\ forall df' r1 r2,
         In df' out -> In r1 (rows df') -> In r2 (rows df') ->
         Height r1 == Height r2 ->
         same_annotation r1 r2.
Proof.
  intros Hlen Hnd Hs.
  eexists. eexists. split; [now apply calc_instability_index_Ok|].
  intros df' r1' r2' Hdf' H1 H2 Hh.
  apply in_zip_with_l in Hdf'. destruct Hdf' as (df & m & Hdf & ->).
  assert (Hu : unique_index df) by (rewrite Forall_forall in Hnd; now apply Hnd).
  rewrite (rows_annotate df m Hu) in H1, H2.
  apply in_map_iff in H1. destruct H1 as (r1 & <- & H1).
  apply in_map_iff in H2. destruct H2 as (r2 & <- & H2).
  simpl in Hh.
  unfold same_annotation, annotate_row. simpl.
  rewrite (weight_comp df r1 r2 Hu H1 H2 Hh).
  rewrite (round_div_comp _ _ (total_signal_mass df m) Hh).
  repeat split.
Qed.

(** X10 at a subset in which the heights 7 and 9 both occur twice. *)
Lemma X10_witness :
  exists out idx,
    calc_instability_index [tied_subset] [100] = Ok (out, idx)
    /\ forall df' r1 r2,
         In df' out -> In r1 (rows df') -> In r2 (rows df') ->
         Height r1 == Height r2 ->
         same_annotation r1 r2.
Proof.
  apply (X10_tied_peaks_share_annotations [tied_subset] [100]).
  - simpl. lia.
  - constructor; [|constructor]. unique_index_by_computation.
  - constructor; [|constructor]. left. discriminate.
Defined.

(** ** The sign of the weight, by position *)

Lemma increasing_index_unique (df : DataFrame) :
  increasing_index df -> unique_index df.
Proof.
  unfold increasing_index, unique_index. generalize (Frame.index df).
  induction 1 as [|a l _ IH Hall]; constructor; [|exact IH].
  intros Hin. rewrite Forall_forall in Hall. specialize (Hall a Hin). lia.
Qed.

Lemma increasing_after (before after : list Row) (x y : Row) :
  StronglySorted Z.lt (map label (before ++ x :: after)) ->
  In y after -> (label x < label y)%Z.
Proof.
  induction before as [|b before IH]; simpl; intros H Hin.
  - apply StronglySorted_inv in H. destruct H as [_ Hall].
    rewrite Forall_forall in Hall. apply Hall. now apply in_map.
  - apply StronglySorted_inv in H. destruct H as [H _]. now apply IH.
Qed.

Lemma first_maximum_unique (l : list Row) (a b : Row) :
  first_maximum l a -> first_maximum l b -> a = b.
Proof.
  intros (ba & aa & Ea & Hba & Haa) (bb & ab & Eb & Hbb & Hab).
  rewrite Ea in Eb.
  destruct (app_cons_eq_cases _ _ _ _ _ _ Eb) as [[_ E] | [Hin | Hin]].
  - exact E.
  - pose proof (Hbb a Hin) as Hlt.
    assert (Hb : In b (ba ++ a :: aa)).
    { rewrite Eb. apply in_or_app. right. now left. }
    apply in_app_or in Hb. destruct Hb as [Hb | [<- | Hb]].
    + pose proof (Hba b Hb). lra.
    + lra.
    + pose proof (Haa b Hb). lra.
  - pose proof (Hba b Hin) as Hlt.
    assert (Ha : In a (bb ++ b :: ab)).
    { rewrite <- Eb. apply in_or_app. right. now left. }
    apply in_app_or in Ha. destruct Ha as [Ha | [<- | Ha]].
    + pose proof (Hbb a Ha). lra.
    + lra.
    + pose proof (Hab a Ha). lra.
Qed.

Lemma first_with_height_not_later (l : list Row) (r rcur : Row) :
  StronglySorted Z.lt (map label l) ->
  In r l -> first_with_height l (Height r) rcur ->
  rcur = r \/ (label rcur < label r)%Z.
Proof.
  intros Hs Hin (bc & ac & E & Hh & Hbc).
  rewrite E in Hin, Hs. apply in_app_or in Hin.
  destruct Hin as [Hin | [-> | Hin]].
  - elim (Hbc r Hin). reflexivity.
  - now left.
  - right. eapply increasing_after; eassumption.
Qed.

(** X11.  In a subset whose labels grow from row to row (as in every
    subset the selector builds), the sign of [change_from_main] follows the
    position: a peak that stands before the first maximum gets a weight of
    0 or less, and a peak that stands after it, with a height no earlier
    peak of the subset has, gets the difference of its label and the label
    of the first maximum plus one, at least 2. *)
Theorem X11_weight_sign_by_position (fs : list DataFrame) (mh : list Q) :
  (List.length fs <= List.length mh)%nat ->
  Forall increasing_index fs ->
  Forall summable fs ->
  exists out idx,
    calc_instability_index fs mh = Ok (out, idx)
    /\ forall i df,
         nth_error fs i = Some df ->
         exists df',
           nth_error out i = Some df'
           /\ Forall2
                (fun r r' =>
                   forall rmax,
                     first_maximum (rows df) rmax ->
                     ((label r < label rmax)%Z ->
                      exists z,
                        cell_change_from_main r' = Num.of_Z z /\ (z <= 0)%Z)
                     /\ ((label rmax < label r)%Z ->
                         (forall x, In x (rows df) -> (label x < label r)%Z ->
                                    ~ Height x == Height r) ->
                         cell_change_from_main r'
                         = Num.of_Z (label r - label rmax + 1)
                         /\ (2 <= label r - label rmax + 1)%Z))
                (rows df) (rows df').
Proof.
  intros Hlen Hinc Hs.
  assert (Hnd : Forall unique_index fs).
  { eapply Forall_impl; [|exact Hinc]. apply increasing_index_unique. }
  eexists. eexists. split; [now apply calc_instability_index_Ok|].
  intros i df Hdf.
  destruct (nth_error_annotate fs mh i df Hlen Hdf) as (m & _ & Hout & _).
  exists (annotate df m). split; [assumption|].
  pose proof (unique_index_nth fs i df Hnd Hdf) as Hu.
  assert (Hsorted : increasing_index df).
  { rewrite Forall_forall in Hinc. apply Hinc. eapply nth_error_In. eassumption. }
  rewrite (rows_annotate df m Hu).
  apply Forall2_map_r. intros r Hin rmax Hmax.
  destruct (weight_spec df r Hu Hin) as (rmax' & rcur & Hfm & Hfc & _ & _ & Hw).
  rewrite (first_maximum_unique (rows df) rmax' rmax Hfm Hmax) in Hw.
  unfold annotate_row. cbn [cell_change_from_main]. rewrite Hw.
  destruct (first_with_height_not_later (rows df) r rcur Hsorted Hin Hfc)
    as [-> | Hlt].
  - split.
    + intros Hbefore. exists (label r - label rmax + 1)%Z. split; [reflexivity|lia].
    + intros Hafter _. split; [reflexivity | lia].
  - split.
    + intros Hbefore. exists (label rcur - label rmax + 1)%Z.
      split; [reflexivity | lia].
    + intros Hafter Hfresh. exfalso.
      destruct Hfc as (bc & ac & E & Hh & _).
      apply (Hfresh rcur); try assumption.
      rewrite E. apply in_or_app. right. now left.
Qed.

Ltac increasing_index_by_computation :=
  unfold increasing_index, Frame.index; simpl; repeat constructor; lia.

(** X11 at a subset with labels 3, 5, 6, 8. *)
Lemma X11_witness :
  exists out idx,
    calc_instability_index [tied_subset] [100] = Ok (out, idx)
    /\ forall i df,
         nth_error [tied_subset] i = Some df ->
         exists df',
           nth_error out i = Some df'
           /\ Forall2
                (fun r r' =>
                   forall rmax,
                     first_maximum (rows df) rmax ->
                     ((label r < label rmax)%Z ->
                      exists z,
                        cell_change_from_main r' = Num.of_Z z /\ (z <= 0)%Z)
                     /\ ((label rmax < label r)%Z ->
                         (forall x, In x (rows df) -> (label x < label r)%Z ->
                                    ~ Height x == Height r) ->
                         cell_change_from_main r'
                         = Num.of_Z (label r - label rmax + 1)
                         /\ (2 <= label r - label rmax + 1)%Z))
                (rows df) (rows df').
Proof.
  apply (X11_weight_sign_by_position [tied_subset] [100]).
  - simpl. lia.
  - constructor; [|constructor]. increasing_index_by_computation.
  - constructor; [|constructor]. left. discriminate.
Defined.

(** ** The selector on the frames of the extractor *)

Lemma traverse_nth {A B : Type} (f : A -> result B) (l : list A) (r : list B)
  (i : nat) (a : A) :
  traverse f l = Ok r -> nth_error l i = Some a ->
  exists b, f a = Ok b /\ nth_error r i = Some b.
Proof.
  revert r i. induction l as [|x l IH]; intros r i H Hi.
  - destruct i; discriminate.
  - simpl in H. destruct (f x) as [b|e] eqn:E; simpl in H; [|discriminate].
    destruct (traverse f l) as [r'|e] eqn:E'; simpl in H; [|discriminate].
    inversion H; subst. destruct i as [|i]; simpl in Hi.
    + inversion Hi; subst. now exists b.
    + now apply (IH r').
Qed.

Lemma nth_error_zip_with_inv {A B C : Type} (f : A -> B -> C) l l' i c :
  nth_error (zip_with f l l') i = Some c ->
  exists a b, nth_error l i = Some a /\ nth_error l' i = Some b /\ c = f a b.
Proof.
  revert l' i. induction l as [|x l IH]; intros [|y l'] [|i]; simpl;
    try discriminate.
  - intros [= <-]. now exists x, y.
  - apply IH.
Qed.

(** A selection that returns, read back. *)
Lemma exp_peak_subset_returned (sample_df : list RegionDescriptor)
  (extracted_files subs : list DataFrame) (mhs : list Q) :
  exp_peak_subset sample_df extracted_files = Ok (subs, mhs) ->
  (List.length sample_df <= List.length extracted_files)%nat
  /\ subs = zip_with select_one sample_df extracted_files
  /\ mhs = map modal_height sample_df.
Proof.
  intros H.
  destruct (le_lt_dec (List.length sample_df) (List.length extracted_files))
    as [Hle | Hlt].
  - rewrite (exp_peak_subset_Ok _ _ Hle) in H. inversion H. auto.
  - rewrite (exp_peak_subset_short _ _ Hlt) in H. discriminate.
Qed.

Lemma StronglySorted_of_nat (n : nat) :
  forall k, StronglySorted Z.lt (map Z.of_nat (seq k n)).
Proof.
  induction n as [|n IH]; intros k; simpl; constructor; [apply IH|].
  apply Forall_forall. intros z Hz. apply in_map_iff in Hz.
  destruct Hz as (j & <- & Hj). apply in_seq in Hj. lia.
Qed.

Lemma StronglySorted_filter {A : Type} (p : A -> bool) (f : A -> Z) (l : list A) :
  StronglySorted Z.lt (map f l) -> StronglySorted Z.lt (map f (filter p l)).
Proof.
  induction l as [|a l IH]; simpl; intros H; [constructor|].
  apply StronglySorted_inv in H. destruct H as [H Hall].
  destruct (p a); simpl; [|now apply IH].
  constructor; [now apply IH|].
  rewrite Forall_forall in *. intros z Hz. apply Hall.
  apply in_map_iff in Hz. destruct Hz as (x & <- & Hx).
  apply filter_In in Hx. apply in_map. tauto.
Qed.

Lemma extracted_rows (name : string) (table : list RawRow) (r : Row) :
  In r (map (set_Sample_Name name) (project_from 0 table)) ->
  exists j raw,
    nth_error table j = Some raw /\ label r = Z.of_nat j
    /\ Sample_Name r = name /\ Size r = raw_Size raw
    /\ Height r = raw_Height raw.
Proof.
  intros Hin. apply in_map_iff in Hin. destruct Hin as (r0 & <- & Hr0).
  destruct (project_from_nth table r0 0 Hr0) as (j & raw & Hj & Hl & Hs & Hh).
  exists j, raw. simpl. auto.
Qed.

(** X3.  On the frames of [extract_files], every subset [exp_peak_subset]
    returns has labels that grow from row to row, and each of its peaks is
    a line of the region's table: the label is the position of the line,
    size and height are those of the line, the sample name is the region
    name of the key, and the line passes the three comparisons, the first
    one against the float64 product [modal_height * 0.01]. *)
Theorem X3_selected_peaks_are_table_lines
  (files : string -> result Table) (sample_df : list RegionDescriptor)
  (samples subs : list DataFrame) (mhs : list Q) :
  extract_files files sample_df = Ok samples ->
  exp_peak_subset sample_df samples = Ok (subs, mhs) ->
  forall i d table sub,
    nth_error sample_df i = Some d ->
    files (source_path d) = Ok (peak_table table) ->
    nth_error subs i = Some sub ->
    increasing_index sub
    /\ forall r,
         In r (rows sub) ->
         exists j raw,
           nth_error table j = Some raw
           /\ label r = Z.of_nat j
           /\ Sample_Name r = region_name d
           /\ Size r = raw_Size raw
           /\ Height r = raw_Height raw
           /\ Float64.mul (modal_height d) 0.01
              <= Float64.nearest (raw_Height raw)
           /\ raw_Height raw <= modal_height d
           /\ modal_size d < raw_Size raw.
Proof.
  intros He Hs i d table sub Hd Hf Hsub.
  rewrite extract_files_eq in He.
  destruct (traverse_nth _ _ _ i d He Hd) as (df & Hdf & Hnth).
  rewrite (extract_one_readable files d table Hf) in Hdf. inversion Hdf as [Edf].
  unfold extracted_frame, table_of in Edf. rewrite Hf in Edf.
  destruct (exp_peak_subset_returned _ _ _ _ Hs) as (_ & -> & _).
  destruct (nth_error_zip_with_inv _ _ _ _ _ Hsub) as (d' & df' & Hd' & Hdf' & ->).
  rewrite Hd in Hd'. inversion Hd'; subst d'.
  rewrite Hnth in Hdf'. inversion Hdf'; subst df'. clear Hd' Hdf'.
  rewrite <- Edf. unfold select_one, select. cbn [rows]. split.
  - unfold increasing_index, Frame.index. cbn [rows].
    apply StronglySorted_filter.
    destruct (rows_of_extract (region_name d) table 0) as [_ ->].
    apply StronglySorted_of_nat.
  - intros r Hin. apply filter_In in Hin. destruct Hin as [Hin Hp].
    apply is_expansion_peak_iff in Hp.
    destruct (extracted_rows _ _ _ Hin) as (j & raw & Hj & Hl & Hn & Hsz & Hh).
    exists j, raw. rewrite <- Hsz, <- Hh. tauto.
Qed.

(** X3 at the sample key and the peak table of the scenario. *)
Lemma X3_witness :
  exists samples subs,
    extract_files scenario_files scenario_key = Ok samples
    /\ exp_peak_subset scenario_key samples = Ok (subs, [1000])
    /\ forall i d table sub,
         nth_error scenario_key i = Some d ->
         scenario_files (source_path d) = Ok (peak_table table) ->
         nth_error subs i = Some sub ->
         increasing_index sub
         /\ forall r,
              In r (rows sub) ->
              exists j raw,
                nth_error table j = Some raw
                /\ label r = Z.of_nat j
                /\ Sample_Name r = region_name d
                /\ Size r = raw_Size raw
                /\ Height r = raw_Height raw
                /\ Float64.mul (modal_height d) 0.01
              <= Float64.nearest (raw_Height raw)
                /\ raw_Height raw <= modal_height d
                /\ modal_size d < raw_Size raw.
Proof.
  eexists. eexists.
  assert (He : extract_files scenario_files scenario_key = Ok _)
    by (vm_compute; reflexivity).
  match type of He with
  | _ = Ok ?samples =>
      assert (Hs : exp_peak_subset scenario_key samples = Ok (_, [1000]))
        by (vm_compute; reflexivity)
  end.
  split; [exact He|]. split; [exact Hs|].
  exact (X3_selected_peaks_are_table_lines scenario_files scenario_key
           _ _ [1000] He Hs).
Defined.

(** with a modal height of zero the threshold is zero *)
Lemma threshold_zero_modal (mh : Q) : mh == 0 -> Float64.mul mh 0.01 = 0.
Proof.
  intros H. unfold Float64.mul.
  rewrite (nearest_comp mh 0 H), nearest_0.
  now rewrite (nearest_comp (0 * Float64.nearest 0.01) 0 (Qmult_0_l _)).
Qed.

(** with a negative modal height no height is between the threshold and
    the modal height *)
Lemma threshold_negative_modal (mh h : Q) :
  mh < 0 -> Float64.mul mh 0.01 <= Float64.nearest h -> h <= mh -> False.
Proof.
  intros Hneg Hlo Hhi. unfold Float64.mul in Hlo.
  rewrite nearest_one_percent in Hlo.
  destruct (nearest_bounds h (- h)) as [_ Hh]; [rewrite Qabs_neg; lra|].
  destruct (nearest_bounds mh (- mh)) as [HM _]; [rewrite Qabs_neg; lra|].
  pose proof (nearest_neg mh Hneg) as HM0.
  set (M := Float64.nearest mh) in *.
  assert (HP : M * one_percent < 0) by (unfold one_percent; lra).
  destruct (nearest_bounds (M * one_percent) (- (M * one_percent))) as [HT _];
    [rewrite Qabs_neg; lra|].
  set (t := Float64.nearest (M * one_percent)) in *.
  set (x := Float64.nearest h) in *.
  unfold one_percent, unit_roundoff in *. lra.
Qed.

Lemma selected_bounds (d : RegionDescriptor) (df : DataFrame) (r : Row) :
  In r (rows (select_one d df)) ->
  In r (rows df)
  /\ Float64.mul (modal_height d) 0.01 <= Float64.nearest (Height r)
  /\ Height r <= modal_height d
  /\ modal_size d < Size r.
Proof.
  unfold select_one, select. cbn [rows]. intros Hin.
  apply filter_In in Hin. destruct Hin as [Hin Hp].
  apply is_expansion_peak_iff in Hp. tauto.
Qed.

(** X4.  A modal height that is not positive leaves a degenerate subset:
    with a negative modal height [exp_peak_subset] selects no peak at all,
    and with a modal height of zero it selects only peaks of height zero. *)
Theorem X4_modal_height_not_positive (sample_df : list RegionDescriptor)
  (extracted_files subs : list DataFrame) (mhs : list Q) :
  exp_peak_subset sample_df extracted_files = Ok (subs, mhs) ->
  forall i d sub,
    nth_error sample_df i = Some d ->
    nth_error subs i = Some sub ->
    (modal_height d < 0 -> rows sub = [])
    /\ (modal_height d == 0 -> forall r, In r (rows sub) -> Height r == 0).
Proof.
  intros Hs i d sub Hd Hsub.
  destruct (exp_peak_subset_returned _ _ _ _ Hs) as (_ & -> & _).
  destruct (nth_error_zip_with_inv _ _ _ _ _ Hsub) as (d' & df & Hd' & _ & ->).
  rewrite Hd in Hd'. inversion Hd'; subst d'. split.
  - intros Hneg. destruct (rows (select_one d df)) as [|r l] eqn:E; [reflexivity|].
    assert (Hin : In r (rows (select_one d df))) by (rewrite E; now left).
    apply selected_bounds in Hin. destruct Hin as (_ & Hlo & Hhi & _).
    exfalso. apply (threshold_negative_modal (modal_height d) (Height r));
      assumption.
  - intros Hzero r Hin.
    apply selected_bounds in Hin. destruct Hin as (_ & Hlo & Hhi & _).
    rewrite (threshold_zero_modal _ Hzero) in Hlo.
    destruct (Qlt_le_dec (Height r) 0) as [Hlt | Hge].
    + pose proof (nearest_neg _ Hlt). lra.
    + rewrite Hzero in Hhi. lra.
Qed.

(** X4 at the peaks of the scenario, with modal heights -5 and 0. *)
Lemma X4_witness :
  exists subs,
    exp_peak_subset
      [mkRegion "a.txt" "HTT" (-5) 180; mkRegion "b.txt" "DRPLA" 0 180]
      [scenario_unselected; zero_subset]
    = Ok (subs, [-5; 0])
    /\ forall i d sub,
         nth_error
           [mkRegion "a.txt" "HTT" (-5) 180; mkRegion "b.txt" "DRPLA" 0 180] i
         = Some d ->
         nth_error subs i = Some sub ->
         (modal_height d < 0 -> rows sub = [])
         /\ (modal_height d == 0 ->
             forall r, In r (rows sub) -> Height r == 0).
Proof.
  eexists.
  assert (Hs : exp_peak_subset
                 [mkRegion "a.txt" "HTT" (-5) 180; mkRegion "b.txt" "DRPLA" 0 180]
                 [scenario_unselected; zero_subset]
               = Ok (_, [-5; 0]))
    by (vm_compute; reflexivity).
  split; [exact Hs|].
  exact (X4_modal_height_not_positive _ _ _ _ Hs).
Defined.

Lemma filter_twice {A : Type} (p : A -> bool) (l : list A) :
  filter p (filter p l) = filter p l.
Proof.
  induction l as [|a l IH]; simpl; [reflexivity|].
  destruct (p a) eqn:E; simpl; [rewrite E|]; now rewrite ?IH.
Qed.

Lemma select_one_twice (d : RegionDescriptor) (df : DataFrame) :
  select_one d (select_one d df) = select_one d df.
Proof.
  unfold select_one, select. cbn [rows has_normalized_Height
    has_change_from_main has_normalized_Peak].
  now rewrite filter_twice.
Qed.

Lemma zip_with_select_twice (sample_df : list RegionDescriptor)
  (extracted_files : list DataFrame) :
  zip_with select_one sample_df (zip_with select_one sample_df extracted_files)
  = zip_with select_one sample_df extracted_files.
Proof.
  revert extracted_files.
  induction sample_df as [|d l IH]; intros [|df ex]; simpl; try reflexivity.
  now rewrite select_one_twice, IH.
Qed.

(** X18.  Selecting again changes nothing: [exp_peak_subset] applied, with
    the same sample key, to the subsets it returned gives the same subsets
    and the same modal heights. *)
Theorem X18_selecting_again (sample_df : list RegionDescriptor)
  (extracted_files subs : list DataFrame) (mhs : list Q) :
  exp_peak_subset sample_df extracted_files = Ok (subs, mhs) ->
  exp_peak_subset sample_df subs = Ok (subs, mhs).
Proof.
  intros H.
  destruct (exp_peak_subset_returned _ _ _ _ H) as (Hlen & -> & ->).
  rewrite exp_peak_subset_Ok by (rewrite length_zip_with; lia).
  now rewrite zip_with_select_twice.
Qed.

(** X18 at the region and the three peaks of the scenario. *)
Lemma X18_witness :
  exists subs,
    exp_peak_subset scenario_key [scenario_unselected] = Ok (subs, [1000])
    /\ exp_peak_subset scenario_key subs = Ok (subs, [1000]).
Proof.
  eexists.
  assert (Hs : exp_peak_subset scenario_key [scenario_unselected]
               = Ok (_, [1000]))
    by (vm_compute; reflexivity).
  split; [exact Hs|].
  exact (X18_selecting_again scenario_key [scenario_unselected] _ [1000] Hs).
Defined.

(** ** Bounds on the normalized heights *)

Lemma zip_with_select_annotate (sample_df : list RegionDescriptor)
  (extracted_files : list DataFrame) :
  zip_with annotate (zip_with select_one sample_df extracted_files)
    (map modal_height sample_df)
  = zip_with (fun d df => annotate (select_one d df) (modal_height d))
      sample_df extracted_files.
Proof.
  revert extracted_files.
  induction sample_df as [|d l IH]; intros [|df ex]; simpl; try reflexivity.
  now rewrite IH.
Qed.

Lemma unique_index_select_one (d : RegionDescriptor) (df : DataFrame) :
  unique_index df -> unique_index (select_one d df).
Proof.
  unfold unique_index, Frame.index, select_one, select. cbn [rows].
  apply NoDup_filter.
Qed.

Lemma unique_index_zip_with_select (sample_df : list RegionDescriptor)
  (extracted_files : list DataFrame) :
  Forall unique_index extracted_files ->
  Forall unique_index (zip_with select_one sample_df extracted_files).
Proof.
  intros H. apply Forall_forall. intros sub Hin.
  apply in_zip_with in Hin. destruct Hin as (d & df & _ & Hdf & ->).
  apply unique_index_select_one. rewrite Forall_forall in H. now apply H.
Qed.

Lemma counted_select_one (d : RegionDescriptor) (df : DataFrame) (m : Q) :
  counted df m -> counted (select_one d df) m.
Proof.
  intros (Hrows & Hm & Hlen). unfold counted, select_one, select. cbn [rows].
  split; [|split; [exact Hm|]].
  - rewrite Forall_forall in *. intros r Hr. apply filter_In in Hr.
    now apply Hrows.
  - pose proof (filter_length_le
                  (is_expansion_peak (Float64.mul (modal_height d) 0.01)
                     (modal_height d) (modal_size d)) (rows df)).
    lia.
Qed.

(** X12.  After [exp_peak_subset] with positive modal heights, on frames
    whose heights are counts (below 2^40, at most 4096 peaks, the modal
    height a count too), every normalized height the calculator stores is a
    thousandth between 0 and 0.5: a selected peak is not higher than the
    modal peak, whose height is part of the total. *)
Theorem X12_normalized_height_at_most_half (sample_df : list RegionDescriptor)
  (extracted_files subs out : list DataFrame) (mhs : list Q) (idx : list num) :
  Forall unique_index extracted_files ->
  (forall d, In d sample_df -> 0 < modal_height d) ->
  (forall d df,
     In d sample_df -> In df extracted_files -> counted df (modal_height d)) ->
  exp_peak_subset sample_df extracted_files = Ok (subs, mhs) ->
  calc_instability_index subs mhs = Ok (out, idx) ->
  forall df' r',
    In df' out -> In r' (rows df') ->
    exists k : Z,
      cell_normalized_Height r' = Fin (k # 1000) /\ (0 <= k <= 500)%Z.
Proof.
  intros Hu Hpos Hcount Hs Hrun df' r' Hdf' Hr'.
  destruct (exp_peak_subset_returned _ _ _ _ Hs) as (Hlen & -> & ->).
  pose proof (unique_index_zip_with_select sample_df extracted_files Hu) as Hus.
  assert (Hlen' : (List.length (zip_with select_one sample_df extracted_files)
                   <= List.length (map modal_height sample_df))%nat)
    by (rewrite length_zip_with, length_map; lia).
  destruct (calc_instability_index_returned _ _ _ _ Hlen' Hus Hrun) as [-> _].
  rewrite zip_with_select_annotate in Hdf'.
  apply in_zip_with in Hdf'. destruct Hdf' as (d & df & Hd & Hdf & ->).
  assert (Hus1 : unique_index (select_one d df)).
  { apply unique_index_select_one. rewrite Forall_forall in Hu. now apply Hu. }
  rewrite (rows_annotate _ _ Hus1) in Hr'.
  apply in_map_iff in Hr'. destruct Hr' as (r & <- & Hr).
  pose proof (Hpos d Hd) as Hm.
  pose proof (counted_select_one d df _ (Hcount d df Hd Hdf)) as Hc.
  destruct (total_counted _ _ Hc) as (T & zm & HT & _).
  destruct (normalized_height_counted _ _ T r Hc Hm Hr HT)
    as (h & k & Eh & Hnh & Hh & HT0 & Hk1 & Hk2 & Hrest).
  destruct (selected_bounds d df r Hr) as (_ & _ & Hhi & _).
  exists k. unfold annotate_row. cbn [cell_normalized_Height].
  split; [exact Hnh|].
  assert (H2 : (2 * h <= T)%Z).
  { rewrite Eh in Hhi.
    assert (Hq : inject_Z h <= inject_Z T - inject_Z h)
      by (eapply Qle_trans; [exact Hhi | exact Hrest]).
    unfold Qminus in Hq.
    rewrite <- inject_Z_opp, <- inject_Z_plus, <- Zle_Qle in Hq. lia. }
  nia.
Qed.

(** X12 at the region and the three peaks of the scenario. *)
Lemma X12_witness :
  exists subs out idx,
    exp_peak_subset scenario_key [scenario_unselected] = Ok (subs, [1000])
    /\ calc_instability_index subs [1000] = Ok (out, idx)
    /\ forall df' r',
         In df' out -> In r' (rows df') ->
         exists k : Z,
           cell_normalized_Height r' = Fin (k # 1000) /\ (0 <= k <= 500)%Z.
Proof.
  eexists. eexists. eexists.
  assert (Hs : exp_peak_subset scenario_key [scenario_unselected]
               = Ok (_, [1000]))
    by (vm_compute; reflexivity).
  match type of Hs with
  | _ = Ok (?subs, _) =>
      assert (Hrun : calc_instability_index subs [1000] = Ok (_, _))
        by (vm_compute; reflexivity)
  end.
  split; [exact Hs|]. split; [exact Hrun|].
  eapply (X12_normalized_height_at_most_half scenario_key [scenario_unselected]);
    [ | | | exact Hs | exact Hrun].
  - constructor; [|constructor]. unique_index_by_computation.
  - intros d [<- | []]. reflexivity.
  - intros d df [<- | []] [<- | []]. counted_by_computation.
Defined.

(** X13.  For heights and a modal height that are counts (below 2^40, at
    most 4096 peaks) with a positive modal height, every normalized height
    the calculator stores is a thousandth within 0.0005 of the quotient of
    the height by the total signal mass, the modal height plus the sum of
    the heights of the subset. *)
Theorem X13_normalized_height_precision (fs : list DataFrame) (mh : list Q) :
  (List.length fs <= List.length mh)%nat ->
  Forall unique_index fs ->
  Forall summable fs ->
  exists out idx,
    calc_instability_index fs mh = Ok (out, idx)
    /\ forall i df m,
         nth_error fs i = Some df -> nth_error mh i = Some m ->
         counted df m -> 0 < m ->
         exists df',
           nth_error out i = Some df'
           /\ Forall2
                (fun r r' =>
                   exists k : Z,
                     cell_normalized_Height r' = Fin (k # 1000)
                     /\ Qabs ((k # 1000)
                              - Height r
                                / fold_right Qplus m (map Height (rows df)))
                        <= 1 # 2000)
                (rows df) (rows df').
Proof.
  intros Hlen Hnd Hs.
  eexists. eexists. split; [now apply calc_instability_index_Ok|].
  intros i df m Hdf Hm Hc Hpos.
  destruct (nth_error_annotate fs mh i df Hlen Hdf) as (m' & Hm' & Hout & _).
  rewrite Hm in Hm'. inversion Hm'; subst m'.
  exists (annotate df m). split; [assumption|].
  rewrite (rows_annotate df m (unique_index_nth fs i df Hnd Hdf)).
  apply Forall2_map_r. intros r Hr.
  destruct (total_counted _ _ Hc) as (T & zm & HT & _).
  destruct (normalized_height_counted _ _ T r Hc Hpos Hr HT)
    as (h & k & Eh & Hnh & Hh & HT0 & Hk1 & Hk2 & _).
  exists k. unfold annotate_row. cbn [cell_normalized_Height].
  split; [exact Hnh|].
  assert (Etotal : fold_right Qplus m (map Height (rows df)) == inject_Z T).
  { rewrite <- HT. symmetry. apply Qsum_fold_right. }
  rewrite Eh, Etotal. now apply near_thousandth.
Qed.

(** X13 at a subset with tied heights and modal height 100. *)
Lemma X13_witness :
  counted tied_subset 100
  /\ exists out idx,
       calc_instability_index [tied_subset] [100] = Ok (out, idx)
       /\ forall i df m,
            nth_error [tied_subset] i = Some df -> nth_error [100] i = Some m ->
            counted df m -> 0 < m ->
            exists df',
              nth_error out i = Some df'
              /\ Forall2
                   (fun r r' =>
                      exists k : Z,
                        cell_normalized_Height r' = Fin (k # 1000)
                        /\ Qabs ((k # 1000)
                                 - Height r
                                   / fold_right Qplus m (map Height (rows df)))
                           <= 1 # 2000)
                   (rows df) (rows df').
Proof.
  split; [counted_by_computation|].
  apply (X13_normalized_height_precision [tied_subset] [100]).
  - simpl. lia.
  - constructor; [|constructor]. unique_index_by_computation.
  - constructor; [|constructor]. left. discriminate.
Defined.

(** ** The order of the additions *)

(** X19.  The index of a region does not depend on the order in which
    pandas adds the normalized peaks of its subset: for heights and modal
    heights that are counts (below 2^40, modal height positive, labels from
    0 below 4096), the float64 sum of the normalized peaks, the additions
    made in any order and grouping, rounds to the index the calculator
    returns. *)
Theorem X19_index_whatever_the_order (fs : list DataFrame) (mh : list Q) :
  (List.length fs <= List.length mh)%nat ->
  Forall unique_index fs ->
  Forall summable fs ->
  exists out idx,
    calc_instability_index fs mh = Ok (out, idx)
    /\ forall i df m,
         nth_error fs i = Some df -> nth_error mh i = Some m ->
         ordinary df m ->
         exists df' instability_index,
           nth_error out i = Some df'
           /\ nth_error idx i = Some instability_index
           /\ forall peaks v,
                map cell_normalized_Peak (rows df') = map Fin peaks ->
                float_sum peaks v ->
                instability_index = Fin (round3 v).
Proof.
  intros Hlen Hnd Hs.
  eexists. eexists. split; [now apply calc_instability_index_Ok|].
  intros i df m Hdf Hm Ho.
  destruct (nth_error_annotate fs mh i df Hlen Hdf) as (m' & Hm' & Hout & Hidx).
  rewrite Hm in Hm'. inversion Hm'; subst m'.
  exists (annotate df m), (index_of (annotate df m)).
  split; [assumption|]. split; [assumption|].
  intros peaks v Hpeaks Hv.
  pose proof (unique_index_nth fs i df Hnd Hdf) as Hu.
  destruct (normalized_peaks_ordinary df m Hu Ho) as (ns & Hcells & Hb & Hl & ->).
  rewrite Hcells in Hpeaks. apply map_Fin_inj in Hpeaks. subst peaks.
  now rewrite (round3_float_sum ns v Hb Hl Hv).
Qed.

(** X19 at a subset with tied heights: the peaks added from the first to
    the last, in another order, and in two halves. *)
Lemma X19_witness :
  ordinary tied_subset 100
  /\ map (map cell_normalized_Peak) (map rows (fst tied_annotated))
     = [map Fin [-0.053; 0.068; -0.053; 0.068]]
  /\ (exists v1 v2 v3,
        float_sum [-0.053; 0.068; -0.053; 0.068] v1
        /\ float_sum [-0.053; 0.068; -0.053; 0.068] v2
        /\ float_sum [-0.053; 0.068; -0.053; 0.068] v3
        /\ v1 = fold_left Float64.add [-0.053; 0.068; -0.053; 0.068] 0
        /\ v2 = fold_left Float64.add [0.068; -0.053; 0.068; -0.053] 0
        /\ v3 = Float64.add (Float64.add (-0.053) 0.068)
                  (Float64.add (-0.053) 0.068))
  /\ exists out idx,
       calc_instability_index [tied_subset] [100] = Ok (out, idx)
       /\ forall i df m,
            nth_error [tied_subset] i = Some df -> nth_error [100] i = Some m ->
            ordinary df m ->
            exists df' instability_index,
              nth_error out i = Some df'
              /\ nth_error idx i = Some instability_index
              /\ forall peaks v,
                   map cell_normalized_Peak (rows df') = map Fin peaks ->
                   float_sum peaks v ->
                   instability_index = Fin (round3 v).
Proof.
  split; [ordinary_by_computation|]. split; [vm_compute; reflexivity|]. split.
  - eexists. eexists. eexists.
    split; [apply float_sum_in_order|].
    split; [|split; [|repeat split]].
    + apply (float_sum_perm [0.068; -0.053; 0.068; -0.053]);
        [|apply float_sum_in_order].
      apply perm_trans with [-0.053; 0.068; 0.068; -0.053].
      * apply perm_swap.
      * apply perm_skip, perm_skip, perm_swap.
    + apply (float_sum_add [-0.053; 0.068] [-0.053; 0.068]);
        apply float_sum_two.
  - apply (X19_index_whatever_the_order [tied_subset] [100]).
    + simpl. lia.
    + constructor; [|constructor]. unique_index_by_computation.
    + constructor; [|constructor]. left. discriminate.
Defined.

(** ** The sign of the index *)

Lemma fold_add_nonneg (l : list num) :
  (forall v, In v l -> exists q, v = Fin q /\ 0 <= q) ->
  forall acc, 0 <= acc ->
    exists q, fold_left Num.add l (Fin acc) = Fin q /\ 0 <= q.
Proof.
  induction l as [|v l IH]; simpl; intros Hl acc Hacc.
  - now exists acc.
  - destruct (Hl v (or_introl eq_refl)) as (q & -> & Hq). simpl.
    apply IH; [intros x Hx; apply Hl; now right | now apply add_nonneg].
Qed.

Lemma sum_nonneg (l : list num) :
  (forall v, In v l -> exists q, v = Fin q /\ 0 <= q) ->
  exists q, Num.sum l = Fin q /\ 0 <= q.
Proof.
  intros Hl. unfold Num.sum. apply fold_add_nonneg; [|lra].
  intros v Hv. apply filter_In in Hv. apply Hl. tauto.
Qed.

Lemma increasing_head (r0 : Row) (rest : list Row) (x : Row) :
  StronglySorted Z.lt (map label (r0 :: rest)) ->
  In x (r0 :: rest) -> (label r0 <= label x)%Z.
Proof.
  intros Hs [<- | Hin]; [lia|].
  pose proof (increasing_after [] rest r0 x Hs Hin). lia.
Qed.

(** X17.  The index of a region is a number that is not negative when the
    first peak of its subset is the highest one (labels growing from row to
    row, positive modal height, heights and modal height counts below 2^40,
    at most 4096 peaks): every weight is then 1 or more.  A negative index
    needs a peak that stands before the highest one. *)
Theorem X17_index_not_negative_when_first_peak_is_highest
  (fs : list DataFrame) (mh : list Q) :
  (List.length fs <= List.length mh)%nat ->
  Forall increasing_index fs ->
  Forall summable fs ->
  exists out idx,
    calc_instability_index fs mh = Ok (out, idx)
    /\ forall i df m r0 rest,
         nth_error fs i = Some df -> nth_error mh i = Some m ->
         rows df = r0 :: rest ->
         (forall x, In x rest -> Height x <= Height r0) ->
         counted df m ->
         0 < m ->
         exists q, nth_error idx i = Some (Fin q) /\ 0 <= q.
Proof.
  intros Hlen Hinc Hs.
  assert (Hnd : Forall unique_index fs).
  { eapply Forall_impl; [|exact Hinc]. apply increasing_index_unique. }
  eexists. eexists. split; [now apply calc_instability_index_Ok|].
  intros i df m r0 rest Hdf Hm Hrows Hhigh Hcount Hpos.
  assert (Hnonneg : forall x, In x (rows df) -> 0 <= Height x).
  { intros x Hx. destruct Hcount as (Hall & _). rewrite Forall_forall in Hall.
    destruct (Hall x Hx) as (z & -> & Hz & _).
    change 0 with (inject_Z 0). now rewrite <- Zle_Qle. }
  destruct (nth_error_annotate fs mh i df Hlen Hdf) as (m' & Hm' & _ & Hidx).
  rewrite Hm in Hm'. inversion Hm'; subst m'.
  pose proof (unique_index_nth fs i df Hnd Hdf) as Hu.
  assert (Hsorted : increasing_index df).
  { rewrite Forall_forall in Hinc. apply Hinc. eapply nth_error_In. eassumption. }
  assert (Hfirst : first_maximum (rows df) r0).
  { exists [], rest. split; [exact Hrows|]. split; [intros x []|exact Hhigh]. }
  assert (Hcells : forall v,
             In v (map cell_normalized_Peak (rows (annotate df m))) ->
             exists q, v = Fin q /\ 0 <= q).
  { intros v Hv. rewrite (rows_annotate df m Hu) in Hv.
    rewrite map_map in Hv. apply in_map_iff in Hv. destruct Hv as (r & <- & Hr).
    destruct (weight_spec df r Hu Hr) as (rmax & rcur & Hfm & Hfc & _ & _ & Hw).
    rewrite (first_maximum_unique (rows df) rmax r0 Hfm Hfirst) in Hw.
    assert (Hz : (1 <= label rcur - label r0 + 1)%Z).
    { destruct Hfc as (bc & ac & E & _ & _).
      assert (Hin : In rcur (r0 :: rest)).
      { rewrite <- Hrows, E. apply in_or_app. right. now left. }
      unfold increasing_index, Frame.index in Hsorted. rewrite Hrows in Hsorted.
      pose proof (increasing_head r0 rest rcur Hsorted Hin). lia. }
    unfold annotate_row. cbn [cell_normalized_Peak]. rewrite Hw.
    destruct (div_nonneg (Height r) (total_signal_mass df m)) as (q & Hq & Hq0).
    - now apply Hnonneg.
    - now apply total_signal_mass_pos.
    - rewrite Hq. unfold Num.of_Z. simpl.
      eexists. split; [reflexivity|]. apply round3_nonneg.
      apply mul_nonneg; [now apply round3_nonneg|].
      change 0 with (inject_Z 0). rewrite <- Zle_Qle. lia. }
  destruct (sum_nonneg _ Hcells) as (q & Hq & Hq0).
  exists (round3 q). split; [|now apply round3_nonneg].
  rewrite Hidx. unfold index_of. now rewrite Hq.
Qed.

(** X17 at the two selected peaks of the scenario. *)
Lemma X17_witness :
  counted scenario_unselected 1000
  /\ exists out idx,
    calc_instability_index [scenario_unselected] [1000] = Ok (out, idx)
    /\ forall i df m r0 rest,
         nth_error [scenario_unselected] i = Some df ->
         nth_error [1000] i = Some m ->
         rows df = r0 :: rest ->
         (forall x, In x rest -> Height x <= Height r0) ->
         counted df m ->
         0 < m ->
         exists q, nth_error idx i = Some (Fin q) /\ 0 <= q.
Proof.
  split; [counted_by_computation|].
  apply (X17_index_not_negative_when_first_peak_is_highest
           [scenario_unselected] [1000]).
  - simpl. lia.
  - constructor; [|constructor]. increasing_index_by_computation.
  - constructor; [|constructor]. left. discriminate.
Defined.

(** ** Why a call fails *)

Lemma instability_value_annotate_Raise (df : DataFrame) (m : Q) (e : string) :
  instability_value (annotate df m) = Raise e ->
  e = "AttributeError" /\ rows df = [] /\ has_normalized_Peak df = false.
Proof.
  intros H. split; [now apply (instability_value_Raise _ _ H)|].
  destruct (rows df) as [|r l] eqn:E.
  - split; [reflexivity|].
    destruct (has_normalized_Peak df) eqn:Ec; [|reflexivity].
    rewrite instability_value_annotate in H by now right. discriminate.
  - rewrite instability_value_annotate in H; [discriminate|].
    left. rewrite E. discriminate.
Qed.

(** X16.  On subsets with unique labels the calculator fails for two
    reasons only: IndexError when there are fewer modal heights than
    subsets, and otherwise AttributeError when one of the subsets is empty
    and has no column [normalized_Peak] yet. *)
Theorem X16_calc_failure_causes (fs : list DataFrame) (mh : list Q)
  (e : string) :
  Forall unique_index fs ->
  calc_instability_index fs mh = Raise e ->
  (e = "IndexError" /\ (List.length mh < List.length fs)%nat)
  \/ (e = "AttributeError"
      /\ (List.length fs <= List.length mh)%nat
      /\ exists df,
           In df fs /\ rows df = [] /\ has_normalized_Peak df = false).
Proof.
  intros Hnd H.
  destruct (le_lt_dec (List.length fs) (List.length mh)) as [Hle | Hlt].
  - right. rewrite (calc_instability_index_eq fs mh Hle Hnd) in H.
    destruct (traverse instability_value (zip_with annotate fs mh)) as [v|e']
      eqn:E; simpl in H; [discriminate|].
    inversion H; subst e'.
    destruct (traverse_Raise _ _ _ E) as (a & Ha & Hfa).
    apply in_zip_with_l in Ha. destruct Ha as (df & m & Hdf & ->).
    destruct (instability_value_annotate_Raise df m e Hfa) as (-> & Hrows & Hcol).
    split; [reflexivity|]. split; [assumption|]. now exists df.
  - left. unfold calc_instability_index in H.
    rewrite (sum_of_heights_short fs mh Hlt) in H. simpl in H.
    inversion H. now split.
Qed.

(** X16 at an empty subset. *)
Lemma X16_witness :
  ("AttributeError" = "IndexError"
   /\ (List.length [1000] < List.length [empty_subset])%nat)
  \/ ("AttributeError" = "AttributeError"
      /\ (List.length [empty_subset] <= List.length [1000])%nat
      /\ exists df,
           In df [empty_subset] /\ rows df = []
           /\ has_normalized_Peak df = false).
Proof.
  apply (X16_calc_failure_causes [empty_subset] [1000] "AttributeError").
  - constructor; [|constructor]. unfold unique_index, Frame.index. simpl.
    constructor.
  - vm_compute. reflexivity.
Defined.

(** ** The three functions in sequence *)

Lemma extract_files_readable files (sample_df : list RegionDescriptor) :
  (forall d, In d sample_df ->
     exists table, files (source_path d) = Ok (peak_table table)) ->
  extract_files files sample_df = Ok (map (extracted_frame files) sample_df).
Proof.
  intros H. rewrite extract_files_eq. apply traverse_Ok. intros d Hd.
  destruct (H d Hd) as [table Ht].
  now apply (extract_one_readable files d table).
Qed.

Lemma extract_files_Ok_readable files (sample_df : list RegionDescriptor)
  (samples : list DataFrame) :
  extract_files files sample_df = Ok samples ->
  forall d, In d sample_df ->
    exists table, files (source_path d) = Ok (peak_table table).
Proof.
  rewrite extract_files_eq. intros H d Hd.
  destruct (traverse_Ok_inv _ _ _ H d Hd) as (b & Hb).
  unfold extract_one, read_csv in Hb.
  destruct (files (source_path d)) as [[table|]|e]; try discriminate.
  now exists table.
Qed.

Lemma zip_with_map_same {A B C : Type} (f : A -> B -> C) (g : A -> B)
  (l : list A) :
  zip_with f l (map g l) = map (fun a => f a (g a)) l.
Proof. induction l as [|a l IH]; simpl; [reflexivity | now rewrite IH]. Qed.

Lemma zip_with_map_r {A B C D : Type} (f : A -> B -> C) (g : D -> B)
  (h : D -> A) (l : list D) :
  zip_with f (map h l) (map g l) = map (fun a => f (h a) (g a)) l.
Proof. induction l as [|a l IH]; simpl; [reflexivity | now rewrite IH]. Qed.

Lemma unique_index_extracted_frame files (d : RegionDescriptor) :
  unique_index (extracted_frame files d).
Proof.
  unfold unique_index, Frame.index, extracted_frame. cbn [rows].
  destruct (rows_of_extract (region_name d) (table_of files d) 0) as [_ ->].
  apply NoDup_map_of_nat, seq_NoDup.
Qed.

Lemma unique_index_region_subset files (d : RegionDescriptor) :
  unique_index (select_one d (extracted_frame files d)).
Proof. apply unique_index_select_one, unique_index_extracted_frame. Qed.

(** The notebook cell when every path can be read: only the last loop of
    the calculator can fail. *)
Lemma pipeline_readable files (sample_df : list RegionDescriptor) :
  (forall d, In d sample_df ->
     exists table, files (source_path d) = Ok (peak_table table)) ->
  pipeline files sample_df
  = (instability_index <-
       traverse instability_value (map (region_frame files) sample_df) ;;
     Ok (map (region_frame files) sample_df, instability_index)).
Proof.
  intros H. unfold pipeline.
  rewrite (extract_files_readable files sample_df H). cbn [bind].
  rewrite exp_peak_subset_Ok by (rewrite length_map; lia). cbn [bind fst snd].
  rewrite zip_with_map_same.
  rewrite calc_instability_index_eq.
  - now rewrite (zip_with_map_r annotate).
  - rewrite !length_map. lia.
  - apply Forall_forall. intros df Hdf. apply in_map_iff in Hdf.
    destruct Hdf as (d & <- & _). apply unique_index_region_subset.
Qed.

Lemma raw_row_extracted (name : string) (table : list RawRow) (raw : RawRow) :
  forall k,
    In raw table ->
    exists r,
      In r (map (set_Sample_Name name) (project_from k table))
      /\ Size r = raw_Size raw /\ Height r = raw_Height raw.
Proof.
  induction table as [|x table IH]; intros k Hin; [contradiction|].
  destruct Hin as [-> | Hin].
  - eexists. split; [left; reflexivity|]. split; reflexivity.
  - destruct (IH (S k) Hin) as (r & Hr & Hs & Hh).
    exists r. split; [right; exact Hr | now split].
Qed.

Lemma region_subset_nonempty files (d : RegionDescriptor) :
  rows (select_one d (extracted_frame files d)) <> []
  <-> has_expansion_peak d (table_of files d).
Proof.
  split.
  - intros Hne.
    destruct (rows (select_one d (extracted_frame files d))) as [|r l] eqn:E;
      [congruence|].
    assert (Hin : In r (rows (select_one d (extracted_frame files d))))
      by (rewrite E; now left).
    apply selected_bounds in Hin. destruct Hin as (Hin & Hlo & Hhi & Hsz).
    unfold extracted_frame in Hin. cbn [rows] in Hin.
    destruct (extracted_rows _ _ _ Hin) as (j & raw & Hj & _ & _ & Hs & Hh).
    exists raw. rewrite <- Hs, <- Hh.
    split; [eapply nth_error_In; eassumption | tauto].
  - intros (raw & Hin & Hlo & Hhi & Hsz) E.
    destruct (raw_row_extracted (region_name d) _ raw 0 Hin) as (r & Hr & Hs & Hh).
    assert (Hsel : In r (rows (select_one d (extracted_frame files d)))).
    { unfold select_one, select, extracted_frame. cbn [rows].
      apply filter_In. split; [exact Hr|].
      apply is_expansion_peak_iff. rewrite Hs, Hh. tauto. }
    rewrite E in Hsel. contradiction.
Qed.

(** X15.  When every path of the sample key can be read as a peak table
    and every region's table holds at least one peak that passes the
    selector, the three functions run in sequence without failure and give
    one annotated frame and one index per line of the key. *)
Theorem X15_pipeline_returns (files : string -> result Table)
  (sample_df : list RegionDescriptor) :
  (forall d, In d sample_df ->
     exists table,
       files (source_path d) = Ok (peak_table table)
       /\ has_expansion_peak d table) ->
  exists out idx,
    pipeline files sample_df = Ok (out, idx)
    /\ List.length out = List.length sample_df
    /\ List.length idx = List.length sample_df.
Proof.
  intros H.
  assert (Hread : forall d, In d sample_df ->
            exists table, files (source_path d) = Ok (peak_table table)).
  { intros d Hd. destruct (H d Hd) as (table & Ht & _). now exists table. }
  rewrite (pipeline_readable files sample_df Hread).
  rewrite (traverse_Ok _ index_of).
  - cbn [bind]. eexists. eexists. split; [reflexivity|].
    now rewrite !length_map.
  - intros df Hdf. apply in_map_iff in Hdf. destruct Hdf as (d & <- & Hd).
    apply instability_value_annotate. left. apply region_subset_nonempty.
    destruct (H d Hd) as (table & Hf & Hp).
    unfold table_of. now rewrite Hf.
Qed.

(** X15 at the sample key and the peak table of the scenario. *)
Lemma X15_witness :
  exists out idx,
    pipeline scenario_files scenario_key = Ok (out, idx)
    /\ List.length out = List.length scenario_key
    /\ List.length idx = List.length scenario_key.
Proof.
  apply (X15_pipeline_returns scenario_files scenario_key).
  intros d [<- | []]. exists scenario_table. split; [reflexivity|].
  exists (mkRaw "run.fsa" 185 50 0 0 []).
  split; [left; reflexivity|].
  repeat split; vm_compute; first [reflexivity | discriminate].
Defined.

(** X14.  The three functions in sequence fail for two reasons only.  A
    path of the sample key cannot be read as a peak table: the exception is
    the one [pd.read_csv] raises at that path, or KeyError when the table
    read lacks one of the five columns.  Or every path is read as a peak
    table and the table of some region holds no peak that passes the
    selector: the exception is AttributeError.  The functions add no
    IndexError and no ValueError of their own. *)
Theorem X14_pipeline_failure_causes (files : string -> result Table)
  (sample_df : list RegionDescriptor) (e : string) :
  pipeline files sample_df = Raise e ->
  (exists d,
     In d sample_df
     /\ (files (source_path d) = Raise e
         \/ (files (source_path d) = Ok other_table /\ e = "KeyError")))
  \/ (e = "AttributeError"
      /\ (forall d, In d sample_df ->
            exists table, files (source_path d) = Ok (peak_table table))
      /\ exists d table,
           In d sample_df
           /\ files (source_path d) = Ok (peak_table table)
           /\ ~ has_expansion_peak d table).
Proof.
  intros H.
  destruct (extract_files files sample_df) as [samples|e'] eqn:He.
  - right.
    pose proof (extract_files_Ok_readable files sample_df samples He) as Hread.
    rewrite (pipeline_readable files sample_df Hread) in H.
    destruct (traverse instability_value (map (region_frame files) sample_df))
      as [v|e''] eqn:E; simpl in H; [discriminate|].
    inversion H; subst e''.
    destruct (traverse_Raise _ _ _ E) as (a & Ha & Hfa).
    apply in_map_iff in Ha. destruct Ha as (d & <- & Hd).
    destruct (instability_value_annotate_Raise _ _ _ Hfa) as (-> & Hrows & _).
    split; [reflexivity|]. split; [exact Hread|].
    destruct (Hread d Hd) as [table Hf].
    exists d, table. split; [assumption|]. split; [exact Hf|].
    intros Hp.
    apply (proj2 (region_subset_nonempty files d)); [|exact Hrows].
    unfold table_of. now rewrite Hf.
  - left. unfold pipeline in H. rewrite He in H. simpl in H.
    inversion H; subst e'.
    rewrite extract_files_eq in He.
    destruct (traverse_Raise _ _ _ He) as (d & Hd & Hfd).
    exists d. split; [assumption|]. now apply extract_one_Raise.
Qed.

(** X14 at a region whose modal size no peak of the table exceeds. *)
Lemma X14_witness :
  (exists d,
     In d [mkRegion "peaks.txt" "HTT" 1000 200]
     /\ (mixed_files (source_path d) = Raise "AttributeError"
         \/ (mixed_files (source_path d) = Ok other_table
             /\ "AttributeError" = "KeyError")))
  \/ ("AttributeError" = "AttributeError"
      /\ (forall d,
            In d [mkRegion "peaks.txt" "HTT" 1000 200] ->
            exists table, mixed_files (source_path d) = Ok (peak_table table))
      /\ exists d table,
           In d [mkRegion "peaks.txt" "HTT" 1000 200]
           /\ mixed_files (source_path d) = Ok (peak_table table)
           /\ ~ has_expansion_peak d table).
Proof.
  apply (X14_pipeline_failure_causes mixed_files
           [mkRegion "peaks.txt" "HTT" 1000 200] "AttributeError").
  vm_compute. reflexivity.
Defined.

(** * Further examples *)

(** Rounding at each step is visible in the index: in the scenario the
    rounded products sum to 0.085, the products without rounding to
    0.0841... *)
Example rounding_only_at_the_end_differs :
  round3
    (Float64.add (Float64.mul (Float64.div 50 1070) 1)
       (Float64.mul (Float64.div 20 1070) 2))
  = 0.084
  /\ round3
       (Float64.add (round3 (Float64.mul (round3 (Float64.div 50 1070)) 1))
          (round3 (Float64.mul (round3 (Float64.div 20 1070)) 2)))
     = 0.085.
Proof. split; vm_compute; reflexivity. Qed.

(** The binary rounding of the quotient decides the third decimal: 203/400
    is 0.5075, the float64 quotient times 1000 is 507.49999999999994, and
    the normalized height is 0.507, where the half-even thousandth of the
    exact quotient is 0.508. *)
Example binary_rounding_of_a_tie :
  203 / 400 == 0.5075
  /\ Float64.mul (Float64.div 203 400) 1000 < 507.5
  /\ round3 (Float64.div 203 400) = 0.507
  /\ rint (203 / 400 * 1000) = 508%Z
  /\ exists out,
       calc_instability_index [mkFrame [peak 0 185 203] false false false] [197]
       = Ok (out, [Fin 0.507])
       /\ map (map cell_normalized_Height) (map rows out) = [[Fin 0.507]].
Proof.
  split; [reflexivity|]. split; [vm_compute; reflexivity|].
  split; [vm_compute; reflexivity|]. split; [vm_compute; reflexivity|].
  eexists. split; vm_compute; reflexivity.
Qed.

(** The float64 threshold of a modal height of 35 is above 0.35, that of a
    modal height of 45 is the float64 0.45. *)
Example threshold_of_35_and_45 :
  Float64.nearest 0.35 < Float64.mul 35 0.01
  /\ Float64.mul 45 0.01 = Float64.nearest 0.45.
Proof. split; vm_compute; reflexivity. Qed.

(** In the other direction: the float64 written 0.03 is just below the
    hundredth of 3, and a peak of that height is kept, the float64 product
    [3 * 0.01] being that float64. *)
Example threshold_of_3 :
  Float64.nearest 0.03 < 0.01 * 3
  /\ Float64.mul 3 0.01 = Float64.nearest 0.03
  /\ exp_peak_subset [mkRegion "peaks.txt" "HTT" 3 180]
       [mkFrame [peak 0 185 (Float64.nearest 0.03)] false false false]
     = Ok ([mkFrame [peak 0 185 (Float64.nearest 0.03)] false false false],
           [3]).
Proof. repeat split; vm_compute; reflexivity. Qed.

(** The whole notebook cell on a region in which no peak is larger than
    the modal size. *)
Example pipeline_empty_selection_raises :
  pipeline scenario_files [mkRegion "peaks.txt" "HTT" 1000 200]
  = Raise "AttributeError".
Proof. vm_compute. reflexivity. Qed.

(** A path that cannot be read stops the extraction, and so does a table
    without the five columns. *)
Example extract_files_missing_file :
  extract_files mixed_files [mkRegion "absent.txt" "HTT" 1000 180]
  = Raise "FileNotFoundError"
  /\ extract_files mixed_files [mkRegion "notes.txt" "HTT" 1000 180]
     = Raise "KeyError".
Proof. split; vm_compute; reflexivity. Qed.
